(** * Liqo: ingress reflection, LAN/WAN discovery, [liqoctl add cluster]
    and the common install arguments

    A shallow embedding of four pieces of the repository:

    - [Exposition]: [NamespacedIngressReflector.Handle]
      (pkg/virtualKubelet/reflection/exposition/ingress.go), the
      reconciliation step of the resource reflection engine;
    - [Discovery]: [DiscoveryCtrl.UpdateForeign] and the helpers it calls
      (package discovery);
    - [Add]: [enforceForeignCluster] and [processAddCluster]
      (pkg/liqoctl/add/handler.go);
    - [Provider]: [ValidateCommonArguments] and [parseCommonValues]
      (pkg/liqoctl/install/provider/args.go).

    Go values returned as [(obj, err)] are sums [obj + error]; the Kubernetes
    API servers the code talks to are explicit states threaded through the
    calls. *)

From stdpp Require Import gmap strings list fin_maps pretty.

Open Scope string_scope.

(** ** Kubernetes API machinery shared by the three packages *)

Module Kube.

(** [k8s.io/apimachinery/pkg/api/errors]: the status reasons the code
    distinguishes. *)
Inductive error : Type :=
  | ErrNotFound
  | ErrAlreadyExists
  | ErrConflict
  | ErrPrecondition
  | ErrUnavailable
  | ErrNamespaceUnresolved
  | ErrInvalid (msg : string).

#[global] Instance error_eq_dec : EqDecision error.
Proof. solve_decision. Defined.

(** [kerrors.IsNotFound(err)]; [None] is Go's [nil] error. *)
Definition IsNotFound (err : option error) : bool :=
  match err with
  | Some ErrNotFound => true
  | _ => false
  end.

(** [client.IgnoreNotFound(err)]. *)
Definition IgnoreNotFound (err : option error) : option error :=
  if IsNotFound err then None else err.

(** How a Go call ends: it returns its [error] result, or it panics. *)
Inductive panic : Type :=
  | PanicErr (e : error)
  | PanicNilDereference.

Inductive completion : Type :=
  | Returned (err : option error)
  | Panicked (p : panic).

(** [utilruntime.Must(err)] panics when [err != nil]: the result is the
    value it panics with, [None] when it returns normally. *)
Definition Must (err : option error) : option panic :=
  match err with
  | Some e => Some (PanicErr e)
  | None => None
  end.

(** The error half of a Go [(obj, err)] pair. *)
Definition errOf {A : Type} (r : A + error) : option error :=
  match r with
  | inl _ => None
  | inr e => Some e
  end.

End Kube.

Import Kube.

(** ** The ingress reflector *)

Module Exposition.

(** [netv1.IngressSpec] and [netv1.IngressStatus], as payloads. *)
Record IngressSpec : Type := mkIngressSpec {
    IngressClassName : option string;
    Rules : list (string * string)
  }.

Record IngressStatus : Type := mkIngressStatus {
    LoadBalancer : list string
  }.

(** [netv1.Ingress]: object metadata, spec and status. *)
Record Ingress : Type := mkIngress {
    Name : string;
    Namespace : string;
    UID : string;
    Labels : gmap string string;
    Annotations : gmap string string;
    Spec : IngressSpec;
    Status : IngressStatus
  }.

(** [netv1apply.IngressApplyConfiguration]: the fields a server-side apply
    declares. *)
Record IngressApplyConfiguration : Type := mkIngressApply {
    acName : string;
    acNamespace : string;
    acLabels : gmap string string;
    acAnnotations : gmap string string;
    acSpec : IngressSpec
  }.

#[global] Instance IngressSpec_eq_dec : EqDecision IngressSpec.
Proof. solve_decision. Defined.
#[global] Instance IngressStatus_eq_dec : EqDecision IngressStatus.
Proof. solve_decision. Defined.
#[global] Instance Ingress_eq_dec : EqDecision Ingress.
Proof. solve_decision. Defined.
#[global] Instance IngressApplyConfiguration_eq_dec :
    EqDecision IngressApplyConfiguration.
Proof. solve_decision. Defined.

(** The requests a reflector can send to the remote API server, and the
    writes the server persists. *)
Inductive request : Type :=
  | ReqApply (ns : string) (mutation : IngressApplyConfiguration)
  | ReqDelete (ns name : string) (preconditionUID : string).

Inductive writeEvent : Type :=
  | WCreated (ns name : string)
  | WUpdated (ns name : string)
  | WDeleted (ns name : string).

(** The remote API server: the live objects by (namespace, name), the
    writes persisted so far, the number of objects created (the source of
    fresh UIDs), and whether the server is currently unreachable. *)
Record apiServer : Type := mkServer {
    objects : gmap (string * string) Ingress;
    writes : list writeEvent;
    created : nat;
    outage : bool
  }.

(** The lines [Handle] logs through klog, one constructor per message. *)
Inductive logLine : Type :=
  | LogSkippingNotManaged
  | LogDeletingRemote
  | LogRemoteDeleted
  | LogBothVanished
  | LogFailedToEnforce
  | LogFailedToDelete
  | LogSuccessfullyEnforced
  | LogDeferred
  | LogNamespaceUnresolved.

(** The outcomes of the structured reconciliation log; [enforced] is what
    the code reports for created, updated and no-op applies alike. *)
Inductive Outcome : Type :=
  | skipped_unowned | deleted | no_op | enforced | deferred | failed.

Definition outcomeOf (l : logLine) : option Outcome :=
    match l with
    | LogSkippingNotManaged => Some skipped_unowned
    | LogDeletingRemote => None
    | LogRemoteDeleted => Some deleted
    | LogBothVanished => Some no_op
    | LogFailedToEnforce => Some failed
    | LogFailedToDelete => Some failed
    | LogSuccessfullyEnforced => Some enforced
    | LogDeferred => Some deferred
    | LogNamespaceUnresolved => Some failed
    end.

(** What one call of [Handle] does: how it ends, the requests it sent, the
    lines it logged, and the remote server afterwards. *)
Record handled : Type := mkHandled {
    outcome : completion;
    calls : list request;
    klog : list logLine;
    server : apiServer
  }.

(** [netv1listers.IngressNamespaceLister], an interface: its [Get]. *)
Definition IngressNamespaceLister : Type := string → Ingress + error.

(** The lister of an informer cache narrowed to one namespace: a cache
    lookup, whose only error is not-found. *)
Definition Ingresses (indexer : gmap (string * string) Ingress)
      (namespace : string) : IngressNamespaceLister :=
    λ name,
      match indexer !! (namespace, name) with
      | Some obj => inl obj
      | None => inr ErrNotFound
      end.

(** [options.NamespacedOpts]: the namespace pair and the two informer
    caches. *)
Record NamespacedOpts : Type := mkOpts {
    LocalNamespace : string;
    RemoteNamespace : string;
    LocalFactory : gmap (string * string) Ingress;
    RemoteFactory : gmap (string * string) Ingress
  }.

(** [generic.NamespacedReflector]: the namespace pair it serves, which its
    methods [LocalRef], [RemoteRef] and [RemoteNamespace] read. *)
Record GenericNamespacedReflector : Type := mkGeneric {
    local : string;
    remote : string
  }.

Definition NewNamespacedReflector (opts : NamespacedOpts)
      : GenericNamespacedReflector :=
    {| local := LocalNamespace opts; remote := RemoteNamespace opts |}.

(** [NamespacedIngressReflector]; [remoteIngressesClient] is the namespace
    the typed client is scoped to. *)
Record NamespacedIngressReflector : Type := mkNIR {
    base : GenericNamespacedReflector;
    localIngresses : IngressNamespaceLister;
    remoteIngresses : IngressNamespaceLister;
    remoteIngressesClient : string
  }.

Definition NewNamespacedIngressReflector (opts : NamespacedOpts)
      : NamespacedIngressReflector :=
    {| base := NewNamespacedReflector opts;
       localIngresses := Ingresses (LocalFactory opts) (LocalNamespace opts);
       remoteIngresses := Ingresses (RemoteFactory opts) (RemoteNamespace opts);
       remoteIngressesClient := RemoteNamespace opts |}.

(** Packages forge and generic are not among the files embedded here. The
    ownership marker, the annotation that carries the source UID, the filter
    that strips local-only metadata and the kind-specific rewrite of the spec
    are parameters of the development, and so is the UID generator of the
    remote API server. *)
Record Parameters : Type := mkParameters {
  markerKey : string;
  markerValue : string;
  originUIDKey : string;
  FilterNotReflected : gmap string string → gmap string string;
  RemoteIngressSpec : IngressSpec → IngressSpec;
  genUID : nat → string
}.

Section Forge.

Variable P : Parameters.

(** Modelled from the spec: forge.IsReflected is missing; "a reserved marker
    (key/value pair) is the sole authority for: is this remote object managed
    by the engine". *)
Definition IsReflected (obj : Ingress) : bool :=
  bool_decide (Labels obj !! markerKey P = Some (markerValue P)).

(** Modelled from the spec: forge.RemoteIngress is missing; the translation
    "strips local-only metadata, rewrites namespace to the mapped remote
    namespace, injects the ownership marker and the local UID, applies any
    kind-specific field rewrites". *)
Definition RemoteIngress (l : Ingress) (targetNamespace : string)
    : IngressApplyConfiguration :=
  {| acName := Name l;
     acNamespace := targetNamespace;
     acLabels :=
       <[markerKey P := markerValue P]> (FilterNotReflected P (Labels l));
     acAnnotations :=
       <[originUIDKey P := UID l]> (FilterNotReflected P (Annotations l));
     acSpec := RemoteIngressSpec P (Spec l) |}.

(** The part of a stored object that an apply declares. *)
Definition declared (obj : Ingress) : IngressApplyConfiguration :=
  {| acName := Name obj;
     acNamespace := Namespace obj;
     acLabels := Labels obj;
     acAnnotations := Annotations obj;
     acSpec := Spec obj |}.

(** Modelled from the spec: the remote store's Apply is an external
    collaborator; "upsert this desired state into the remote store using a
    merge/apply semantics that leaves fields not owned by the engine
    untouched. A no-op apply (desired == current) must not generate a write".
    The applied configuration declares name, namespace, labels, annotations
    and spec; the UID and the status are not the engine's. *)
Definition merge (cur : Ingress) (m : IngressApplyConfiguration) : Ingress :=
  {| Name := acName m;
     Namespace := acNamespace m;
     UID := UID cur;
     Labels := acLabels m;
     Annotations := acAnnotations m;
     Spec := acSpec m;
     Status := Status cur |}.

Definition instantiate (m : IngressApplyConfiguration) (uid : string) : Ingress :=
  {| Name := acName m;
     Namespace := acNamespace m;
     UID := uid;
     Labels := acLabels m;
     Annotations := acAnnotations m;
     Spec := acSpec m;
     Status := {| LoadBalancer := [] |} |}.

Definition Apply (srv : apiServer) (ns : string)
    (m : IngressApplyConfiguration) : (Ingress + error) * apiServer :=
  if outage srv then (inr ErrUnavailable, srv)
  else if negb (bool_decide (acNamespace m = ns)) then
    (inr (ErrInvalid "namespace mismatch"), srv)
  else
    match objects srv !! (ns, acName m) with
    | None =>
        let obj := instantiate m (genUID P (created srv)) in
        (inl obj,
         {| objects := <[(ns, acName m) := obj]> (objects srv);
            writes := writes srv ++ [WCreated ns (acName m)];
            created := S (created srv);
            outage := outage srv |})
    | Some cur =>
        let obj := merge cur m in
        if bool_decide (obj = cur) then (inl cur, srv)
        else
          (inl obj,
           {| objects := <[(ns, acName m) := obj]> (objects srv);
              writes := writes srv ++ [WUpdated ns (acName m)];
              created := created srv;
              outage := outage srv |})
    end.

(** Modelled from the spec: the remote store's "Delete(kind, namespace, name,
    expectedUID)"; the server refuses the delete when the live object's UID
    differs from the expected one. *)
Definition Delete (srv : apiServer) (ns name : string) (expectedUID : string)
    : option error * apiServer :=
  if outage srv then (Some ErrUnavailable, srv)
  else
    match objects srv !! (ns, name) with
    | None => (Some ErrNotFound, srv)
    | Some cur =>
        if bool_decide (UID cur = expectedUID) then
          (None,
           {| objects := delete (ns, name) (objects srv);
              writes := writes srv ++ [WDeleted ns name];
              created := created srv;
              outage := outage srv |})
        else (Some ErrPrecondition, srv)
    end.

(** Modelled from the spec: generic.NamespacedReflector.DeleteRemote is
    missing; "delete it, passing the remote object's recorded UID as a
    precondition [...] (delete aborts, without error, if the live UID differs
    - treated as already-converged)"; not-found is "tolerated, modeled as
    absent, never propagated as failure". [resource] is the namespace the
    typed client is scoped to. *)
Definition DeleteRemote (gnr : GenericNamespacedReflector) (srv : apiServer)
    (resource : string) (kind name : string) (uid : string)
    : option error * list request * list logLine * apiServer :=
  let sent := [ReqDelete resource name uid] in
  match Delete srv resource name uid with
  | (None, srv') => (None, sent, [LogRemoteDeleted], srv')
  | (Some ErrNotFound, srv') => (None, sent, [LogRemoteDeleted], srv')
  | (Some ErrPrecondition, srv') => (None, sent, [LogRemoteDeleted], srv')
  | (Some e, srv') => (Some e, sent, [LogFailedToDelete], srv')
  end.

Definition IngressReflectorName : string := "Ingress".

(** [NamespacedIngressReflector.Handle] (ingress.go, lines 72-114). *)
Definition Handle (nir : NamespacedIngressReflector) (name : string)
    (srv : apiServer) : handled :=
  (* local, lerr := nir.localIngresses.Get(name) *)
  let lres := localIngresses nir name in
  match Must (IgnoreNotFound (errOf lres)) with
  | Some p => mkHandled (Panicked p) [] [] srv
  | None =>
  (* remote, rerr := nir.remoteIngresses.Get(name) *)
  let rres := remoteIngresses nir name in
  match Must (IgnoreNotFound (errOf rres)) with
  | Some p => mkHandled (Panicked p) [] [] srv
  | None =>
  (* if rerr == nil && !forge.IsReflected(remote) *)
  if match rres with
     | inl r => negb (IsReflected r)
     | inr _ => false
     end
  then mkHandled (Returned None) [] [LogSkippingNotManaged] srv
  else
  (* if kerrors.IsNotFound(lerr) *)
  if IsNotFound (errOf lres) then
    if negb (IsNotFound (errOf rres)) then
      match rres with
      | inl r =>
          let '(err, sent, lines, srv') :=
            DeleteRemote (base nir) srv (remoteIngressesClient nir)
              IngressReflectorName name (UID r) in
          mkHandled (Returned err) sent (LogDeletingRemote :: lines) srv'
      | inr _ =>
          mkHandled (Panicked PanicNilDereference) [] [LogDeletingRemote] srv
      end
    else mkHandled (Returned None) [] [LogBothVanished] srv
  else
    match lres with
    | inl l =>
        (* mutation := forge.RemoteIngress(local, nir.RemoteNamespace()) *)
        let mutation := RemoteIngress l (remote (base nir)) in
        match Apply srv (remoteIngressesClient nir) mutation with
        | (inr err, srv') =>
            mkHandled (Returned (Some err))
              [ReqApply (remoteIngressesClient nir) mutation]
              [LogFailedToEnforce] srv'
        | (inl _, srv') =>
            mkHandled (Returned None)
              [ReqApply (remoteIngressesClient nir) mutation]
              [LogSuccessfullyEnforced] srv'
        end
    | inr _ => mkHandled (Panicked PanicNilDereference) [] [] srv
    end
  end
  end.

(** *** The per-kind reflector and its work queue *)

(** [manager.NamespacedReflector], an interface: its [Handle]. *)
Definition NamespacedReflector : Type := string → apiServer → handled.

(** Modelled from the spec: generic.WithFallback and generic.WithoutFallback
    are missing; the "fallback policy flag" of a kind: "fallback-tolerant" or
    requiring "an explicit mapping". *)
Inductive FallbackPolicy : Type :=
  | WithFallback
  | WithoutFallback.

(** Modelled from the spec: generic.Reflector is missing; the per-kind
    controller "owns one Namespaced Reflector per active namespace pair". *)
Record Reflector : Type := mkReflector {
  kindName : string;
  namespacedFactory : NamespacedOpts → NamespacedReflector;
  fallback : FallbackPolicy;
  workers : nat;
  reflectors : gmap string NamespacedReflector
}.

Definition NewReflector (name : string)
    (namespaced : NamespacedOpts → NamespacedReflector)
    (fb : FallbackPolicy) (w : nat) : Reflector :=
  {| kindName := name;
     namespacedFactory := namespaced;
     fallback := fb;
     workers := w;
     reflectors := ∅ |}.

(** [NewIngressReflector] (ingress.go, lines 50-53). *)
Definition NewIngressReflector (w : nat) : Reflector :=
  NewReflector IngressReflectorName
    (λ opts, Handle (NewNamespacedIngressReflector opts)) WithoutFallback w.

(** Modelled from the spec: "Start(mapping): for every registered kind,
    ensures a Namespaced Reflector exists for mapping" and "Stop(mapping):
    tears down all Namespaced Reflectors for mapping". *)
Definition StartNamespace (r : Reflector) (opts : NamespacedOpts) : Reflector :=
  {| kindName := kindName r;
     namespacedFactory := namespacedFactory r;
     fallback := fallback r;
     workers := workers r;
     reflectors :=
       <[LocalNamespace opts := namespacedFactory r opts]> (reflectors r) |}.

Definition StopNamespace (r : Reflector) (localNamespace : string) : Reflector :=
  {| kindName := kindName r;
     namespacedFactory := namespacedFactory r;
     fallback := fallback r;
     workers := workers r;
     reflectors := delete localNamespace (reflectors r) |}.

(** Modelled from the spec: the worker's dispatch of a key (namespace, name);
    "if a kind is fallback-tolerant and the remote namespace for a key is not
    yet resolved, Handle is skipped silently (treated as success [...]); if a
    kind requires an explicit mapping, the same condition is a transient
    error that is retried with backoff". *)
Definition handle (r : Reflector) (key : string * string) (srv : apiServer)
    : handled :=
  match reflectors r !! key.1 with
  | Some nr => nr key.2 srv
  | None =>
      match fallback r with
      | WithFallback => mkHandled (Returned None) [] [LogDeferred] srv
      | WithoutFallback =>
          mkHandled (Returned (Some ErrNamespaceUnresolved)) []
            [LogNamespaceUnresolved] srv
      end
  end.

(** Modelled from the spec: the error taxonomy; validation failures are
    fatal, every other failure is transient. *)
Inductive errorClass : Type :=
  | Transient
  | Fatal.

Definition classify (e : error) : errorClass :=
  match e with
  | ErrInvalid _ => Fatal
  | _ => Transient
  end.

(** Modelled from the spec: what the work queue does with a handled key: "on
    success, mark done; on transient failure, requeue with exponential
    backoff up to a maximum retry count, after which the item is dropped
    [...]; on fatal/validation failure, drop immediately without retry". A
    panic is not an outcome the queue sees: it unwinds the worker. *)
Inductive queueDecision : Type :=
  | Done
  | Requeue
  | Drop
  | Crash.

Definition processed (maxRetries attempts : nat) (c : completion)
    : queueDecision :=
  match c with
  | Returned None => Done
  | Returned (Some e) =>
      match classify e with
      | Transient => if bool_decide (attempts < maxRetries) then Requeue else Drop
      | Fatal => Drop
      end
  | Panicked _ => Crash
  end.

End Forge.


(** The remote informer cache catches up with the remote API server. *)
Definition resync (opts : NamespacedOpts) (srv : apiServer) : NamespacedOpts :=
  {| LocalNamespace := LocalNamespace opts;
     RemoteNamespace := RemoteNamespace opts;
     LocalFactory := LocalFactory opts;
     RemoteFactory := objects srv |}.

(** *** A concrete setting, to run the definitions on *)

Definition exampleParameters : Parameters :=
  {| markerKey := "liqo.io/managed-by";
     markerValue := "virtual-kubelet";
     originUIDKey := "liqo.io/origin-uid";
     FilterNotReflected := λ m, m;
     RemoteIngressSpec := λ s, s;
     genUID := λ n, "uid-" +:+ pretty n |}.

Definition exampleSpec : IngressSpec :=
  {| IngressClassName := Some "nginx"; Rules := [("example.com", "/")] |}.

Definition localWeb : Ingress :=
  {| Name := "web"; Namespace := "ns-local"; UID := "l1";
     Labels := {[ "app" := "web" ]}; Annotations := ∅;
     Spec := exampleSpec; Status := {| LoadBalancer := [] |} |}.


(** A remote object somebody else created under the same name. *)
Definition foreignWeb : Ingress :=
  {| Name := "web"; Namespace := "ns-remote"; UID := "u0";
     Labels := {[ "team" := "payments" ]}; Annotations := ∅;
     Spec := exampleSpec; Status := {| LoadBalancer := ["10.0.0.1"] |} |}.

(** A remote object the engine created, with UID [uid]. *)
Definition reflectedWeb (uid : string) : Ingress :=
  {| Name := "web"; Namespace := "ns-remote"; UID := uid;
     Labels := {[ "liqo.io/managed-by" := "virtual-kubelet"; "app" := "web" ]};
     Annotations := {[ "liqo.io/origin-uid" := "l1" ]};
     Spec := exampleSpec; Status := {| LoadBalancer := ["10.0.0.1"] |} |}.

Definition exampleOpts (l r : option Ingress) : NamespacedOpts :=
  {| LocalNamespace := "ns-local";
     RemoteNamespace := "ns-remote";
     LocalFactory :=
       match l with
       | Some obj => {[ ("ns-local", "web") := obj ]}
       | None => ∅
       end;
     RemoteFactory :=
       match r with
       | Some obj => {[ ("ns-remote", "web") := obj ]}
       | None => ∅
       end |}.

Definition exampleServer (r : option Ingress) : apiServer :=
  {| objects :=
       match r with
       | Some obj => {[ ("ns-remote", "web") := obj ]}
       | None => ∅
       end;
     writes := [];
     created := 0;
     outage := false |}.

(** A reflector whose local lister fails with something else than
    not-found. *)
Definition brokenLister : IngressNamespaceLister := λ _, inr ErrUnavailable.

Definition brokenReflector : NamespacedIngressReflector :=
  {| base := {| local := "ns-local"; remote := "ns-remote" |};
     localIngresses := brokenLister;
     remoteIngresses := Ingresses ∅ "ns-remote";
     remoteIngressesClient := "ns-remote" |}.

(** The statement that a failed read comes back to the work queue as a
    transient error. *)
Definition read_failure_is_returned (P : Parameters)
    (nir : NamespacedIngressReflector) (name : string) (srv : apiServer) : Prop :=
  ∀ e, localIngresses nir name = inr e → e ≠ ErrNotFound →
    ∃ e', outcome (Handle P nir name srv) = Returned (Some e')
          ∧ classify e' = Transient.

End Exposition.

(** ** LAN/WAN discovery of foreign clusters *)

Module Discovery.

(** A TXT record answered by a discovered cluster. *)
Record TxtData : Type := mkTxtData {
  ID : string;
  Name : string;
  Namespace : string;
  ApiUrl : string
}.

(** [v1alpha1.DiscoveryType]. *)
Inductive DiscoveryType : Type :=
  | LanDiscovery
  | WanDiscovery
  | ManualDiscovery.

#[global] Instance DiscoveryType_eq_dec : EqDecision DiscoveryType.
Proof. solve_decision. Defined.

Record OwnerReference : Type := mkOwnerReference {
  APIVersion : string;
  Kind : string;
  ownerName : string;
  ownerUID : string
}.

Record ObjectReference : Type := mkObjectReference {
  refNamespace : string;
  refName : string
}.

(** [v1alpha1.SearchDomain]: the fields [UpdateForeign] reads. *)
Record SearchDomain : Type := mkSearchDomain {
  sdName : string;
  sdUID : string;
  AutoJoin : bool
}.

(** [v1alpha1.ForeignCluster], flattened: object metadata, spec
    ([Spec.ClusterIdentity], [Spec.Namespace], ...) and status
    ([Status.Ttl], [Status.Outgoing.CaDataRef],
    [Status.Outgoing.Advertisement]). [Status.Ttl] is an integer of the
    Go type the API package declares it with, held as the number it
    stands for. *)
Record ForeignCluster : Type := mkForeignCluster {
  fcName : string;
  Labels : gmap string string;
  OwnerReferences : list OwnerReference;
  ClusterID : string;
  ClusterName : string;
  SpecNamespace : string;
  SpecApiUrl : string;
  SpecDiscoveryType : DiscoveryType;
  Join : bool;
  Ttl : Z;
  CaDataRef : option ObjectReference;
  Advertisement : option ObjectReference
}.

Definition setEndpoint (apiUrl namespace : string) (dt : DiscoveryType)
    (fc : ForeignCluster) : ForeignCluster :=
  mkForeignCluster (fcName fc) (Labels fc) (OwnerReferences fc) (ClusterID fc)
    (ClusterName fc) namespace apiUrl dt (Join fc) (Ttl fc) (CaDataRef fc)
    (Advertisement fc).

Definition setJoin (j : bool) (fc : ForeignCluster) : ForeignCluster :=
  mkForeignCluster (fcName fc) (Labels fc) (OwnerReferences fc) (ClusterID fc)
    (ClusterName fc) (SpecNamespace fc) (SpecApiUrl fc) (SpecDiscoveryType fc)
    j (Ttl fc) (CaDataRef fc) (Advertisement fc).

Definition setOwnerReferences (o : list OwnerReference) (fc : ForeignCluster)
    : ForeignCluster :=
  mkForeignCluster (fcName fc) (Labels fc) o (ClusterID fc)
    (ClusterName fc) (SpecNamespace fc) (SpecApiUrl fc) (SpecDiscoveryType fc)
    (Join fc) (Ttl fc) (CaDataRef fc) (Advertisement fc).

Definition setTtl (ttl : Z) (fc : ForeignCluster) : ForeignCluster :=
  mkForeignCluster (fcName fc) (Labels fc) (OwnerReferences fc) (ClusterID fc)
    (ClusterName fc) (SpecNamespace fc) (SpecApiUrl fc) (SpecDiscoveryType fc)
    (Join fc) ttl (CaDataRef fc) (Advertisement fc).

Definition setCaDataRef (r : option ObjectReference) (fc : ForeignCluster)
    : ForeignCluster :=
  mkForeignCluster (fcName fc) (Labels fc) (OwnerReferences fc) (ClusterID fc)
    (ClusterName fc) (SpecNamespace fc) (SpecApiUrl fc) (SpecDiscoveryType fc)
    (Join fc) (Ttl fc) r (Advertisement fc).

Definition setAdvertisement (a : option ObjectReference) (fc : ForeignCluster)
    : ForeignCluster :=
  mkForeignCluster (fcName fc) (Labels fc) (OwnerReferences fc) (ClusterID fc)
    (ClusterName fc) (SpecNamespace fc) (SpecApiUrl fc) (SpecDiscoveryType fc)
    (Join fc) (Ttl fc) (CaDataRef fc) a.

(** The requests the controller sends through [crdClient], the core client
    and [advClient]. *)
Inductive request : Type :=
  | ReqList (selector : string * string)
  | ReqCreate (fc : ForeignCluster)
  | ReqUpdate (name : string) (fc : ForeignCluster)
  | ReqDelete (name : string)
  | ReqDeleteSecret (namespace name : string)
  | ReqDeleteAdvertisement (name : string).

(** The local API server as the controller sees it: the stored
    ForeignClusters in listing order, the secrets and advertisements, the
    requests received so far, and for each coming request whether it fails
    (an empty list: none fails). *)
Record cluster : Type := mkCluster {
  foreignclusters : list ForeignCluster;
  secrets : list (string * string);
  advertisements : list string;
  requests : list request;
  faults : list bool
}.

(** A request reaches the server: it is recorded, and the next fault flag
    tells whether it fails. *)
Definition call (r : request) (c : cluster) : bool * cluster :=
  (match faults c with
   | b :: _ => b
   | [] => false
   end,
   mkCluster (foreignclusters c) (secrets c) (advertisements c)
     (requests c ++ [r]) (tail (faults c))).

Definition setForeignclusters (l : list ForeignCluster) (c : cluster) : cluster :=
  mkCluster l (secrets c) (advertisements c) (requests c) (faults c).

Definition hasName (name : string) (fc : ForeignCluster) : bool :=
  bool_decide (fcName fc = name).

Definition matches (selector : string * string) (fc : ForeignCluster) : bool :=
  bool_decide (Labels fc !! selector.1 = Some selector.2).

(** [crdClient.Resource("foreignclusters").List] with a label selector
    [key=value]. *)
Definition List (selector : string * string) (c : cluster)
    : (list ForeignCluster + error) * cluster :=
  let (bad, c) := call (ReqList selector) c in
  if bad then (inr ErrUnavailable, c)
  else (inl (filter (λ fc, matches selector fc = true) (foreignclusters c)), c).

(** [crdClient.Resource("foreignclusters").Create]. *)
Definition Create (fc : ForeignCluster) (c : cluster)
    : (ForeignCluster + error) * cluster :=
  let (bad, c) := call (ReqCreate fc) c in
  if bad then (inr ErrUnavailable, c)
  else if existsb (hasName (fcName fc)) (foreignclusters c) then
    (inr ErrAlreadyExists, c)
  else (inl fc, setForeignclusters (foreignclusters c ++ [fc]) c).

(** [crdClient.Resource("foreignclusters").Update]. *)
Definition Update (name : string) (fc : ForeignCluster) (c : cluster)
    : (ForeignCluster + error) * cluster :=
  let (bad, c) := call (ReqUpdate name fc) c in
  if bad then (inr ErrUnavailable, c)
  else if negb (bool_decide (fcName fc = name)) then
    (inr (ErrInvalid "name mismatch"), c)
  else if existsb (hasName name) (foreignclusters c) then
    (inl fc,
     setForeignclusters
       ((λ old, if hasName name old then fc else old) <$> foreignclusters c) c)
  else (inr ErrNotFound, c).

(** [crdClient.Resource("foreignclusters").Delete]. *)
Definition Delete (name : string) (c : cluster) : option error * cluster :=
  let (bad, c) := call (ReqDelete name) c in
  if bad then (Some ErrUnavailable, c)
  else if existsb (hasName name) (foreignclusters c) then
    (None,
     setForeignclusters
       (filter (λ old, hasName name old = false) (foreignclusters c)) c)
  else (Some ErrNotFound, c).

(** [crdClient.Client().CoreV1().Secrets(namespace).Delete]. *)
Definition DeleteSecret (namespace name : string) (c : cluster)
    : option error * cluster :=
  let (bad, c) := call (ReqDeleteSecret namespace name) c in
  if bad then (Some ErrUnavailable, c)
  else if bool_decide ((namespace, name) ∈ secrets c) then
    (None,
     mkCluster (foreignclusters c)
       (filter (λ s, s ≠ (namespace, name)) (secrets c))
       (advertisements c) (requests c) (faults c))
  else (Some ErrNotFound, c).

(** [advClient.Resource("advertisements").Delete]. *)
Definition DeleteAdvertisement (name : string) (c : cluster)
    : option error * cluster :=
  let (bad, c) := call (ReqDeleteAdvertisement name) c in
  if bad then (Some ErrUnavailable, c)
  else if bool_decide (name ∈ advertisements c) then
    (None,
     mkCluster (foreignclusters c) (secrets c)
       (filter (λ a, a ≠ name) (advertisements c)) (requests c) (faults c))
  else (Some ErrNotFound, c).

(** [DiscoveryCtrl]: [ClusterId] is what [ClusterId.GetClusterID()]
    answers. *)
Record DiscoveryCtrl : Type := mkDiscoveryCtrl {
  ClusterId : string
}.

(** A Go integer type: signed or not, and its number of bits. Arithmetic
    on it wraps around: [wrapInt] is the value of the type that a result
    [z] comes out as. *)
Record intType : Type := mkIntType {
  signed : bool;
  bits : Z
}.

Definition wrapInt (t : intType) (z : Z) : Z :=
  if signed t then
    ((z + 2 ^ (bits t - 1)) `mod` 2 ^ bits t - 2 ^ (bits t - 1))%Z
  else (z `mod` 2 ^ bits t)%Z.

(** Go's [int] on a 64-bit platform, and [uint32]. *)
Definition goInt : intType := {| signed := true; bits := 64 |}.

Definition goUint32 : intType := {| signed := false; bits := 32 |}.

Section Controller.

(** The declaration of [Status.Ttl] belongs to the API package, which is not
    among the files embedded here: the integer type of the field is a
    parameter. *)
Variable TtlType : intType.

(** [ForeignCluster.HasHigherPriority] belongs to the API package, which is
    not among the files embedded here: a parameter. *)
Variable HasHigherPriority : ForeignCluster → DiscoveryType → bool.

Variable discovery : DiscoveryCtrl.

(** [DiscoveryCtrl.GetForeignClusterByID]. *)
Definition GetForeignClusterByID (clusterID : string) (c : cluster)
    : (ForeignCluster + error) * cluster :=
  match List ("cluster-id", clusterID) c with
  | (inr err, c) => (inr err, c)
  | (inl [], c) => (inr ErrNotFound, c)
  | (inl (fc :: _), c) => (inl fc, c)
  end.

(** [DiscoveryCtrl.createForeign]. *)
Definition createForeign (txtData : TxtData) (sd : option SearchDomain)
    (discoveryType : DiscoveryType) (c : cluster)
    : (ForeignCluster + error) * cluster :=
  let fc :=
    {| fcName := ID txtData;
       Labels := ∅;
       OwnerReferences := [];
       ClusterID := ID txtData;
       ClusterName := Name txtData;
       SpecNamespace := Namespace txtData;
       SpecApiUrl := ApiUrl txtData;
       SpecDiscoveryType := discoveryType;
       Join := false;
       Ttl := 0;
       CaDataRef := None;
       Advertisement := None |} in
  let fc :=
    match sd with
    | Some s =>
        setOwnerReferences
          [ {| APIVersion := "discovery.liqo.io/v1alpha1";
               Kind := "SearchDomain";
               ownerName := sdName s;
               ownerUID := sdUID s |} ]
          (setJoin (AutoJoin s) fc)
    | None => fc
    end in
  let fc :=
    if bool_decide (discoveryType = LanDiscovery) then setTtl 3 fc else fc in
  match Create fc c with
  | (inr err, c) => (inr err, c)
  | (inl fc, c) => (inl fc, c)
  end.

(** [DiscoveryCtrl.CheckUpdate]. *)
Definition CheckUpdate (txtData : TxtData) (fc : ForeignCluster)
    (discoveryType : DiscoveryType) (searchDomain : option SearchDomain)
    (c : cluster) : (ForeignCluster + error) * cluster :=
  if negb (bool_decide (SpecApiUrl fc = ApiUrl txtData))
     || negb (bool_decide (SpecNamespace fc = Namespace txtData))
     || HasHigherPriority fc discoveryType
  then
    let fc := setEndpoint (ApiUrl txtData) (Namespace txtData) discoveryType fc in
    let fc :=
      match searchDomain with
      | Some s =>
          if bool_decide (discoveryType = WanDiscovery)
          then setJoin (AutoJoin s) fc else fc
      | None => fc
      end in
    match
      match CaDataRef fc with
      | Some r => DeleteSecret (refNamespace r) (refName r) c
      | None => (None, c)
      end
    with
    | (Some err, c) => (inr err, c)
    | (None, c) =>
        let fc := setCaDataRef None fc in
        match Update (fcName fc) fc c with
        | (inr err, c) => (inr err, c)
        | (inl fc, c) =>
            match Advertisement fc with
            | Some adv =>
                let advName := refName adv in
                let fc := setAdvertisement None fc in
                match Update (fcName fc) fc c with
                | (inr err, c) => (inr err, c)
                | (inl fc, c) =>
                    match DeleteAdvertisement advName c with
                    | (Some err, c) => (inr err, c)
                    | (None, c) => (inl fc, c)
                    end
                end
            | None => (inl fc, c)
            end
        end
    end
  else (inl fc, c).

(** The inner loop of [UpdateTtl] over the TXT records, for one listed
    ForeignCluster: whether a record was found, the local copy [fc], and the
    server. A failed update continues with the next record; everything else
    breaks out of the loop. *)
Fixpoint ttlScan (txts : list TxtData) (fc : ForeignCluster) (c : cluster)
    : bool * ForeignCluster * cluster :=
  match txts with
  | [] => (false, fc, c)
  | txt :: rest =>
      if bool_decide (ID txt = ClusterID fc) then
        if negb (bool_decide (Ttl fc = 3%Z)) then
          let fc := setTtl 3 fc in
          match Update (fcName fc) fc c with
          | (inr _, c) =>
              let '(_, fc, c) := ttlScan rest fc c in (true, fc, c)
          | (inl _, c) => (true, fc, c)
          end
        else (true, fc, c)
      else ttlScan rest fc c
  end.

(** The outer loop of [UpdateTtl] over the listed ForeignClusters;
    [fc.Status.Ttl -= 1] wraps around in the type of the field. *)
Fixpoint ttlItems (txts : list TxtData) (items : list ForeignCluster)
    (c : cluster) : cluster :=
  match items with
  | [] => c
  | fc :: rest =>
      let '(found, fc, c) := ttlScan txts fc c in
      let c :=
        if found then c
        else
          let fc := setTtl (wrapInt TtlType (Ttl fc - 1)) fc in
          if bool_decide (Ttl fc ≤ 0)%Z then (Delete (fcName fc) c).2
          else (Update (fcName fc) fc c).2 in
      ttlItems txts rest c
  end.

(** [DiscoveryCtrl.UpdateTtl]. *)
Definition UpdateTtl (txts : list TxtData) (c : cluster) : option error * cluster :=
  match List ("discovery-type", "LAN") c with
  | (inr err, c) => (Some err, c)
  | (inl items, c) => (None, ttlItems txts items c)
  end.

(** The loop of [UpdateForeign] over the TXT records; [acc] is
    [createdUpdatedForeign]. *)
Fixpoint discover (sd : option SearchDomain) (discoveryType : DiscoveryType)
    (data : list TxtData) (acc : list ForeignCluster) (c : cluster)
    : list ForeignCluster * cluster :=
  match data with
  | [] => (acc, c)
  | txtData :: rest =>
      if bool_decide (ID txtData = ClusterId discovery) then
        (* is local cluster *)
        discover sd discoveryType rest acc c
      else
        match GetForeignClusterByID (ID txtData) c with
        | (inr err, c) =>
            if IsNotFound (Some err) then
              match createForeign txtData sd discoveryType c with
              | (inr _, c) => discover sd discoveryType rest acc c
              | (inl fc, c) => discover sd discoveryType rest (acc ++ [fc]) c
              end
            else discover sd discoveryType rest acc c
        | (inl fc, c) =>
            match CheckUpdate txtData fc discoveryType sd c with
            | (inr _, c) => discover sd discoveryType rest acc c
            | (inl fc, c) => discover sd discoveryType rest (acc ++ [fc]) c
            end
        end
  end.

(** [DiscoveryCtrl.UpdateForeign]. *)
Definition UpdateForeign (data : list TxtData) (sd : option SearchDomain)
    (c : cluster) : list ForeignCluster * cluster :=
  let discoveryType :=
    match sd with
    | None => LanDiscovery
    | Some _ => WanDiscovery
    end in
  let '(createdUpdatedForeign, c) := discover sd discoveryType data [] c in
  let c :=
    if bool_decide (discoveryType = LanDiscovery) then (UpdateTtl data c).2
    else c in
  (createdUpdatedForeign, c).

End Controller.

(** A request that creates or updates a ForeignCluster of cluster [id]. *)
Definition touches (id : string) (r : request) : bool :=
  match r with
  | ReqCreate fc => bool_decide (ClusterID fc = id)
  | ReqUpdate _ fc => bool_decide (ClusterID fc = id)
  | _ => false
  end.

(** The requests [UpdateForeign] sent: those the server received after the
    ones it had received before. *)
Definition sent (before after : cluster) : list request :=
  drop (length (requests before)) (requests after).

(** The statement that [UpdateForeign] neither creates nor updates a
    ForeignCluster of the local cluster, and returns none. *)
Definition never_touches_local (TtlType : intType)
    (HasHigherPriority : ForeignCluster → DiscoveryType → bool)
    (discovery : DiscoveryCtrl) (data : list TxtData)
    (sd : option SearchDomain) (c : cluster) : Prop :=
  let result := UpdateForeign TtlType HasHigherPriority discovery data sd c in
  Forall (λ r, touches (ClusterId discovery) r = false) (sent c result.2)
  ∧ Forall (λ fc, ClusterID fc ≠ ClusterId discovery) result.1.

(** No stored ForeignCluster is one of cluster [id]. *)
Definition foreignOnly (id : string) (c : cluster) : Prop :=
  Forall (λ fc, ClusterID fc ≠ id) (foreignclusters c).

(** A request that does not create or update a ForeignCluster of cluster
    [id]; a ForeignCluster of another cluster than [id]. *)
Definition clean (id : string) (r : request) : Prop := touches id r = false.

Definition foreign (id : string) (fc : ForeignCluster) : Prop := ClusterID fc ≠ id.

(** [safely id c c']: from [c] the server went to [c'] receiving clean
    requests only, and it holds no ForeignCluster of cluster [id]. *)
Definition safely (id : string) (c c' : cluster) : Prop :=
  foreignOnly id c'
  ∧ ∃ new, requests c' = (requests c ++ new)%list ∧ Forall (clean id) new.

(** *** A concrete setting, to run the definitions on *)

Definition exampleController : DiscoveryCtrl := {| ClusterId := "cluster-local" |}.

Definition examplePriority (fc : ForeignCluster) (dt : DiscoveryType) : bool :=
  bool_decide (SpecDiscoveryType fc = LanDiscovery ∧ dt = WanDiscovery).

Definition localTxt : TxtData :=
  {| ID := "cluster-local"; Name := "home"; Namespace := "liqo";
     ApiUrl := "https://10.0.0.1:6443" |}.

Definition peerTxt : TxtData :=
  {| ID := "cluster-peer"; Name := "peer"; Namespace := "liqo";
     ApiUrl := "https://10.0.0.2:6443" |}.

(** A ForeignCluster of cluster [id], discovered on the LAN, with TTL
    [ttl]. *)
Definition lanCluster (name id : string) (ttl : Z) : ForeignCluster :=
  {| fcName := name;
     Labels := {[ "cluster-id" := id; "discovery-type" := "LAN" ]};
     OwnerReferences := [];
     ClusterID := id;
     ClusterName := name;
     SpecNamespace := "liqo";
     SpecApiUrl := "https://10.0.0.9:6443";
     SpecDiscoveryType := LanDiscovery;
     Join := false;
     Ttl := ttl;
     CaDataRef := None;
     Advertisement := None |}.

Definition exampleCluster (fcs : list ForeignCluster) : cluster :=
  {| foreignclusters := fcs;
     secrets := [];
     advertisements := [];
     requests := [];
     faults := [] |}.

(** *** Reading the TTL pass *)

(** One of the TXT records comes from the cluster of [fc]. *)
Definition answered (txts : list TxtData) (fc : ForeignCluster) : bool :=
  bool_decide (ClusterID fc ∈ ID <$> txts).

(** The TTL of a ForeignCluster after [fc.Status.Ttl -= 1] in the integer
    type [t] of the field: one less, or the other end of the type when the
    TTL was its least value. *)
Definition decremented (t : intType) (fc : ForeignCluster) : Z :=
  wrapInt t (Ttl fc - 1).

(** The one request the TTL pass sends for a listed ForeignCluster, if any:
    a refresh when its cluster answered with a TTL other than 3, a delete
    when it did not answer and its decremented TTL is 0 or below, an update
    to the decremented TTL otherwise. *)
Definition ttlRequest (t : intType) (txts : list TxtData) (fc : ForeignCluster)
    : option request :=
  if answered txts fc then
    if bool_decide (Ttl fc = 3%Z) then None
    else Some (ReqUpdate (fcName fc) (setTtl 3 fc))
  else if bool_decide (decremented t fc ≤ 0)%Z then Some (ReqDelete (fcName fc))
  else Some (ReqUpdate (fcName fc) (setTtl (decremented t fc) fc)).

(** Sending such a request. *)
Definition perform (r : option request) (c : cluster) : cluster :=
  match r with
  | Some (ReqUpdate name fc) => (Update name fc c).2
  | Some (ReqDelete name) => (Delete name c).2
  | _ => c
  end.

(** What becomes of a ForeignCluster discovered on the LAN after one TTL
    pass, and of any stored ForeignCluster. *)
Definition aged (t : intType) (txts : list TxtData) (fc : ForeignCluster)
    : option ForeignCluster :=
  if answered txts fc then Some (setTtl 3 fc)
  else if bool_decide (decremented t fc ≤ 0)%Z then None
  else Some (setTtl (decremented t fc) fc).

Definition afterTtl (t : intType) (txts : list TxtData) (fc : ForeignCluster)
    : option ForeignCluster :=
  if matches ("discovery-type", "LAN") fc then aged t txts fc else Some fc.

(** What a request does to one stored ForeignCluster when it does not
    fail. *)
Definition effect (r : option request) (old : ForeignCluster)
    : option ForeignCluster :=
  match r with
  | Some (ReqUpdate name fc) =>
      if bool_decide (fcName fc = name) && hasName name old
      then Some fc else Some old
  | Some (ReqDelete name) => if hasName name old then None else Some old
  | _ => Some old
  end.

(** The names of the stored ForeignClusters, in listing order. *)
Definition names (c : cluster) : list string := fcName <$> foreignclusters c.

(** The records of other clusters than the local one. *)
Definition remoteRecords (discovery : DiscoveryCtrl) (data : list TxtData)
    : list TxtData :=
  filter (λ txt, ID txt ≠ ClusterId discovery) data.

(** A request that deletes a ForeignCluster. *)
Definition isDelete (r : request) : bool :=
  match r with
  | ReqDelete _ => true
  | _ => false
  end.

(** Only the TTL of [fc] may differ from that of [old]. *)
Definition sameButTtl (old fc : ForeignCluster) : Prop := setTtl (Ttl old) fc = old.

(** A server with two ForeignClusters found on the LAN and one added by
    hand. *)
Definition manualCluster (name id : string) : ForeignCluster :=
  {| fcName := name;
     Labels := {[ "cluster-id" := id ]};
     OwnerReferences := [];
     ClusterID := id;
     ClusterName := name;
     SpecNamespace := "liqo";
     SpecApiUrl := "https://10.0.0.7:6443";
     SpecDiscoveryType := ManualDiscovery;
     Join := true;
     Ttl := 0;
     CaDataRef := None;
     Advertisement := None |}.

Definition threeClusters : cluster :=
  exampleCluster
    [lanCluster "peer" "cluster-peer" 1; lanCluster "gone" "cluster-gone" 1;
     manualCluster "office" "cluster-office"].

Definition exampleSearchDomain : SearchDomain :=
  {| sdName := "example.com"; sdUID := "sd-1"; AutoJoin := true |}.

(** A peered ForeignCluster with its CA secret and its advertisement, and a
    server that holds them. *)
Definition peeredCluster : ForeignCluster :=
  setAdvertisement (Some {| refNamespace := ""; refName := "adv-peer" |})
    (setCaDataRef (Some {| refNamespace := "liqo"; refName := "ca-peer" |})
       (lanCluster "peer" "cluster-peer" 3)).

Definition peeredServer : cluster :=
  {| foreignclusters := [peeredCluster];
     secrets := [("liqo", "ca-peer")];
     advertisements := ["adv-peer"];
     requests := [];
     faults := [] |}.

(** The three ForeignClusters behind a server that cannot be reached. *)
Definition unreachableServer : cluster :=
  {| foreignclusters := foreignclusters threeClusters;
     secrets := [];
     advertisements := [];
     requests := [];
     faults := replicate 3 true |}.

End Discovery.

(** ** liqoctl add cluster *)

Module Add.

(** [ClusterArgs] (handler.go, lines 38-45). *)
Record ClusterArgs : Type := mkClusterArgs {
  ClusterName : string;
  ClusterToken : string;
  ClusterAuthURL : string;
  ClusterID : string;
  Namespace : string
}.

(** [discoveryv1alpha1.PeeringEnabledType], a string type: the empty string
    and its three constants. *)
Inductive PeeringEnabledType : Type :=
  | PeeringEnabledEmpty
  | PeeringEnabledAuto
  | PeeringEnabledNo
  | PeeringEnabledYes.

#[global] Instance PeeringEnabledType_eq_dec : EqDecision PeeringEnabledType.
Proof. solve_decision. Defined.

(** [discoveryv1alpha1.ForeignCluster]: the fields [enforceForeignCluster]
    touches, named after their Go paths. *)
Record ForeignCluster : Type := mkForeignCluster {
  Name : string;
  Labels : gmap string string;
  Spec_ClusterIdentity_ClusterID : string;
  Spec_ClusterIdentity_ClusterName : string;
  Spec_ForeignAuthURL : string;
  Spec_OutgoingPeeringEnabled : PeeringEnabledType;
  Spec_IncomingPeeringEnabled : PeeringEnabledType;
  Spec_InsecureSkipTLSVerify : option bool
}.

#[global] Instance ForeignCluster_eq_dec : EqDecision ForeignCluster.
Proof. solve_decision. Defined.

(** The API server behind [client.Client]: the ForeignClusters by name (the
    kind is cluster-scoped), and for each coming request whether it fails. *)
Record client : Type := mkClient {
  objects : gmap string ForeignCluster;
  faults : list bool
}.

Definition call (cl : client) : bool * client :=
  (match faults cl with
   | b :: _ => b
   | [] => false
   end,
   mkClient (objects cl) (tail (faults cl))).

(** [client.Get]. *)
Definition Get (key : string) (cl : client) : (ForeignCluster + error) * client :=
  let (bad, cl) := call cl in
  if bad then (inr ErrUnavailable, cl)
  else
    match objects cl !! key with
    | Some obj => (inl obj, cl)
    | None => (inr ErrNotFound, cl)
    end.

(** [client.Create]; an object needs a name. *)
Definition Create (obj : ForeignCluster) (cl : client) : option error * client :=
  let (bad, cl) := call cl in
  if bad then (Some ErrUnavailable, cl)
  else if bool_decide (Name obj = "") then (Some (ErrInvalid "name required"), cl)
  else
    match objects cl !! Name obj with
    | Some _ => (Some ErrAlreadyExists, cl)
    | None => (None, mkClient (<[Name obj := obj]> (objects cl)) (faults cl))
    end.

(** [client.Update]. *)
Definition Update (obj : ForeignCluster) (cl : client) : option error * client :=
  let (bad, cl) := call cl in
  if bad then (Some ErrUnavailable, cl)
  else
    match objects cl !! Name obj with
    | Some _ => (None, mkClient (<[Name obj := obj]> (objects cl)) (faults cl))
    | None => (Some ErrNotFound, cl)
    end.

(** [controllerutil.OperationResult]. *)
Inductive OperationResult : Type :=
  | OperationResultNone
  | OperationResultCreated
  | OperationResultUpdated.

(** [controllerutil.mutate]: runs the mutate function on the object and
    refuses a changed key. *)
Definition mutate (f : ForeignCluster → ForeignCluster) (key : string)
    (obj : ForeignCluster) : ForeignCluster + error :=
  let obj := f obj in
  if bool_decide (Name obj = key) then inl obj
  else inr (ErrInvalid "MutateFn cannot mutate object name and/or object namespace").

(** [controllerutil.CreateOrUpdate]: fetches the object under the key of
    [obj] into [obj]; when there is none, mutates [obj] and creates it;
    otherwise mutates the fetched object and updates it unless the mutation
    left it as it was. *)
Definition CreateOrUpdate (cl : client) (obj : ForeignCluster)
    (f : ForeignCluster → ForeignCluster)
    : OperationResult * option error * client :=
  let key := Name obj in
  match Get key cl with
  | (inr err, cl) =>
      if negb (IsNotFound (Some err)) then (OperationResultNone, Some err, cl)
      else
        match mutate f key obj with
        | inr err => (OperationResultNone, Some err, cl)
        | inl obj =>
            match Create obj cl with
            | (Some err, cl) => (OperationResultNone, Some err, cl)
            | (None, cl) => (OperationResultCreated, None, cl)
            end
        end
  | (inl existing, cl) =>
      match mutate f key existing with
      | inr err => (OperationResultNone, Some err, cl)
      | inl obj =>
          if bool_decide (existing = obj) then (OperationResultNone, None, cl)
          else
            match Update obj cl with
            | (Some err, cl) => (OperationResultNone, Some err, cl)
            | (None, cl) => (OperationResultUpdated, None, cl)
            end
      end
  end.

Section Handler.

(** [discovery.ClusterIDLabel] and [foreigncluster.GetForeignClusterByID]
    are not among the files embedded here: parameters. The lookup reads the
    stored ForeignClusters. *)
Variable ClusterIDLabel : string.
Variable GetForeignClusterByID :
  gmap string ForeignCluster → string → ForeignCluster + error.

(** The function literal passed to [CreateOrUpdate] (handler.go, lines
    132-147), as a function of the object [fc] points to. *)
Definition enforce (t : ClusterArgs) (fc : ForeignCluster) : ForeignCluster :=
  {| Name := Name fc;
     Labels := Labels fc;
     Spec_ClusterIdentity_ClusterID := ClusterID t;
     Spec_ClusterIdentity_ClusterName :=
       if bool_decide (Spec_ClusterIdentity_ClusterName fc = "")
       then ClusterName t else Spec_ClusterIdentity_ClusterName fc;
     Spec_ForeignAuthURL := ClusterAuthURL t;
     Spec_OutgoingPeeringEnabled := PeeringEnabledYes;
     Spec_IncomingPeeringEnabled :=
       if bool_decide (Spec_IncomingPeeringEnabled fc = PeeringEnabledEmpty)
       then PeeringEnabledAuto else Spec_IncomingPeeringEnabled fc;
     Spec_InsecureSkipTLSVerify :=
       match Spec_InsecureSkipTLSVerify fc with
       | None => Some true
       | Some b => Some b
       end |}.

(** The ForeignCluster [enforceForeignCluster] hands to [CreateOrUpdate]:
    the one the lookup found, a fresh one named after the cluster when the
    lookup found none, or the lookup's error. *)
Definition lookup (cl : client) (t : ClusterArgs) : ForeignCluster + error :=
  match GetForeignClusterByID (objects cl) (ClusterID t) with
  | inl fc => inl fc
  | inr err =>
      if IsNotFound (Some err) then
        inl {| Name := ClusterName t;
               Labels := {[ ClusterIDLabel := ClusterID t ]};
               Spec_ClusterIdentity_ClusterID := "";
               Spec_ClusterIdentity_ClusterName := "";
               Spec_ForeignAuthURL := "";
               Spec_OutgoingPeeringEnabled := PeeringEnabledEmpty;
               Spec_IncomingPeeringEnabled := PeeringEnabledEmpty;
               Spec_InsecureSkipTLSVerify := None |}
      else inr err
  end.

(** [enforceForeignCluster] (handler.go, lines 122-149). *)
Definition enforceForeignCluster (cl : client) (t : ClusterArgs)
    : option error * client :=
  match lookup cl t with
  | inr err => (Some err, cl)
  | inl fc =>
      let '(_, err, cl) := CreateOrUpdate cl fc (enforce t) in
      (err, cl)
  end.

End Handler.

(** *** A concrete setting, to run the definitions on *)

Definition exampleLabel : string := "discovery.liqo.io/cluster-id".

(** A lookup by the cluster-ID label over the stored ForeignClusters. *)
Definition exampleLookup (stored : gmap string ForeignCluster) (id : string)
    : ForeignCluster + error :=
  match filter (λ kv, Labels kv.2 !! exampleLabel = Some id) (map_to_list stored) with
  | (_, fc) :: _ => inl fc
  | [] => inr ErrNotFound
  end.

Definition exampleArgs : ClusterArgs :=
  {| ClusterName := "milan";
     ClusterToken := "token";
     ClusterAuthURL := "https://auth.example.com";
     ClusterID := "cluster-peer";
     Namespace := "liqo" |}.

(** A ForeignCluster of the peer, discovered earlier under another name. *)
Definition discoveredPeer : ForeignCluster :=
  {| Name := "peer-7f3a";
     Labels := {[ exampleLabel := "cluster-peer" ]};
     Spec_ClusterIdentity_ClusterID := "cluster-peer";
     Spec_ClusterIdentity_ClusterName := "turin";
     Spec_ForeignAuthURL := "https://old.example.com";
     Spec_OutgoingPeeringEnabled := PeeringEnabledNo;
     Spec_IncomingPeeringEnabled := PeeringEnabledEmpty;
     Spec_InsecureSkipTLSVerify := None |}.

Definition exampleClient : client :=
  {| objects := {[ "peer-7f3a" := discoveredPeer ]}; faults := [] |}.

(** *** The caller of [enforceForeignCluster] *)

(** [discoveryv1alpha1.ClusterIdentity]. *)
Record ClusterIdentity : Type := mkClusterIdentity {
  identityClusterID : string;
  identityClusterName : string
}.

Section Process.

Variable ClusterIDLabel : string.
Variable GetForeignClusterByID :
  gmap string ForeignCluster → string → ForeignCluster + error.

(** [authenticationtokenutils.StoreInSecret],
    [utils.GetClusterIdentityWithControllerClient] and the message
    [sameClusterError] are not among the files embedded here: parameters.
    The first writes a secret, the second reads a config map, neither of
    which is a ForeignCluster: only their results enter. *)
Variable StoreInSecret : string → string → string → option error.
Variable GetClusterIdentityWithControllerClient : string → ClusterIdentity + error.
Variable sameClusterError : string.

(** [processAddCluster] (handler.go, lines 99-120). *)
Definition processAddCluster (cl : client) (t : ClusterArgs)
    : option error * client :=
  match StoreInSecret (ClusterID t) (ClusterToken t) (Namespace t) with
  | Some err => (Some err, cl)
  | None =>
      match GetClusterIdentityWithControllerClient (Namespace t) with
      | inr err => (Some err, cl)
      | inl clusterIdentity =>
          if bool_decide (identityClusterID clusterIdentity = ClusterID t)
          then (Some (ErrInvalid sameClusterError), cl)
          else enforceForeignCluster ClusterIDLabel GetForeignClusterByID cl t
      end
  end.

End Process.



Definition emptyClient : client := {| objects := ∅; faults := [] |}.


(** A local cluster whose token store and identity lookup succeed. *)
Definition exampleStoreInSecret (id token namespace : string) : option error :=
  None.

Definition exampleIdentity (namespace : string) : ClusterIdentity + error :=
  inl {| identityClusterID := "cluster-local"; identityClusterName := "rome" |}.

(** Arguments that name the local cluster itself. *)
Definition localArgs : ClusterArgs :=
  {| ClusterName := "rome";
     ClusterToken := "token";
     ClusterAuthURL := "https://auth.example.com";
     ClusterID := "cluster-local";
     Namespace := "liqo" |}.
End Add.

(** * Package provider: the arguments common to the install providers

    pkg/liqoctl/install/provider/args.go. *)

Module Provider.

(** The errors of this package's callees: the two of pflag's typed getters,
    and what [cloneRepo] or [Percentage.Set] report. *)
Inductive error : Type :=
  | ErrNotDefined (name : string)
  | ErrWrongType (wanted found : string)
  | ErrExternal (msg : string).

#[global] Instance error_eq_dec : EqDecision error.
Proof. solve_decision. Defined.

(** *** github.com/spf13/pflag *)

(** The values a flag holds, for the three types read here; a Go [int] is
    an integer of 64 bits. *)
Inductive flagValue : Type :=
  | StringValue (s : string)
  | BoolValue (b : bool)
  | IntValue (i : Z).

(** [Value.Type()]. *)
Definition Type_ (v : flagValue) : string :=
  match v with
  | StringValue _ => "string"
  | BoolValue _ => "bool"
  | IntValue _ => "int"
  end.

(** [pflag.Flag]: its value and whether the user set it. *)
Record Flag : Type := mkFlag {
  Value : flagValue;
  FlagChanged : bool
}.

(** [FlagSet.GetString]: the flag must be defined and of type string. *)
Definition GetString (flags : gmap string Flag) (name : string) : string + error :=
  match flags !! name with
  | None => inr (ErrNotDefined name)
  | Some flag =>
      match Value flag with
      | StringValue s => inl s
      | v => inr (ErrWrongType "string" (Type_ v))
      end
  end.

(** [FlagSet.GetBool]. *)
Definition GetBool (flags : gmap string Flag) (name : string) : bool + error :=
  match flags !! name with
  | None => inr (ErrNotDefined name)
  | Some flag =>
      match Value flag with
      | BoolValue b => inl b
      | v => inr (ErrWrongType "bool" (Type_ v))
      end
  end.

(** [FlagSet.GetInt]. *)
Definition GetInt (flags : gmap string Flag) (name : string) : Z + error :=
  match flags !! name with
  | None => inr (ErrNotDefined name)
  | Some flag =>
      match Value flag with
      | IntValue i => inl i
      | v => inr (ErrWrongType "int" (Type_ v))
      end
  end.

(** [FlagSet.Changed]: false for a flag that is not defined. *)
Definition Changed (flags : gmap string Flag) (name : string) : bool :=
  match flags !! name with
  | None => false
  | Some flag => FlagChanged flag
  end.

(** *** Values and arguments *)

(** The Helm values, a [map[string]interface{}]: strings, booleans, numbers
    and nested maps. [VFloat64 i] is [float64(i)] for an integer [i]; the
    keys of a map literal are distinct, and are kept in the order of the
    source. *)
#[warnings="-register-all"]
Inductive value : Type :=
  | VString (s : string)
  | VBool (b : bool)
  | VFloat64 (i : Z)
  | VMap (m : list (string * value)).

(** The entry of a map under a key, and the value at the end of a path of
    keys. *)
Fixpoint entry (key : string) (m : list (string * value)) : option value :=
  match m with
  | [] => None
  | (k, v) :: rest => if bool_decide (k = key) then Some v else entry key rest
  end.

Fixpoint at_path (path : list string) (v : value) : option value :=
  match path with
  | [] => Some v
  | key :: rest =>
      match v with
      | VMap m =>
          match entry key m with
          | Some v => at_path rest v
          | None => None
          end
      | _ => None
      end
  end.

(** [consts.EnableLanDiscoveryParameter] (pkg/consts/parameters.go). *)
Definition EnableLanDiscoveryParameter : string := "enable-lan-discovery".

(** [time.Second], in nanoseconds, and the wrap-around of an [int64]. *)
Definition Second : Z := 1000000000.

Definition wrap64 (z : Z) : Z := ((z + 2 ^ 63) `mod` 2 ^ 64 - 2 ^ 63)%Z.

(** [CommonArguments]; [Timeout] is a [time.Duration], a number of
    nanoseconds, and [CommonValues] is [None] for a nil map. *)
Record CommonArguments : Type := mkCommonArguments {
  Version : string;
  Verbose : bool;
  Timeout : Z;
  DumpValues : bool;
  DumpValuesPath : string;
  DryRun : bool;
  CommonValues : option (list (string * value));
  Devel : bool;
  DisableEndpointCheck : bool;
  ChartPath : string;
  DownloadChart : bool;
  ChartTmpDir : string
}.

(** What the outside sees of a run: the calls of [cloneRepo] and the texts
    given to the spinner. *)
Inductive event : Type :=
  | CloneRepo (repoURL version : string)
  | UpdateText (text : string).

#[global] Instance event_eq_dec : EqDecision event.
Proof. solve_decision. Defined.

(** Go's [x, err := m; if err != nil { return nil, err }] in a function
    that returns a result and has logged no event yet. *)
Definition bindE {A B : Type} (m : A + error)
    (k : A → (B + error) * list event) : (B + error) * list event :=
  match m with
  | inl a => k a
  | inr err => (inr err, [])
  end.

Declare Scope go_scope.
Delimit Scope go_scope with go.
Notation "x <- m ; k" := (bindE m (λ x, k))
  (at level 20, m at level 100, k at level 200, only parsing) : go_scope.

(** The results of [parseCommonValues]: the three values returned, the
    string [chartPath] points to at the end, and the events. *)
Record parsed : Type := mkParsed {
  values : option (list (string * value));
  tmpDir : string;
  err : option error;
  pointee : string;
  events : list event
}.

Section Args.

(** [semver.IsValid] (golang.org/x/mod), [installutils.LiqoChartFullName],
    [cloneRepo] (another file of this package) and [Percentage.Set]
    (pkg/utils/args), which gives the [Val] of the percentage it parsed, are
    not among the files embedded here: parameters. *)
Variable IsValid : string → bool.
Variable LiqoChartFullName : string.
Variable cloneRepo : string → string → string + error.
Variable PercentageSet : string → Z + error.

(** [isRelease] (args.go, lines 194-196). *)
Definition isRelease (version : string) : bool :=
  bool_decide (version = "") || IsValid version.

(** [parseCommonValues] (args.go, lines 133-192); [chartPath] is [None] for
    a nil pointer. *)
Definition parseCommonValues (providerName : string) (chartPath : option string)
    (repoURL version resourceSharingPercentage : string)
    (downloadChart lanDiscovery enableHa : bool) (mtu port : Z) : parsed :=
  let chartPath := default LiqoChartFullName chartPath in
  let cloned :=
    if downloadChart then
      match cloneRepo repoURL version with
      | inr err => inr err
      | inl tmpDir =>
          inl (tmpDir, tmpDir ++ "/deployments/liqo",
               [CloneRepo repoURL version;
                UpdateText ("Using chart from " ++ tmpDir)])
      end
    else inl ("", chartPath, [])
  in
  match cloned with
  | inr err => mkParsed None "" (Some err) chartPath [CloneRepo repoURL version]
  | inl (tmpDir, chartPath, events) =>
      let tag := if bool_decide (chartPath ≠ LiqoChartFullName) then version else "" in
      match PercentageSet resourceSharingPercentage with
      | inr err => mkParsed (Some []) "" (Some err) chartPath events
      | inl resourceSharingPercentageVal =>
          let gatewayReplicas := if enableHa then 2%Z else 1%Z in
          mkParsed
            (Some
               [("tag", VString tag);
                ("discovery",
                 VMap [("config",
                        VMap [("enableDiscovery", VBool lanDiscovery);
                              ("enableAdvertisement", VBool lanDiscovery)])]);
                ("controllerManager",
                 VMap [("config",
                        VMap [("resourceSharingPercentage",
                               VFloat64 resourceSharingPercentageVal)])]);
                ("gateway",
                 VMap [("replicas", VFloat64 gatewayReplicas);
                       ("config", VMap [("listeningPort", VFloat64 port)])]);
                ("networkConfig", VMap [("mtu", VFloat64 mtu)])])
            tmpDir None chartPath events
      end
  end.

Local Open Scope go_scope.

(** [ValidateCommonArguments] (args.go, lines 49-131). *)
Definition ValidateCommonArguments (providerName : string)
    (flags : gmap string Flag) : (CommonArguments + error) * list event :=
  chartPath <- GetString flags "chart-path" ;
  repoURL <- GetString flags "repo-url" ;
  version <- GetString flags "version" ;
  let downloadChart := negb (Changed flags "chart-path") && negb (isRelease version) in
  devel <- GetBool flags "devel" ;
  verbose <- GetBool flags "verbose" ;
  timeout <- GetInt flags "timeout" ;
  dryRun <- GetBool flags "dry-run" ;
  dumpValues <- GetBool flags "only-output-values" ;
  dumpValuesPath <- GetString flags "dump-values-path" ;
  lanDiscovery <- GetBool flags EnableLanDiscoveryParameter ;
  disableEndpointCheck <- GetBool flags "disable-endpoint-check" ;
  resourceSharingPercentage <- GetString flags "resource-sharing-percentage" ;
  enableHa <- GetBool flags "enable-ha" ;
  ifaceMTU <- GetInt flags "mtu" ;
  listeningPort <- GetInt flags "vpn-listening-port" ;
  let p := parseCommonValues providerName (Some chartPath) repoURL version
             resourceSharingPercentage downloadChart lanDiscovery enableHa
             ifaceMTU listeningPort in
  match err p with
  | Some err => (inr err, events p)
  | None =>
      (inl {| Version := version;
              Verbose := verbose;
              Timeout := wrap64 (timeout * Second);
              DryRun := dryRun;
              DumpValues := dumpValues;
              DumpValuesPath := dumpValuesPath;
              CommonValues := values p;
              Devel := devel;
              DisableEndpointCheck := disableEndpointCheck;
              ChartPath := pointee p;
              DownloadChart := downloadChart;
              ChartTmpDir := tmpDir p |},
       events p)
  end.

End Args.

(** *** The flags read, in the order of the reads *)

Inductive kind : Type := KString | KBool | KInt.

Definition commonFlags : list (string * kind) :=
  [("chart-path", KString); ("repo-url", KString); ("version", KString);
   ("devel", KBool); ("verbose", KBool); ("timeout", KInt);
   ("dry-run", KBool); ("only-output-values", KBool);
   ("dump-values-path", KString); (EnableLanDiscoveryParameter, KBool);
   ("disable-endpoint-check", KBool);
   ("resource-sharing-percentage", KString); ("enable-ha", KBool);
   ("mtu", KInt); ("vpn-listening-port", KInt)].

Definition errOf {A : Type} (m : A + error) : option error :=
  match m with
  | inl _ => None
  | inr err => Some err
  end.

(** The error of the getter of a flag's kind, and the first error met when
    the flags are read in order. *)
Definition readError (flags : gmap string Flag) (flag : string * kind)
    : option error :=
  match flag.2 with
  | KString => errOf (GetString flags flag.1)
  | KBool => errOf (GetBool flags flag.1)
  | KInt => errOf (GetInt flags flag.1)
  end.

Definition firstError (flags : gmap string Flag) : option error :=
  head (omap (readError flags) commonFlags).

(** What the getters give for a flag they accept. *)
Definition stringFlag (flags : gmap string Flag) (name : string) : string :=
  match GetString flags name with
  | inl s => s
  | inr _ => ""
  end.

Definition boolFlag (flags : gmap string Flag) (name : string) : bool :=
  match GetBool flags name with
  | inl b => b
  | inr _ => false
  end.

Definition intFlag (flags : gmap string Flag) (name : string) : Z :=
  match GetInt flags name with
  | inl i => i
  | inr _ => 0%Z
  end.

(** *** An example: the flags as the install command registers them *)

Definition exampleFlags : gmap string Flag :=
  list_to_map
    [("chart-path", mkFlag (StringValue "liqo/liqo") false);
     ("repo-url", mkFlag (StringValue "https://github.com/liqotech/liqo") false);
     ("version", mkFlag (StringValue "") false);
     ("devel", mkFlag (BoolValue false) false);
     ("verbose", mkFlag (BoolValue false) false);
     ("timeout", mkFlag (IntValue 600) false);
     ("dry-run", mkFlag (BoolValue false) false);
     ("only-output-values", mkFlag (BoolValue false) false);
     ("dump-values-path", mkFlag (StringValue "./values.yaml") false);
     ("enable-lan-discovery", mkFlag (BoolValue false) false);
     ("disable-endpoint-check", mkFlag (BoolValue false) false);
     ("resource-sharing-percentage", mkFlag (StringValue "90") false);
     ("enable-ha", mkFlag (BoolValue true) false);
     ("mtu", mkFlag (IntValue 1440) false);
     ("vpn-listening-port", mkFlag (IntValue 5871) false)].

(** The same with a commit hash as the version: the chart is downloaded. *)
Definition commitFlags : gmap string Flag :=
  <["version" := mkFlag (StringValue "3f2a1bc") true]> exampleFlags.

(** The same without the flag [mtu]. *)
Definition shortFlags : gmap string Flag := delete "mtu" exampleFlags.

(** A version is valid when it starts with a [v] (character 118); a clone that lands in
    [/tmp/liqo]; a percentage that is read as 90. *)
Definition exampleIsValid (version : string) : bool :=
  match version with
  | String c _ => bool_decide (c = Ascii.ascii_of_nat 118)
  | EmptyString => false
  end.

Definition exampleCloneRepo (repoURL version : string) : string + error :=
  inl "/tmp/liqo".

Definition examplePercentageSet (s : string) : Z + error := inl 90%Z.

(** A percentage that is refused. *)
Definition refusedPercentageSet (s : string) : Z + error :=
  inr (ErrExternal "invalid percentage").

(** A timeout of three hundred years, in seconds. *)
Definition longFlags : gmap string Flag :=
  <["timeout" := mkFlag (IntValue 9467280000) true]> exampleFlags.

End Provider.

(** * Properties of the ingress reflector *)

Module ExpositionTheory.

Import Exposition.

Section Reflection.

Variable P : Parameters.

(** ** The informer-cache listers *)

Lemma Ingresses_found (indexer : gmap (string * string) Ingress)
    (ns name : string) (obj : Ingress) :
  indexer !! (ns, name) = Some obj → Ingresses indexer ns name = inl obj.
Proof. intros H. unfold Ingresses. by rewrite H. Qed.

Lemma Ingresses_absent (indexer : gmap (string * string) Ingress)
    (ns name : string) :
  indexer !! (ns, name) = None → Ingresses indexer ns name = inr ErrNotFound.
Proof. intros H. unfold Ingresses. by rewrite H. Qed.

Lemma Ingresses_tolerated (indexer : gmap (string * string) Ingress)
    (ns name : string) :
  IgnoreNotFound (errOf (Ingresses indexer ns name)) = None.
Proof. unfold Ingresses. by destruct (indexer !! (ns, name)). Qed.

(** ** The translation *)

Lemma RemoteIngress_marked (l : Ingress) (ns : string) :
  acLabels (RemoteIngress P l ns) !! markerKey P = Some (markerValue P).
Proof. apply lookup_insert_eq. Qed.


Lemma declared_instantiate (m : IngressApplyConfiguration) (uid : string) :
  declared (instantiate m uid) = m.
Proof. by destruct m. Qed.

Lemma declared_merge (cur : Ingress) (m : IngressApplyConfiguration) :
  declared (merge cur m) = m.
Proof. by destruct m. Qed.

Lemma merge_declared (cur : Ingress) (m : IngressApplyConfiguration) :
  declared cur = m → merge cur m = cur.
Proof. intros <-. by destruct cur. Qed.

Lemma merge_merge (cur : Ingress) (m : IngressApplyConfiguration) :
  merge (merge cur m) m = merge cur m.
Proof. reflexivity. Qed.

(** ** The remote API server *)

(** An apply that met the declared state leaves the server as it is. *)
Lemma Apply_declared (srv : apiServer) (ns : string) (cur : Ingress)
    (m : IngressApplyConfiguration) :
  objects srv !! (ns, acName m) = Some cur → declared cur = m →
  (Apply P srv ns m).2 = srv.
Proof.
  intros Hcur Hm. unfold Apply.
  destruct (outage srv); [done|].
  destruct (negb (bool_decide (acNamespace m = ns))); [done|].
  rewrite Hcur. rewrite (merge_declared _ _ Hm).
  by rewrite bool_decide_eq_true_2.
Qed.

(** Applying the same configuration a second time writes nothing. *)
Lemma Apply_twice (srv : apiServer) (ns : string) (m : IngressApplyConfiguration) :
  (Apply P (Apply P srv ns m).2 ns m).2 = (Apply P srv ns m).2.
Proof.
  unfold Apply at 2 3.
  destruct (outage srv) eqn:Hout.
  { simpl. unfold Apply. by rewrite Hout. }
  destruct (bool_decide (acNamespace m = ns)) eqn:Hns; simpl.
  2: { unfold Apply. by rewrite Hout, Hns. }
  destruct (objects srv !! (ns, acName m)) as [cur|] eqn:Hcur.
  - destruct (bool_decide (merge cur m = cur)) eqn:Heq; simpl.
    + apply bool_decide_eq_true in Heq.
      apply Apply_declared with (cur := cur); [done|].
      rewrite <- Heq. apply declared_merge.
    + apply Apply_declared with (cur := merge cur m).
      * simpl. apply lookup_insert_eq.
      * apply declared_merge.
  - apply Apply_declared with (cur := instantiate m (genUID P (created srv))).
    + simpl. apply lookup_insert_eq.
    + apply declared_instantiate.
Qed.

(** Deleting a second time, with the same precondition, writes nothing. *)
Lemma Delete_twice (srv : apiServer) (ns name uid : string) :
  (Delete (Delete srv ns name uid).2 ns name uid).2 = (Delete srv ns name uid).2.
Proof.
  unfold Delete at 2 3.
  destruct (outage srv) eqn:Hout.
  { simpl. unfold Delete. by rewrite Hout. }
  destruct (objects srv !! (ns, name)) as [cur|] eqn:Hcur.
  - case_bool_decide as Huid; simpl.
    + unfold Delete. simpl. by rewrite lookup_delete_eq.
    + unfold Delete. rewrite Hout, Hcur. by rewrite bool_decide_eq_false_2.
  - simpl. unfold Delete. by rewrite Hout, Hcur.
Qed.

Lemma DeleteRemote_server (gnr : GenericNamespacedReflector) (srv : apiServer)
    (resource kind name uid : string) :
  (DeleteRemote gnr srv resource kind name uid).2 = (Delete srv resource name uid).2.
Proof.
  unfold DeleteRemote.
  destruct (Delete srv resource name uid) as [[[]|] srv']; done.
Qed.

(** ** What [Handle] does to the server, branch by branch *)

Lemma Handle_server (nir : NamespacedIngressReflector) (name : string)
    (srv : apiServer) :
  server (Handle P nir name srv) = srv
  ∨ (∃ r, server (Handle P nir name srv)
          = (Delete srv (remoteIngressesClient nir) name (UID r)).2
        ∧ ∀ srv0, server (Handle P nir name srv0)
          = (Delete srv0 (remoteIngressesClient nir) name (UID r)).2)
  ∨ (∃ m, server (Handle P nir name srv)
          = (Apply P srv (remoteIngressesClient nir) m).2
        ∧ ∀ srv0, server (Handle P nir name srv0)
          = (Apply P srv0 (remoteIngressesClient nir) m).2).
Proof.
  unfold Handle.
  destruct (Must (IgnoreNotFound (errOf (localIngresses nir name)))); [by left|].
  destruct (Must (IgnoreNotFound (errOf (remoteIngresses nir name)))); [by left|].
  destruct (match remoteIngresses nir name with
            | inl r => negb (IsReflected P r) | inr _ => false end); [by left|].
  destruct (IsNotFound (errOf (localIngresses nir name))).
  - destruct (negb (IsNotFound (errOf (remoteIngresses nir name)))); [|by left].
    destruct (remoteIngresses nir name) as [r|]; [|by left].
    right; left. exists r.
    assert (∀ srv0,
      server (let '(err, sent, lines, srv') :=
                DeleteRemote (base nir) srv0 (remoteIngressesClient nir)
                  IngressReflectorName name (UID r) in
              mkHandled (Returned err) sent (LogDeletingRemote :: lines) srv')
      = (Delete srv0 (remoteIngressesClient nir) name (UID r)).2) as H.
    { intros srv0. rewrite <- (DeleteRemote_server (base nir) srv0 _ IngressReflectorName).
      by destruct (DeleteRemote _ _ _ _ _ _) as [[[? ?] ?] ?]. }
    split; [apply H | apply H].
  - destruct (localIngresses nir name) as [l|]; [|by left].
    right; right. exists (RemoteIngress P l (remote (base nir))).
    assert (∀ srv0,
      server (match Apply P srv0 (remoteIngressesClient nir)
                      (RemoteIngress P l (remote (base nir))) with
              | (inr err, srv') =>
                  mkHandled (Returned (Some err))
                    [ReqApply (remoteIngressesClient nir)
                       (RemoteIngress P l (remote (base nir)))]
                    [LogFailedToEnforce] srv'
              | (inl _, srv') =>
                  mkHandled (Returned None)
                    [ReqApply (remoteIngressesClient nir)
                       (RemoteIngress P l (remote (base nir)))]
                    [LogSuccessfullyEnforced] srv'
              end)
      = (Apply P srv0 (remoteIngressesClient nir)
           (RemoteIngress P l (remote (base nir)))).2) as H.
    { intros srv0. by destruct (Apply P srv0 _ _) as [[?|?] ?]. }
    split; [apply H | apply H].
Qed.

(** [Handle] on the reflector of a namespace pair, by what the two informer
    caches hold. *)
Lemma Handle_unowned (opts : NamespacedOpts) (name : string) (srv : apiServer)
    (r : Ingress) :
  RemoteFactory opts !! (RemoteNamespace opts, name) = Some r →
  IsReflected P r = false →
  Handle P (NewNamespacedIngressReflector opts) name srv
  = mkHandled (Returned None) [] [LogSkippingNotManaged] srv.
Proof.
  intros Hr Hown. unfold Handle, NewNamespacedIngressReflector. cbn -[Ingresses].
  rewrite Ingresses_tolerated, (Ingresses_found _ _ _ _ Hr). cbn -[Ingresses].
  by rewrite Hown.
Qed.

Lemma Handle_vanished (opts : NamespacedOpts) (name : string) (srv : apiServer) :
  LocalFactory opts !! (LocalNamespace opts, name) = None →
  RemoteFactory opts !! (RemoteNamespace opts, name) = None →
  Handle P (NewNamespacedIngressReflector opts) name srv
  = mkHandled (Returned None) [] [LogBothVanished] srv.
Proof.
  intros Hl Hr. unfold Handle, NewNamespacedIngressReflector. cbn -[Ingresses].
  by rewrite (Ingresses_absent _ _ _ Hl), (Ingresses_absent _ _ _ Hr).
Qed.

Lemma Handle_delete (opts : NamespacedOpts) (name : string) (srv : apiServer)
    (r : Ingress) :
  LocalFactory opts !! (LocalNamespace opts, name) = None →
  RemoteFactory opts !! (RemoteNamespace opts, name) = Some r →
  IsReflected P r = true →
  Handle P (NewNamespacedIngressReflector opts) name srv
  = let '(err, sent, lines, srv') :=
      DeleteRemote (NewNamespacedReflector opts) srv (RemoteNamespace opts)
        IngressReflectorName name (UID r) in
    mkHandled (Returned err) sent (LogDeletingRemote :: lines) srv'.
Proof.
  intros Hl Hr Hown. unfold Handle, NewNamespacedIngressReflector. cbn -[Ingresses].
  rewrite (Ingresses_absent _ _ _ Hl), (Ingresses_found _ _ _ _ Hr).
  cbn -[Ingresses]. by rewrite Hown.
Qed.

Lemma Handle_apply (opts : NamespacedOpts) (name : string) (srv : apiServer)
    (l : Ingress) :
  LocalFactory opts !! (LocalNamespace opts, name) = Some l →
  (∀ r, RemoteFactory opts !! (RemoteNamespace opts, name) = Some r →
        IsReflected P r = true) →
  Handle P (NewNamespacedIngressReflector opts) name srv
  = let mutation := RemoteIngress P l (RemoteNamespace opts) in
    match Apply P srv (RemoteNamespace opts) mutation with
    | (inr err, srv') =>
        mkHandled (Returned (Some err)) [ReqApply (RemoteNamespace opts) mutation]
          [LogFailedToEnforce] srv'
    | (inl _, srv') =>
        mkHandled (Returned None) [ReqApply (RemoteNamespace opts) mutation]
          [LogSuccessfullyEnforced] srv'
    end.
Proof.
  intros Hl Hown. unfold Handle, NewNamespacedIngressReflector. cbn -[Ingresses].
  rewrite (Ingresses_found _ _ _ _ Hl), Ingresses_tolerated. cbn -[Ingresses].
  unfold Ingresses.
  destruct (RemoteFactory opts !! (RemoteNamespace opts, name)) as [r|] eqn:Hr.
  - by rewrite (Hown r eq_refl).
  - done.
Qed.

Lemma server_Handle_apply (opts : NamespacedOpts) (name : string)
    (srv : apiServer) (l : Ingress) :
  LocalFactory opts !! (LocalNamespace opts, name) = Some l →
  (∀ r, RemoteFactory opts !! (RemoteNamespace opts, name) = Some r →
        IsReflected P r = true) →
  server (Handle P (NewNamespacedIngressReflector opts) name srv)
  = (Apply P srv (RemoteNamespace opts)
       (RemoteIngress P l (RemoteNamespace opts))).2.
Proof.
  intros Hl Hown. rewrite (Handle_apply _ _ _ _ Hl Hown). cbv zeta.
  by destruct (Apply P srv _ _) as [[?|?] ?].
Qed.

(** What the engine applied carries the ownership marker. *)
Lemma declared_IsReflected (obj l : Ingress) (ns : string) :
  declared obj = RemoteIngress P l ns → IsReflected P obj = true.
Proof.
  intros Hd. unfold IsReflected. apply bool_decide_eq_true_2.
  assert (Labels obj = acLabels (RemoteIngress P l ns)) as ->
    by (by rewrite <- Hd).
  apply RemoteIngress_marked.
Qed.

(** After an apply of a translation, the server still holds no unowned
    object under a name where it held none. *)
Lemma Apply_keeps_owned (srv : apiServer) (ns name : string) (l : Ingress) :
  (∀ r, objects srv !! (ns, name) = Some r → IsReflected P r = true) →
  ∀ r, objects (Apply P srv ns (RemoteIngress P l ns)).2 !! (ns, name) = Some r →
       IsReflected P r = true.
Proof.
  intros Hown r. unfold Apply.
  destruct (outage srv); [apply Hown|].
  destruct (negb (bool_decide (acNamespace (RemoteIngress P l ns) = ns)));
    [apply Hown|].
  assert (∀ obj, declared obj = RemoteIngress P l ns →
            <[(ns, acName (RemoteIngress P l ns)) := obj]> (objects srv)
              !! (ns, name) = Some r → IsReflected P r = true) as Hins.
  { intros obj Hd. rewrite lookup_insert. case_decide.
    - intros [= <-]. by apply declared_IsReflected with l ns.
    - apply Hown. }
  destruct (objects srv !! (ns, acName (RemoteIngress P l ns))) as [cur|].
  - cbv zeta. destruct (bool_decide _); simpl; [apply Hown|].
    apply Hins, declared_merge.
  - simpl. apply Hins, declared_instantiate.
Qed.

(** ** The claims *)

(** C1. Whatever the local informer cache holds, when the remote object
    exists and lacks the ownership marker, [Handle] returns nil, sends no
    request to the remote API server (no apply, no delete), logs the
    skipped-unowned outcome, and leaves the remote server, hence the remote
    object, as it was. *)
Theorem Handle_skips_unowned (opts : NamespacedOpts) (name : string)
    (srv : apiServer) (r : Ingress) :
  RemoteFactory opts !! (RemoteNamespace opts, name) = Some r →
  IsReflected P r = false →
  let h := Handle P (NewNamespacedIngressReflector opts) name srv in
  outcome h = Returned None
  ∧ calls h = []
  ∧ outcomeOf <$> klog h = [Some skipped_unowned]
  ∧ server h = srv.
Proof.
  intros Hr Hown h. subst h. by rewrite (Handle_unowned _ _ _ _ Hr Hown).
Qed.

(** C2. Running [Handle] twice on the same reflector leaves the remote
    server after the second call exactly as after the first, its list of
    persisted writes included: the second call writes nothing. The same holds
    when the remote informer cache shows the live remote objects before each
    of the two calls. In particular, when the live remote object already
    declares the translation of the local object, one call of [Handle] leaves
    the server untouched. *)
Theorem Handle_idempotent (nir : NamespacedIngressReflector) (name : string)
    (srv : apiServer) :
  (let first := Handle P nir name srv in
   let second := Handle P nir name (server first) in
   server second = server first
   ∧ writes (server second) = writes (server first))
  ∧ (∀ opts,
       let first :=
         Handle P (NewNamespacedIngressReflector (resync opts srv)) name srv in
       let second :=
         Handle P (NewNamespacedIngressReflector (resync opts (server first)))
           name (server first) in
       server second = server first
       ∧ writes (server second) = writes (server first))
  ∧ (∀ opts l cur,
       LocalFactory opts !! (LocalNamespace opts, name) = Some l →
       Name l = name →
       objects srv !! (RemoteNamespace opts, name) = Some cur →
       declared cur = RemoteIngress P l (RemoteNamespace opts) →
       server (Handle P (NewNamespacedIngressReflector opts) name srv) = srv).
Proof.
  split; [|split].
  - cbv zeta.
    assert (server (Handle P nir name (server (Handle P nir name srv)))
            = server (Handle P nir name srv)) as H; [|by rewrite H].
    destruct (Handle_server nir name srv) as [H|[(r & H & Hall)|(m & H & Hall)]].
    + by rewrite !H.
    + rewrite Hall, H. apply Delete_twice.
    + rewrite Hall, H. apply Apply_twice.
  - intros opts. cbv zeta.
    set (first := Handle P (NewNamespacedIngressReflector (resync opts srv)) name srv).
    assert (server (Handle P
                      (NewNamespacedIngressReflector (resync opts (server first)))
                      name (server first))
            = server first) as H; [|by rewrite H].
    subst first.
    destruct (objects srv !! (RemoteNamespace opts, name)) as [r|] eqn:Hr.
    + destruct (IsReflected P r) eqn:Hown.
      * destruct (LocalFactory opts !! (LocalNamespace opts, name)) as [l|] eqn:Hl.
        -- rewrite (server_Handle_apply (resync opts srv) name srv l Hl).
           2: { simpl. intros r' Hr'. congruence. }
           rewrite (server_Handle_apply (resync opts _) name _ l Hl).
           2: { simpl. apply Apply_keeps_owned. intros r' Hr'. congruence. }
           simpl. apply Apply_twice.
        -- rewrite (Handle_delete (resync opts srv) name srv r Hl Hr Hown).
           simpl. unfold DeleteRemote, Delete.
           destruct (outage srv) eqn:Hout; simpl.
           ++ rewrite (Handle_delete (resync opts srv) name srv r Hl Hr Hown).
              simpl. unfold DeleteRemote, Delete. by rewrite Hout.
           ++ rewrite Hr. rewrite bool_decide_eq_true_2 by done. simpl.
              apply (f_equal server
                       (Handle_vanished (resync opts _) name _ Hl
                          (lookup_delete_eq _ _))).
      * rewrite (Handle_unowned (resync opts srv) name srv r Hr Hown). simpl.
        by rewrite (Handle_unowned (resync opts srv) name srv r Hr Hown).
    + destruct (LocalFactory opts !! (LocalNamespace opts, name)) as [l|] eqn:Hl.
      * rewrite (server_Handle_apply (resync opts srv) name srv l Hl).
        2: { simpl. intros r' Hr'. congruence. }
        rewrite (server_Handle_apply (resync opts _) name _ l Hl).
        2: { simpl. apply Apply_keeps_owned. intros r' Hr'. congruence. }
        simpl. apply Apply_twice.
      * rewrite (Handle_vanished (resync opts srv) name srv Hl Hr). simpl.
        by rewrite (Handle_vanished (resync opts srv) name srv Hl Hr).
  - intros opts l cur Hl Hname Hcur Hdecl.
    assert ((Apply P srv (RemoteNamespace opts)
               (RemoteIngress P l (RemoteNamespace opts))).2 = srv) as Hsame.
    { apply Apply_declared with cur; [|done]. simpl. by rewrite Hname. }
    destruct (RemoteFactory opts !! (RemoteNamespace opts, name)) as [r|] eqn:Hr.
    + destruct (IsReflected P r) eqn:Hown.
      * rewrite (server_Handle_apply _ _ _ l Hl); [done|].
        intros r' Hr'. congruence.
      * by rewrite (Handle_unowned _ _ _ _ Hr Hown).
    + rewrite (server_Handle_apply _ _ _ l Hl); [done|].
      intros r' Hr'. congruence.
Qed.

(** C3. When the local object is absent and the remote object exists with
    the ownership marker, [Handle] sends exactly one request: a delete whose
    precondition is the UID recorded in the remote informer cache. When the
    live object has that UID (and the server is reachable) it is deleted and
    [Handle] returns nil; when the live object's UID differs, the server is
    left as it was and [Handle] returns nil. *)
Theorem Handle_deletes_with_recorded_UID (opts : NamespacedOpts)
    (name : string) (srv : apiServer) (r : Ingress) :
  LocalFactory opts !! (LocalNamespace opts, name) = None →
  RemoteFactory opts !! (RemoteNamespace opts, name) = Some r →
  IsReflected P r = true →
  let h := Handle P (NewNamespacedIngressReflector opts) name srv in
  calls h = [ReqDelete (RemoteNamespace opts) name (UID r)]
  ∧ (∀ live, outage srv = false →
       objects srv !! (RemoteNamespace opts, name) = Some live →
       UID live = UID r →
       outcome h = Returned None
       ∧ objects (server h) !! (RemoteNamespace opts, name) = None
       ∧ writes (server h)
         = (writes srv ++ [WDeleted (RemoteNamespace opts) name])%list)
  ∧ (∀ live, outage srv = false →
       objects srv !! (RemoteNamespace opts, name) = Some live →
       UID live ≠ UID r →
       outcome h = Returned None ∧ server h = srv).
Proof.
  intros Hl Hr Hown h. subst h. rewrite (Handle_delete _ _ _ _ Hl Hr Hown).
  unfold DeleteRemote, Delete. split; [|split].
  - by repeat case_match; simplify_eq.
  - intros live Hout Hlive Huid. rewrite Hout, Hlive.
    rewrite bool_decide_eq_true_2 by done. simpl.
    split; [done|]. split; [apply lookup_delete_eq | done].
  - intros live Hout Hlive Huid. rewrite Hout, Hlive.
    by rewrite bool_decide_eq_false_2.
Qed.

(** When both reads are tolerated, [Handle] returns. *)
Lemma Handle_returns (nir : NamespacedIngressReflector) (name : string)
    (srv : apiServer) :
  IgnoreNotFound (errOf (localIngresses nir name)) = None →
  IgnoreNotFound (errOf (remoteIngresses nir name)) = None →
  ∃ err, outcome (Handle P nir name srv) = Returned err.
Proof.
  intros Hl Hr. unfold Handle. rewrite Hl, Hr. simpl.
  destruct (remoteIngresses nir name) as [r|e] eqn:Er.
  - destruct (negb (IsReflected P r)); [by eexists|].
    destruct (localIngresses nir name) as [l|e] eqn:El; simpl.
    + destruct (Apply P srv _ _) as [[?|?] ?]; by eexists.
    + destruct e; try discriminate Hl. simpl.
      destruct (DeleteRemote _ _ _ _ _ _) as [[[? ?] ?] ?]. by eexists.
  - destruct e; try discriminate Hr. simpl.
    destruct (localIngresses nir name) as [l|e] eqn:El; simpl.
    + destruct (Apply P srv _ _) as [[?|?] ?]; by eexists.
    + destruct e; try discriminate Hl. simpl. by eexists.
Qed.

(** C4, as the code has it. Only not-found is tolerated from the two reads.
    Any other failure of the local read, or of the remote read after a
    tolerated local one, is not returned to the work queue: [Must] panics with
    it, before any request is sent and before anything is logged. When both
    reads are tolerated [Handle] returns; the listers of the informer caches
    only ever fail with not-found, so the reflector of a namespace pair
    always returns. *)
Theorem Handle_read_failure_panics (nir : NamespacedIngressReflector)
    (name : string) (srv : apiServer) :
  (∀ e, localIngresses nir name = inr e → e ≠ ErrNotFound →
     Handle P nir name srv = mkHandled (Panicked (PanicErr e)) [] [] srv)
  ∧ (∀ e, IgnoreNotFound (errOf (localIngresses nir name)) = None →
       remoteIngresses nir name = inr e → e ≠ ErrNotFound →
       Handle P nir name srv = mkHandled (Panicked (PanicErr e)) [] [] srv)
  ∧ (IgnoreNotFound (errOf (localIngresses nir name)) = None →
     IgnoreNotFound (errOf (remoteIngresses nir name)) = None →
     ∃ err, outcome (Handle P nir name srv) = Returned err)
  ∧ (∀ opts, ∃ err,
       outcome (Handle P (NewNamespacedIngressReflector opts) name srv)
       = Returned err).
Proof.
  split; [|split; [|split]].
  - intros e He Hne. unfold Handle. rewrite He. by destruct e.
  - intros e Hl He Hne. unfold Handle. rewrite Hl, He. by destruct e.
  - apply Handle_returns.
  - intros opts. apply Handle_returns; apply Ingresses_tolerated.
Qed.


(** Starting namespace pairs does not change the fallback policy. *)
Lemma fallback_started (r : Reflector) (started : list NamespacedOpts) :
  fallback (foldl StartNamespace r started) = fallback r.
Proof.
  revert r. induction started as [|o os IH]; intros r; [done|].
  simpl. by rewrite IH.
Qed.

(** C6. The Ingress reflector is built with [WithoutFallback], and starting
    namespace pairs does not change that. For a reflector without fallback,
    handling a key whose local namespace has no namespaced reflector returns
    the unresolved-namespace error, which is transient, so that the work
    queue requeues the key while attempts remain. A fallback-tolerant
    reflector in the same situation returns nil with the deferred outcome.
    Neither sends a request. *)
Theorem unresolved_namespace_policy (w : nat) (started : list NamespacedOpts)
    (key : string * string) (srv : apiServer) (maxRetries attempts : nat) :
  fallback (foldl StartNamespace (NewIngressReflector P w) started)
  = WithoutFallback
  ∧ (∀ r : Reflector,
       fallback r = WithoutFallback → reflectors r !! key.1 = None →
       handle r key srv
       = mkHandled (Returned (Some ErrNamespaceUnresolved)) []
           [LogNamespaceUnresolved] srv
       ∧ classify ErrNamespaceUnresolved = Transient
       ∧ (attempts < maxRetries →
          processed maxRetries attempts (outcome (handle r key srv)) = Requeue))
  ∧ (∀ r : Reflector,
       fallback r = WithFallback → reflectors r !! key.1 = None →
       handle r key srv = mkHandled (Returned None) [] [LogDeferred] srv
       ∧ outcomeOf <$> klog (handle r key srv) = [Some deferred]
       ∧ processed maxRetries attempts (outcome (handle r key srv)) = Done).
Proof.
  split; [by rewrite fallback_started|]. split.
  - intros r Hfb Hnone. unfold handle, NamespacedReflector in *.
    rewrite Hnone, Hfb. simpl.
    split; [done|]. split; [done|].
    intros Hlt. by rewrite bool_decide_eq_true_2.
  - intros r Hfb Hnone. unfold handle, NamespacedReflector in *.
    by rewrite Hnone, Hfb.
Qed.

(** C8. When neither informer cache holds the object, [Handle] returns nil,
    sends no request, and leaves the remote server as it was. *)
Theorem Handle_both_absent_noop (opts : NamespacedOpts) (name : string)
    (srv : apiServer) :
  LocalFactory opts !! (LocalNamespace opts, name) = None →
  RemoteFactory opts !! (RemoteNamespace opts, name) = None →
  let h := Handle P (NewNamespacedIngressReflector opts) name srv in
  outcome h = Returned None
  ∧ calls h = []
  ∧ outcomeOf <$> klog h = [Some no_op]
  ∧ server h = srv.
Proof.
  intros Hl Hr h. subst h. by rewrite (Handle_vanished _ _ _ Hl Hr).
Qed.

End Reflection.

(** ** The claims at work on the example setting *)

(** Scenario B: a foreign object named web sits in ns-remote; the local web
    is skipped. *)
Lemma Handle_skips_unowned_witness :
  let srv := exampleServer (Some foreignWeb) in
  let h :=
    Handle exampleParameters
      (NewNamespacedIngressReflector
         (exampleOpts (Some localWeb) (Some foreignWeb))) "web" srv in
  outcome h = Returned None
  ∧ calls h = []
  ∧ outcomeOf <$> klog h = [Some skipped_unowned]
  ∧ server h = srv.
Proof.
  apply (Handle_skips_unowned exampleParameters
           (exampleOpts (Some localWeb) (Some foreignWeb)) "web"
           (exampleServer (Some foreignWeb)) foreignWeb);
    vm_compute; reflexivity.
Defined.

(** The remote web already declares the translation of the local one:
    nothing is written. *)
Lemma Handle_idempotent_witness :
  let srv := exampleServer (Some (reflectedWeb "u1")) in
  server
    (Handle exampleParameters
       (NewNamespacedIngressReflector
          (exampleOpts (Some localWeb) (Some (reflectedWeb "u1")))) "web" srv)
  = srv.
Proof.
  apply (proj2 (proj2 (Handle_idempotent exampleParameters brokenReflector "web"
                         (exampleServer (Some (reflectedWeb "u1")))))
           (exampleOpts (Some localWeb) (Some (reflectedWeb "u1")))
           localWeb (reflectedWeb "u1"));
    vm_compute; reflexivity.
Defined.

(** Scenario C: the cache recorded UID u1, the live object has been
    recreated with UID u2; the conditional delete changes nothing. *)
Lemma Handle_deletes_with_recorded_UID_witness :
  let srv := exampleServer (Some (reflectedWeb "u2")) in
  let h :=
    Handle exampleParameters
      (NewNamespacedIngressReflector
         (exampleOpts None (Some (reflectedWeb "u1")))) "web" srv in
  calls h = [ReqDelete "ns-remote" "web" "u1"]
  ∧ outcome h = Returned None
  ∧ server h = srv.
Proof.
  destruct (Handle_deletes_with_recorded_UID exampleParameters
              (exampleOpts None (Some (reflectedWeb "u1"))) "web"
              (exampleServer (Some (reflectedWeb "u2"))) (reflectedWeb "u1"))
    as (Hcalls & _ & Hdiffers); try (vm_compute; reflexivity).
  split; [exact Hcalls|].
  apply (Hdiffers (reflectedWeb "u2")); [reflexivity | reflexivity | discriminate].
Defined.

(** C4, as the claim states it, fails: a local read that fails with
    something else than not-found is not returned as an error, [Handle]
    panics. *)
Lemma Handle_read_failure_not_returned :
  ¬ read_failure_is_returned exampleParameters brokenReflector "web"
      (exampleServer None).
Proof.
  intros H.
  destruct (H ErrUnavailable eq_refl) as (e' & He & _); [discriminate|].
  vm_compute in He. discriminate He.
Qed.

Lemma Handle_read_failure_panics_witness :
  Handle exampleParameters brokenReflector "web" (exampleServer None)
  = mkHandled (Panicked (PanicErr ErrUnavailable)) [] [] (exampleServer None).
Proof.
  apply (proj1 (Handle_read_failure_panics exampleParameters brokenReflector
                  "web" (exampleServer None)));
    [reflexivity | discriminate].
Defined.


Lemma unresolved_namespace_policy_witness :
  let r :=
    foldl StartNamespace (NewIngressReflector exampleParameters 2)
      [exampleOpts None None] in
  handle r ("ns-unmapped", "web") (exampleServer None)
  = mkHandled (Returned (Some ErrNamespaceUnresolved)) []
      [LogNamespaceUnresolved] (exampleServer None)
  ∧ classify ErrNamespaceUnresolved = Transient
  ∧ (0 < 5 →
     processed 5 0
       (outcome (handle r ("ns-unmapped", "web") (exampleServer None)))
     = Requeue).
Proof.
  destruct (unresolved_namespace_policy exampleParameters 2
              [exampleOpts None None] ("ns-unmapped", "web")
              (exampleServer None) 5 0) as (Hfb & Hwithout & _).
  apply Hwithout; [exact Hfb | vm_compute; reflexivity].
Defined.

Lemma Handle_both_absent_noop_witness :
  let srv := exampleServer None in
  let h :=
    Handle exampleParameters
      (NewNamespacedIngressReflector (exampleOpts None None)) "web" srv in
  outcome h = Returned None
  ∧ calls h = []
  ∧ outcomeOf <$> klog h = [Some no_op]
  ∧ server h = srv.
Proof.
  apply (Handle_both_absent_noop exampleParameters (exampleOpts None None)
           "web" (exampleServer None));
    vm_compute; reflexivity.
Defined.


(** ** The requests of [Handle], for any pair of listers *)

Section Requests.

Variable P : Parameters.

(** X24. Whatever the two listers answer, [Handle] sends at most one
    request. It sends a delete, of the name handled and with the UID of the
    remote object read, only when the local read answers not-found and the
    remote object read carries the marker. It sends an apply, of the
    translation of the local object read, only when the local read succeeds
    and the remote read answers not-found or an object that carries the
    marker. In every other case, a panic included, it sends nothing and
    leaves the server as it was. *)
Theorem Handle_requests (nir : NamespacedIngressReflector) (name : string)
    (srv : apiServer) :
  let h := Handle P nir name srv in
  (calls h = [] ∧ server h = srv)
  ∨ (∃ r,
       localIngresses nir name = inr ErrNotFound
       ∧ remoteIngresses nir name = inl r
       ∧ IsReflected P r = true
       ∧ calls h = [ReqDelete (remoteIngressesClient nir) name (UID r)]
       ∧ server h = (Delete srv (remoteIngressesClient nir) name (UID r)).2)
  ∨ (∃ l,
       localIngresses nir name = inl l
       ∧ IgnoreNotFound (errOf (remoteIngresses nir name)) = None
       ∧ (∀ r, remoteIngresses nir name = inl r → IsReflected P r = true)
       ∧ calls h
         = [ReqApply (remoteIngressesClient nir)
              (RemoteIngress P l (remote (base nir)))]
       ∧ server h
         = (Apply P srv (remoteIngressesClient nir)
              (RemoteIngress P l (remote (base nir)))).2).
Proof.
  cbv zeta. unfold Handle.
  destruct (localIngresses nir name) as [l|el] eqn:El;
    destruct (remoteIngresses nir name) as [r|er] eqn:Er; simpl.
  - destruct (IsReflected P r) eqn:Hr; simpl; [|by left].
    right; right. exists l.
    destruct (Apply P srv _ _) as [[?|?] ?]; simpl.
    + repeat split; try done. by intros ? [= <-].
    + repeat split; try done. by intros ? [= <-].
  - destruct er; simpl; try by left.
    right; right. exists l.
    destruct (Apply P srv _ _) as [[?|?] ?]; simpl; by repeat split.
  - destruct el; simpl; try by left.
    destruct (IsReflected P r) eqn:Hr; simpl; [|by left].
    right; left. exists r. unfold DeleteRemote.
    destruct (Delete srv _ _ _) as [[[]|] srv']; by repeat split.
  - destruct el; simpl; try by left.
    destruct er; simpl; by left.
Qed.

End Requests.
End ExpositionTheory.

(** * Properties of the discovery controller *)

Module DiscoveryTheory.

Import Discovery.

Section Foreign.

Variable TtlType : intType.
Variable HasHigherPriority : ForeignCluster → DiscoveryType → bool.
Variable discovery : DiscoveryCtrl.

Local Abbreviation clean := (Discovery.clean (ClusterId discovery)).
Local Abbreviation foreign := (Discovery.foreign (ClusterId discovery)).
Local Abbreviation safely := (Discovery.safely (ClusterId discovery)).

Lemma safely_refl (c : cluster) :
  foreignOnly (ClusterId discovery) c → safely c c.
Proof. intros H. split; [done|]. exists []. by rewrite app_nil_r. Qed.

Lemma safely_trans (c1 c2 c3 : cluster) :
  safely c1 c2 → safely c2 c3 → safely c1 c3.
Proof.
  intros [_ (n1 & E1 & F1)] [H3 (n2 & E2 & F2)]. split; [done|].
  exists (n1 ++ n2)%list. split.
  - by rewrite E2, E1, <- app_assoc.
  - by apply Forall_app.
Qed.

Lemma clean_touches (fc : ForeignCluster) :
  foreign fc → touches (ClusterId discovery) (ReqCreate fc) = false.
Proof. intros H. simpl. by apply bool_decide_eq_false_2. Qed.

(** A request reaching the server leaves the stored objects alone. *)
Lemma call_safely (r : request) (c : cluster) :
  foreignOnly (ClusterId discovery) c → clean r → safely c (call r c).2.
Proof.
  intros H Hr. split; [done|]. exists [r]. split; [done|].
  by apply Forall_singleton.
Qed.

Lemma call_foreignclusters (r : request) (c : cluster) :
  foreignclusters (call r c).2 = foreignclusters c.
Proof. done. Qed.

Lemma List_safely (selector : string * string) (c : cluster) :
  foreignOnly (ClusterId discovery) c →
  safely c (List selector c).2
  ∧ ∀ items, (List selector c).1 = inl items → Forall foreign items.
Proof.
  intros H. unfold List.
  pose proof (call_safely (ReqList selector) c H eq_refl) as Hc.
  destruct (call (ReqList selector) c) as [bad c'] eqn:E.
  assert (foreignclusters c' = foreignclusters c) as Hfc.
  { by rewrite <- (call_foreignclusters (ReqList selector) c), E. }
  simpl in Hc. destruct bad; simpl; (split; [done|]).
  - intros items [=].
  - intros items [= <-]. rewrite Hfc.
    apply Forall_forall. intros fc [_ Hin]%list_elem_of_filter.
    revert fc Hin. by apply Forall_forall.
Qed.

Lemma Create_safely (fc : ForeignCluster) (c : cluster) :
  foreignOnly (ClusterId discovery) c → foreign fc →
  safely c (Create fc c).2
  ∧ ∀ fc', (Create fc c).1 = inl fc' → foreign fc'.
Proof.
  intros H Hfc. unfold Create.
  pose proof (call_safely (ReqCreate fc) c H (clean_touches fc Hfc)) as Hc.
  destruct (call (ReqCreate fc) c) as [bad c'] eqn:E. simpl in Hc.
  destruct bad; simpl; [by split|].
  destruct (existsb _ _); simpl; [by split|].
  split; [|by intros fc' [= <-]].
  destruct Hc as [Hc Hreq]. split; [|done].
  unfold foreignOnly in *. simpl. apply Forall_app. split; [done|].
  by apply Forall_singleton.
Qed.

Lemma Update_safely (name : string) (fc : ForeignCluster) (c : cluster) :
  foreignOnly (ClusterId discovery) c → foreign fc →
  safely c (Update name fc c).2
  ∧ ∀ fc', (Update name fc c).1 = inl fc' → foreign fc'.
Proof.
  intros H Hfc. unfold Update.
  assert (clean (ReqUpdate name fc)) as Hclean.
  { unfold clean. simpl. by apply bool_decide_eq_false_2. }
  pose proof (call_safely (ReqUpdate name fc) c H Hclean) as Hc.
  destruct (call (ReqUpdate name fc) c) as [bad c'] eqn:E. simpl in Hc.
  destruct bad; simpl; [by split|].
  destruct (negb _); simpl; [by split|].
  destruct (existsb _ _); simpl; [|by split].
  split; [|by intros fc' [= <-]].
  destruct Hc as [Hc Hreq]. split; [|done].
  unfold foreignOnly in *. simpl. apply Forall_fmap.
  eapply Forall_impl; [exact Hc|]. intros old Hold. simpl.
  by destruct (hasName name old).
Qed.

Lemma Delete_safely (name : string) (c : cluster) :
  foreignOnly (ClusterId discovery) c → safely c (Delete name c).2.
Proof.
  intros H. unfold Delete.
  pose proof (call_safely (ReqDelete name) c H eq_refl) as Hc.
  destruct (call (ReqDelete name) c) as [bad c'] eqn:E. simpl in Hc.
  destruct bad; simpl; [done|].
  destruct (existsb _ _); simpl; [|done].
  destruct Hc as [Hc Hreq]. split; [|done].
  unfold foreignOnly in *. simpl.
  apply Forall_forall. intros fc [_ Hin]%list_elem_of_filter.
  revert fc Hin. by apply Forall_forall.
Qed.

Lemma DeleteSecret_safely (namespace name : string) (c : cluster) :
  foreignOnly (ClusterId discovery) c →
  safely c (DeleteSecret namespace name c).2.
Proof.
  intros H. unfold DeleteSecret.
  pose proof (call_safely (ReqDeleteSecret namespace name) c H eq_refl) as Hc.
  destruct (call (ReqDeleteSecret namespace name) c) as [bad c'] eqn:E.
  simpl in Hc. destruct bad; simpl; [done|].
  by destruct (bool_decide _).
Qed.

Lemma DeleteAdvertisement_safely (name : string) (c : cluster) :
  foreignOnly (ClusterId discovery) c →
  safely c (DeleteAdvertisement name c).2.
Proof.
  intros H. unfold DeleteAdvertisement.
  pose proof (call_safely (ReqDeleteAdvertisement name) c H eq_refl) as Hc.
  destruct (call (ReqDeleteAdvertisement name) c) as [bad c'] eqn:E.
  simpl in Hc. destruct bad; simpl; [done|].
  by destruct (bool_decide _).
Qed.

(** ** The controller's steps *)

Lemma GetForeignClusterByID_safely (clusterID : string) (c : cluster) :
  foreignOnly (ClusterId discovery) c →
  safely c (GetForeignClusterByID clusterID c).2
  ∧ ∀ fc, (GetForeignClusterByID clusterID c).1 = inl fc → foreign fc.
Proof.
  intros H. unfold GetForeignClusterByID.
  destruct (List_safely ("cluster-id", clusterID) c H) as [Hs Hitems].
  destruct (List ("cluster-id", clusterID) c) as [[items|err] c']; simpl in *.
  - specialize (Hitems items eq_refl).
    destruct items as [|fc rest]; simpl; (split; [done|]).
    + intros fc [=].
    + intros fc' [= <-]. by apply Forall_cons in Hitems as [? _].
  - split; [done|]. intros fc [=].
Qed.

Lemma createForeign_safely (txtData : TxtData) (sd : option SearchDomain)
    (discoveryType : DiscoveryType) (c : cluster) :
  foreignOnly (ClusterId discovery) c →
  ID txtData ≠ ClusterId discovery →
  safely c (createForeign txtData sd discoveryType c).2
  ∧ ∀ fc, (createForeign txtData sd discoveryType c).1 = inl fc → foreign fc.
Proof.
  intros H Hid. unfold createForeign.
  match goal with
  | |- context [Create ?fc c] =>
      assert (foreign fc) as Hfc
        by (unfold Discovery.foreign; destruct sd; case_bool_decide; exact Hid);
      destruct (Create_safely fc c H Hfc) as [Hs Hret];
      destruct (Create fc c) as [[fc'|err] c']
  end; simpl in *.
  - split; [done|]. intros fc [= <-]. by apply Hret.
  - split; [done|]. intros fc [=].
Qed.

Lemma CheckUpdate_safely (txtData : TxtData) (fc : ForeignCluster)
    (discoveryType : DiscoveryType) (searchDomain : option SearchDomain)
    (c : cluster) :
  foreignOnly (ClusterId discovery) c → foreign fc →
  safely c (CheckUpdate HasHigherPriority txtData fc discoveryType searchDomain c).2
  ∧ ∀ fc',
      (CheckUpdate HasHigherPriority txtData fc discoveryType searchDomain c).1
      = inl fc' → foreign fc'.
Proof.
  intros H Hfc. unfold CheckUpdate.
  destruct (_ || _); [|split; [by apply safely_refl | by intros fc' [= <-]]].
  set (fc1 := match searchDomain with
              | Some s =>
                  if bool_decide (discoveryType = WanDiscovery)
                  then setJoin (AutoJoin s) _ else _
              | None => _
              end).
  assert (foreign fc1) as Hfc1.
  { subst fc1. destruct searchDomain; [case_bool_decide|]; exact Hfc. }
  clearbody fc1.
  assert (∃ c1 e, match CaDataRef fc1 with
                   | Some r => DeleteSecret (refNamespace r) (refName r) c
                   | None => (None, c)
                   end = (e, c1) ∧ safely c c1) as (c1 & e & -> & Hs1).
  { destruct (CaDataRef fc1) as [r|].
    - pose proof (DeleteSecret_safely (refNamespace r) (refName r) c H) as Hs.
      destruct (DeleteSecret _ _ c) as [e c1]. by exists c1, e.
    - exists c, None. split; [done | by apply safely_refl]. }
  destruct e as [err|]; simpl; [split; [done | intros ? [=]]|].
  assert (foreign (setCaDataRef None fc1)) as Hfc2 by exact Hfc1.
  destruct (Update_safely (fcName (setCaDataRef None fc1)) _ c1 (proj1 Hs1) Hfc2)
    as [Hs2 Hret2].
  destruct (Update _ (setCaDataRef None fc1) c1) as [[fc3|err] c2]; simpl in *.
  2: { split; [by eapply safely_trans | intros ? [=]]. }
  specialize (Hret2 fc3 eq_refl).
  pose proof (safely_trans _ _ _ Hs1 Hs2) as Hs12.
  destruct (Advertisement fc3) as [adv|]; [|split; [done | by intros ? [= <-]]].
  assert (foreign (setAdvertisement None fc3)) as Hfc4 by exact Hret2.
  destruct (Update_safely (fcName (setAdvertisement None fc3)) _ c2 (proj1 Hs2) Hfc4)
    as [Hs3 Hret3].
  destruct (Update _ (setAdvertisement None fc3) c2) as [[fc5|err] c3]; simpl in *.
  2: { split; [by eapply safely_trans | intros ? [=]]. }
  specialize (Hret3 fc5 eq_refl).
  pose proof (safely_trans _ _ _ Hs12 Hs3) as Hs123.
  pose proof (DeleteAdvertisement_safely (refName adv) c3 (proj1 Hs3)) as Hs4.
  destruct (DeleteAdvertisement (refName adv) c3) as [[err|] c4]; simpl in *.
  - split; [by eapply safely_trans | intros ? [=]].
  - split; [by eapply safely_trans | by intros ? [= <-]].
Qed.

Lemma ttlScan_safely (txts : list TxtData) (fc : ForeignCluster) (c : cluster) :
  foreignOnly (ClusterId discovery) c → foreign fc →
  safely c (ttlScan txts fc c).2 ∧ foreign (ttlScan txts fc c).1.2.
Proof.
  revert fc c. induction txts as [|txt rest IH]; intros fc c H Hfc; simpl.
  - split; [by apply safely_refl | done].
  - destruct (bool_decide (ID txt = ClusterID fc)); [|by apply IH].
    destruct (negb _); [|split; [by apply safely_refl | done]].
    assert (foreign (setTtl 3 fc)) as Hfc3 by exact Hfc.
    destruct (Update_safely (fcName (setTtl 3 fc)) _ c H Hfc3) as [Hs _].
    destruct (Update _ (setTtl 3 fc) c) as [[fc'|err] c1]; simpl in *; [done|].
    destruct (IH (setTtl 3 fc) c1 (proj1 Hs) Hfc3) as [Hs2 Hfc2].
    destruct (ttlScan rest (setTtl 3 fc) c1) as [[found fc2] c2]; simpl in *.
    split; [by eapply safely_trans | done].
Qed.

Lemma ttlItems_safely (txts : list TxtData) (items : list ForeignCluster)
    (c : cluster) :
  foreignOnly (ClusterId discovery) c → Forall foreign items →
  safely c (ttlItems TtlType txts items c).
Proof.
  revert c. induction items as [|fc rest IH]; intros c H Hitems; simpl.
  - by apply safely_refl.
  - apply Forall_cons in Hitems as [Hfc Hrest].
    destruct (ttlScan_safely txts fc c H Hfc) as [Hs Hfc1].
    destruct (ttlScan txts fc c) as [[found fc1] c1]; simpl in *.
    eapply safely_trans; [exact Hs|].
    destruct found.
    + apply IH; [apply Hs | done].
    + assert (foreign (setTtl (wrapInt TtlType (Ttl fc1 - 1)) fc1)) as Hfc2 by exact Hfc1.
      case_bool_decide.
      * pose proof (Delete_safely (fcName (setTtl (wrapInt TtlType (Ttl fc1 - 1)) fc1)) c1 (proj1 Hs))
          as Hd.
        eapply safely_trans; [exact Hd|]. apply IH; [apply Hd | done].
      * destruct (Update_safely (fcName (setTtl (wrapInt TtlType (Ttl fc1 - 1)) fc1)) _ c1
                    (proj1 Hs) Hfc2) as [Hu _].
        eapply safely_trans; [exact Hu|]. apply IH; [apply Hu | done].
Qed.

Lemma UpdateTtl_safely (txts : list TxtData) (c : cluster) :
  foreignOnly (ClusterId discovery) c → safely c (UpdateTtl TtlType txts c).2.
Proof.
  intros H. unfold UpdateTtl.
  destruct (List_safely ("discovery-type", "LAN") c H) as [Hs Hitems].
  destruct (List ("discovery-type", "LAN") c) as [[items|err] c1]; simpl in *;
    [|done].
  eapply safely_trans; [exact Hs|].
  apply ttlItems_safely; [apply Hs | by apply Hitems].
Qed.

Lemma discover_safely (sd : option SearchDomain) (discoveryType : DiscoveryType)
    (data : list TxtData) (acc : list ForeignCluster) (c : cluster) :
  foreignOnly (ClusterId discovery) c → Forall foreign acc →
  safely c (discover HasHigherPriority discovery sd discoveryType data acc c).2
  ∧ Forall foreign
      (discover HasHigherPriority discovery sd discoveryType data acc c).1.
Proof.
  revert acc c. induction data as [|txtData rest IH]; intros acc c H Hacc; simpl.
  - split; [by apply safely_refl | done].
  - case_bool_decide as Hid; [by apply IH|].
    destruct (GetForeignClusterByID_safely (ID txtData) c H) as [Hs Hret].
    destruct (GetForeignClusterByID (ID txtData) c) as [[fc|err] c1]; simpl in *.
    + specialize (Hret fc eq_refl).
      destruct (CheckUpdate_safely txtData fc discoveryType sd c1 (proj1 Hs) Hret)
        as [Hs2 Hret2].
      destruct (CheckUpdate _ txtData fc discoveryType sd c1) as [[fc'|err] c2];
        simpl in *.
      * destruct (IH (acc ++ [fc'])%list c2 (proj1 Hs2)) as [Hs3 Hout].
        { apply Forall_app. split; [done|]. apply Forall_singleton. by apply Hret2. }
        split; [|done]. eapply safely_trans; [|exact Hs3]. by eapply safely_trans.
      * destruct (IH acc c2 (proj1 Hs2) Hacc) as [Hs3 Hout].
        split; [|done]. eapply safely_trans; [|exact Hs3]. by eapply safely_trans.
    + destruct (match err with ErrNotFound => true | _ => false end).
      * destruct (createForeign_safely txtData sd discoveryType c1 (proj1 Hs) Hid)
          as [Hs2 Hret2].
        destruct (createForeign txtData sd discoveryType c1) as [[fc'|err'] c2];
          simpl in *.
        -- destruct (IH (acc ++ [fc'])%list c2 (proj1 Hs2)) as [Hs3 Hout].
           { apply Forall_app. split; [done|]. apply Forall_singleton.
             by apply Hret2. }
           split; [|done]. eapply safely_trans; [|exact Hs3].
           by eapply safely_trans.
        -- destruct (IH acc c2 (proj1 Hs2) Hacc) as [Hs3 Hout].
           split; [|done]. eapply safely_trans; [|exact Hs3].
           by eapply safely_trans.
      * destruct (IH acc c1 (proj1 Hs) Hacc) as [Hs3 Hout].
        split; [|done]. by eapply safely_trans.
Qed.

Lemma UpdateForeign_safely (data : list TxtData) (sd : option SearchDomain)
    (c : cluster) :
  foreignOnly (ClusterId discovery) c →
  safely c (UpdateForeign TtlType HasHigherPriority discovery data sd c).2
  ∧ Forall foreign (UpdateForeign TtlType HasHigherPriority discovery data sd c).1.
Proof.
  intros H. unfold UpdateForeign.
  set (dt := match sd with
             | None => LanDiscovery
             | Some _ => WanDiscovery
             end).
  destruct (discover_safely sd dt data [] c H (Forall_nil_2 _)) as [Hs Hout].
  destruct (discover HasHigherPriority discovery sd dt data [] c) as [out c1].
  simpl in *. split; [|done].
  case_bool_decide; [|done].
  eapply safely_trans; [exact Hs|]. apply UpdateTtl_safely, Hs.
Qed.

(** ** The claim *)

(** C9, as the code has it. When the server holds no ForeignCluster carrying
    the local cluster's ID, [UpdateForeign], its TTL pass included and
    whatever requests fail, sends no create and no update of a ForeignCluster
    with that ID, returns no ForeignCluster with that ID, and leaves the
    server without one. *)
Theorem UpdateForeign_spares_local (data : list TxtData)
    (sd : option SearchDomain) (c : cluster) :
  foreignOnly (ClusterId discovery) c →
  never_touches_local TtlType HasHigherPriority discovery data sd c
  ∧ foreignOnly (ClusterId discovery)
      (UpdateForeign TtlType HasHigherPriority discovery data sd c).2.
Proof.
  intros H. destruct (UpdateForeign_safely data sd c H) as [[Hinv (new & E & Hnew)] Hout].
  unfold never_touches_local, sent. cbv zeta. rewrite E.
  rewrite drop_app_length. by repeat split.
Qed.

End Foreign.

(** C9, as the claim states it, fails. The server holds a ForeignCluster of
    the local cluster, found on the LAN, with TTL 1; the local cluster's own
    TXT record is the only input. The loop skips the record, but the TTL pass
    finds the ForeignCluster matching it and updates it. *)
Lemma UpdateForeign_refreshes_local :
  ¬ never_touches_local goInt examplePriority exampleController [localTxt] None
      (exampleCluster [lanCluster "home" "cluster-local" 1]).
Proof.
  intros [H _]. vm_compute in H.
  apply Forall_cons in H as [_ H]. apply Forall_cons in H as [H _].
  discriminate H.
Qed.

Lemma UpdateForeign_spares_local_witness :
  never_touches_local goInt examplePriority exampleController [localTxt; peerTxt] None
    (exampleCluster [lanCluster "old-peer" "cluster-old" 1])
  ∧ foreignOnly "cluster-local"
      (UpdateForeign goInt examplePriority exampleController [localTxt; peerTxt] None
         (exampleCluster [lanCluster "old-peer" "cluster-old" 1])).2.
Proof.
  apply (UpdateForeign_spares_local goInt examplePriority exampleController
           [localTxt; peerTxt] None
           (exampleCluster [lanCluster "old-peer" "cluster-old" 1])).
  apply Forall_singleton. discriminate.
Defined.

(** ** The TTL pass, request by request *)

Section Ttl.

Variable TtlType : intType.

Lemma setTtl_same (fc : ForeignCluster) : setTtl (Ttl fc) fc = fc.
Proof. by destruct fc. Qed.

Lemma answered_cons (txt : TxtData) (rest : list TxtData) (fc : ForeignCluster) :
  answered (txt :: rest) fc
  = bool_decide (ID txt = ClusterID fc) || answered rest fc.
Proof.
  unfold answered. rewrite fmap_cons.
  destruct (bool_decide (ID txt = ClusterID fc)) eqn:E; simpl.
  - apply bool_decide_eq_true in E. apply bool_decide_eq_true_2.
    rewrite E. apply elem_of_cons. by left.
  - apply bool_decide_eq_false in E. apply bool_decide_ext.
    rewrite elem_of_cons. split; [by intros [?|?] | by right].
Qed.

(** A ForeignCluster whose TTL is 3 goes through the scan without a
    request. *)
Lemma ttlScan_fresh (txts : list TxtData) (fc : ForeignCluster) (c : cluster) :
  Ttl fc = 3%Z → ttlScan txts fc c = (answered txts fc, fc, c).
Proof.
  intros Httl. induction txts as [|txt rest IH]; [done|].
  simpl. rewrite answered_cons.
  destruct (bool_decide (ID txt = ClusterID fc)); simpl; [|exact IH].
  by rewrite bool_decide_eq_true_2.
Qed.

(** The scan of the TXT records for one listed ForeignCluster sends at most
    the refresh, whether or not the refresh fails. *)
Lemma ttlScan_eq (txts : list TxtData) (fc : ForeignCluster) (c : cluster) :
  ttlScan txts fc c
  = (answered txts fc,
     (if answered txts fc then setTtl 3 fc else fc),
     (if answered txts fc && negb (bool_decide (Ttl fc = 3%Z))
      then (Update (fcName fc) (setTtl 3 fc) c).2 else c)).
Proof.
  induction txts as [|txt rest IH]; [done|].
  simpl. rewrite answered_cons.
  destruct (bool_decide (ID txt = ClusterID fc)); simpl; [|exact IH].
  destruct (bool_decide (Ttl fc = 3%Z)) eqn:Httl; simpl.
  - apply bool_decide_eq_true in Httl. by rewrite <- Httl, setTtl_same.
  - destruct (Update (fcName fc) (setTtl 3 fc) c) as [[fc'|err] c1]; [done|].
    by rewrite (ttlScan_fresh rest (setTtl 3 fc) c1 eq_refl).
Qed.

(** The TTL pass over the listed ForeignClusters sends, for each of them in
    turn, its one request. *)
Lemma ttlItems_eq (txts : list TxtData) (items : list ForeignCluster)
    (c : cluster) :
  ttlItems TtlType txts items c = foldl (λ c fc, perform (ttlRequest TtlType txts fc) c) c items.
Proof.
  revert c. induction items as [|fc rest IH]; intros c; [done|].
  simpl. rewrite ttlScan_eq, IH. f_equal.
  unfold ttlRequest, decremented. destruct (answered txts fc); simpl.
  - by destruct (bool_decide (Ttl fc = 3%Z)).
  - by destruct (bool_decide (wrapInt TtlType (Ttl fc - 1) ≤ 0)%Z).
Qed.

(** Every client call records its request, and nothing else, in the
    server's log. *)
Lemma Update_requests (name : string) (fc : ForeignCluster) (c : cluster) :
  requests (Update name fc c).2 = (requests c ++ [ReqUpdate name fc])%list.
Proof.
  unfold Update, call. destruct (faults c) as [|[] ?]; simpl; try done;
    destruct (negb _); try done; by destruct (existsb _ _).
Qed.

Lemma Delete_requests (name : string) (c : cluster) :
  requests (Delete name c).2 = (requests c ++ [ReqDelete name])%list.
Proof.
  unfold Delete, call. destruct (faults c) as [|[] ?]; simpl; try done;
    by destruct (existsb _ _).
Qed.

Lemma List_requests (selector : string * string) (c : cluster) :
  requests (List selector c).2 = (requests c ++ [ReqList selector])%list.
Proof. unfold List, call. by destruct (faults c) as [|[] ?]. Qed.

Lemma Create_requests (fc : ForeignCluster) (c : cluster) :
  requests (Create fc c).2 = (requests c ++ [ReqCreate fc])%list.
Proof.
  unfold Create, call. destruct (faults c) as [|[] ?]; simpl; try done;
    by destruct (existsb _ _).
Qed.

Lemma perform_requests (txts : list TxtData) (fc : ForeignCluster) (c : cluster) :
  requests (perform (ttlRequest TtlType txts fc) c)
  = (requests c ++ option_list (ttlRequest TtlType txts fc))%list.
Proof.
  unfold ttlRequest, decremented.
  destruct (answered txts fc); [destruct (bool_decide (Ttl fc = 3%Z))|
                                destruct (bool_decide (wrapInt TtlType (Ttl fc - 1) ≤ 0)%Z)]; simpl.
  - by rewrite app_nil_r.
  - apply Update_requests.
  - apply Delete_requests.
  - apply Update_requests.
Qed.

Lemma ttlItems_requests (txts : list TxtData) (items : list ForeignCluster)
    (c : cluster) :
  requests (ttlItems TtlType txts items c)
  = (requests c ++ omap (ttlRequest TtlType txts) items)%list.
Proof.
  rewrite ttlItems_eq. revert c.
  induction items as [|fc rest IH]; intros c; simpl.
  - by rewrite app_nil_r.
  - rewrite IH, perform_requests.
    destruct (ttlRequest TtlType txts fc); simpl; by rewrite <- app_assoc.
Qed.

(** ** The TTL pass on a server that answers every request *)

Lemma omap_pointwise {A B : Type} (f g : A → option B) (l : list A) :
  (∀ x, f x = g x) → omap f l = omap g l.
Proof.
  intros H. induction l as [|x rest IH]; [done|].
  change (omap f (x :: rest))
    with (from_option (λ y, y :: omap f rest) (omap f rest) (f x)).
  change (omap g (x :: rest))
    with (from_option (λ y, y :: omap g rest) (omap g rest) (g x)).
  by rewrite H, IH.
Qed.

Lemma omap_Some {A : Type} (l : list A) : omap Some l = l.
Proof. induction l as [|x rest IH]; [done|]. simpl. f_equal. exact IH. Qed.

Lemma omap_Some_fmap {A B : Type} (h : A → B) (l : list A) :
  omap (λ x, Some (h x)) l = h <$> l.
Proof. induction l as [|x rest IH]; [done|]. simpl. by f_equal. Qed.

Lemma omap_filter {A : Type} (p : A → bool) (l : list A) :
  omap (λ x, if p x then None else Some x) l = filter (λ x, p x = false) l.
Proof.
  induction l as [|x rest IH]; [done|]. rewrite filter_cons. simpl.
  destruct (p x); simpl.
  - exact IH.
  - f_equal. exact IH.
Qed.

Lemma fmap_untouched (p : ForeignCluster → bool) (fc : ForeignCluster)
    (l : list ForeignCluster) :
  existsb p l = false → (λ old, if p old then fc else old) <$> l = l.
Proof.
  induction l as [|x rest IH]; [done|]. simpl.
  intros [Hx Hrest]%orb_false_elim. rewrite Hx. f_equal. by apply IH.
Qed.

Lemma filter_untouched (p : ForeignCluster → bool) (l : list ForeignCluster) :
  existsb p l = false → filter (λ old, p old = false) l = l.
Proof.
  induction l as [|x rest IH]; [done|]. simpl.
  intros [Hx Hrest]%orb_false_elim. rewrite filter_cons, decide_True by done.
  f_equal. by apply IH.
Qed.

Lemma Update_quiet (name : string) (fc : ForeignCluster) (c : cluster) :
  faults c = [] →
  faults (Update name fc c).2 = []
  ∧ foreignclusters (Update name fc c).2
    = omap (effect (Some (ReqUpdate name fc))) (foreignclusters c).
Proof.
  intros Hq. unfold Update, call. rewrite Hq. simpl.
  destruct (bool_decide (fcName fc = name)) eqn:En; simpl.
  - rewrite (omap_pointwise _ (λ old, Some (if hasName name old then fc else old))).
    2: { intros old. unfold effect. rewrite En. by destruct (hasName name old). }
    rewrite omap_Some_fmap.
    destruct (existsb (hasName name) (foreignclusters c)) eqn:E; simpl.
    + done.
    + split; [done|]. symmetry. by apply fmap_untouched.
  - rewrite (omap_pointwise _ Some).
    2: { intros old. unfold effect. by rewrite En. }
    by rewrite omap_Some.
Qed.

Lemma Delete_quiet (name : string) (c : cluster) :
  faults c = [] →
  faults (Delete name c).2 = []
  ∧ foreignclusters (Delete name c).2
    = omap (effect (Some (ReqDelete name))) (foreignclusters c).
Proof.
  intros Hq. unfold Delete, call. rewrite Hq. simpl.
  rewrite (omap_pointwise _ (λ old, if hasName name old then None else Some old))
    by done.
  rewrite omap_filter.
  destruct (existsb (hasName name) (foreignclusters c)) eqn:E; simpl.
  - done.
  - split; [done|]. symmetry. by apply filter_untouched.
Qed.

Lemma perform_quiet (txts : list TxtData) (fc : ForeignCluster) (c : cluster) :
  faults c = [] →
  faults (perform (ttlRequest TtlType txts fc) c) = []
  ∧ foreignclusters (perform (ttlRequest TtlType txts fc) c)
    = omap (effect (ttlRequest TtlType txts fc)) (foreignclusters c).
Proof.
  intros Hq.
  assert (omap (effect None) (foreignclusters c) = foreignclusters c) as Hid
    by apply omap_Some.
  unfold ttlRequest, decremented.
  destruct (answered txts fc); [destruct (bool_decide (Ttl fc = 3%Z))|
                                destruct (bool_decide (wrapInt TtlType (Ttl fc - 1) ≤ 0)%Z)]; simpl.
  - by rewrite Hid.
  - by apply Update_quiet.
  - by apply Delete_quiet.
  - by apply Update_quiet.
Qed.

Lemma omap_cons {A B : Type} (f : A → option B) (x : A) (l : list A) :
  omap f (x :: l) = from_option (λ y, y :: omap f l) (omap f l) (f x).
Proof. reflexivity. Qed.

Lemma omap_omap {A B C : Type} (f : A → option B) (g : B → option C)
    (l : list A) :
  omap g (omap f l) = omap (λ x, f x ≫= g) l.
Proof.
  induction l as [|x rest IH]; [done|].
  rewrite (omap_cons f), (omap_cons (λ x, f x ≫= g)).
  destruct (f x) as [y|]; cbn [from_option mbind option_bind]; [|exact IH].
  rewrite (omap_cons g). by rewrite IH.
Qed.

(** On a server that answers every request, the TTL pass maps each stored
    ForeignCluster through the effects of the requests, one listed
    ForeignCluster after the other. *)
Lemma ttlItems_quiet (txts : list TxtData) (items : list ForeignCluster)
    (c : cluster) :
  faults c = [] →
  foreignclusters (ttlItems TtlType txts items c)
  = omap (λ old, foldl (λ o fc, o ≫= effect (ttlRequest TtlType txts fc)) (Some old) items)
      (foreignclusters c).
Proof.
  rewrite ttlItems_eq. revert c.
  induction items as [|fc rest IH]; intros c Hq; simpl.
  - by rewrite omap_Some.
  - destruct (perform_quiet txts fc c Hq) as [Hq1 Hfc1].
    rewrite (IH _ Hq1), Hfc1, omap_omap.
    apply omap_pointwise. intros old.
    destruct (effect (ttlRequest TtlType txts fc) old) as [old'|]; simpl; [done|].
    clear. induction rest as [|i rest IH]; [done|]. exact IH.
Qed.

Lemma effect_other (txts : list TxtData) (fc old : ForeignCluster) :
  fcName fc ≠ fcName old → effect (ttlRequest TtlType txts fc) old = Some old.
Proof.
  intros Hne. assert (hasName (fcName fc) old = false) as Hn.
  { unfold hasName. apply bool_decide_eq_false_2. congruence. }
  unfold ttlRequest, decremented.
  destruct (answered txts fc); [destruct (bool_decide (Ttl fc = 3%Z))|
                                destruct (bool_decide (wrapInt TtlType (Ttl fc - 1) ≤ 0)%Z)];
    simpl; rewrite ?Hn, ?andb_false_r; done.
Qed.

Lemma effect_self (txts : list TxtData) (fc : ForeignCluster) :
  effect (ttlRequest TtlType txts fc) fc = aged TtlType txts fc.
Proof.
  assert (hasName (fcName fc) fc = true) as Hn.
  { unfold hasName. by apply bool_decide_eq_true_2. }
  unfold ttlRequest, aged, decremented.
  destruct (answered txts fc).
  - destruct (bool_decide (Ttl fc = 3%Z)) eqn:E; simpl.
    + apply bool_decide_eq_true in E. by rewrite <- E, setTtl_same.
    + rewrite Hn. by rewrite bool_decide_eq_true_2.
  - destruct (bool_decide (wrapInt TtlType (Ttl fc - 1) ≤ 0)%Z); simpl; rewrite Hn; [done|].
    by rewrite bool_decide_eq_true_2.
Qed.

Lemma aged_name (txts : list TxtData) (fc fc' : ForeignCluster) :
  aged TtlType txts fc = Some fc' → fcName fc' = fcName fc.
Proof.
  unfold aged, decremented. destruct (answered txts fc); [by intros [= <-]|].
  destruct (bool_decide _); [done | by intros [= <-]].
Qed.

Lemma passes_others (txts : list TxtData) (items : list ForeignCluster)
    (old : ForeignCluster) :
  (∀ fc, fc ∈ items → fcName fc ≠ fcName old) →
  foldl (λ o fc, o ≫= effect (ttlRequest TtlType txts fc)) (Some old) items = Some old.
Proof.
  induction items as [|i rest IH]; intros Hne; [done|]. simpl.
  rewrite effect_other by (apply Hne, elem_of_cons; by left).
  apply IH. intros fc Hin. apply Hne, elem_of_cons. by right.
Qed.

Lemma passes_None (txts : list TxtData) (items : list ForeignCluster) :
  foldl (λ o fc, o ≫= effect (ttlRequest TtlType txts fc)) None items = None.
Proof. induction items as [|i rest IH]; [done | exact IH]. Qed.

Lemma passes_member (txts : list TxtData) (items : list ForeignCluster)
    (old : ForeignCluster) :
  NoDup (fcName <$> items) → old ∈ items →
  foldl (λ o fc, o ≫= effect (ttlRequest TtlType txts fc)) (Some old) items
  = aged TtlType txts old.
Proof.
  induction items as [|i rest IH]; intros Hnd Hin; [by apply elem_of_nil in Hin|].
  rewrite fmap_cons in Hnd. apply NoDup_cons in Hnd as [Hi Hnd].
  assert (∀ fc, fc ∈ rest → fcName fc ≠ fcName i) as Hrest.
  { intros fc Hfc Heq. apply Hi. rewrite <- Heq. by apply list_elem_of_fmap_2. }
  simpl. apply elem_of_cons in Hin as [->|Hin].
  - rewrite effect_self. destruct (aged TtlType txts i) as [i'|] eqn:E.
    + apply passes_others. intros fc Hfc. rewrite (aged_name _ _ _ E).
      by apply Hrest.
    + apply passes_None.
  - rewrite effect_other; [by apply IH|].
    intros Heq. by apply (Hrest old Hin).
Qed.

(** ForeignClusters with distinct names: one of a given name at most. *)
Lemma names_distinct (l : list ForeignCluster) (x y : ForeignCluster) :
  NoDup (fcName <$> l) → x ∈ l → y ∈ l → fcName x = fcName y → x = y.
Proof.
  induction l as [|z rest IH]; intros Hnd Hx Hy Heq; [by apply elem_of_nil in Hx|].
  rewrite fmap_cons in Hnd. apply NoDup_cons in Hnd as [Hz Hnd].
  apply elem_of_cons in Hx as [->|Hx], Hy as [->|Hy]; [done| | |by apply IH].
  - exfalso. apply Hz. rewrite Heq. by apply list_elem_of_fmap_2.
  - exfalso. apply Hz. rewrite <- Heq. by apply list_elem_of_fmap_2.
Qed.

(** On a server that answers every request and stores no two
    ForeignClusters of one name, the TTL pass turns every stored
    ForeignCluster into [afterTtl] of it. *)
Lemma UpdateTtl_quiet (txts : list TxtData) (c : cluster) :
  faults c = [] → NoDup (names c) →
  (UpdateTtl TtlType txts c).1 = None
  ∧ foreignclusters (UpdateTtl TtlType txts c).2
    = omap (afterTtl TtlType txts) (foreignclusters c).
Proof.
  intros Hq Hnd. unfold UpdateTtl, List, call. rewrite Hq. simpl.
  split; [done|]. rewrite ttlItems_quiet by done. simpl.
  set (items := filter _ (foreignclusters c)).
  assert (NoDup (fcName <$> items)) as Hitems.
  { unfold names in Hnd. subst items.
    induction (foreignclusters c) as [|x rest IH]; [constructor|].
    rewrite fmap_cons in Hnd. apply NoDup_cons in Hnd as [Hx Hnd].
    rewrite filter_cons. destruct (decide _); [|by apply IH].
    rewrite fmap_cons. apply NoDup_cons. split; [|by apply IH].
    intros (y & Hy & [_ Hin]%list_elem_of_filter)%list_elem_of_fmap.
    apply Hx. rewrite Hy. by apply list_elem_of_fmap_2. }
  assert (∀ old, old ∈ foreignclusters c →
            foldl (λ o fc, o ≫= effect (ttlRequest TtlType txts fc)) (Some old) items
            = afterTtl TtlType txts old) as Hpoint.
  { intros old Hold. unfold afterTtl.
    destruct (matches ("discovery-type", "LAN") old) eqn:Hlan.
    - apply passes_member; [done|]. subst items.
      apply list_elem_of_filter. by split.
    - apply passes_others. intros fc [Hfc Hin]%list_elem_of_filter Heq.
      assert (fc = old) as -> by (by apply (names_distinct (foreignclusters c))).
      congruence. }
  clearbody items. clear Hitems Hnd.
  induction (foreignclusters c) as [|x rest IH]; [done|].
  rewrite !omap_cons.
  rewrite Hpoint by (apply elem_of_cons; by left).
  rewrite IH; [done|]. intros old Hold. apply Hpoint, elem_of_cons. by right.
Qed.

(** The decrement is exact on every TTL of the type but its least value,
    where it wraps around to the greatest. *)
Lemma decremented_exact (fc : ForeignCluster) :
  (0 < bits TtlType)%Z →
  (if signed TtlType
   then - 2 ^ (bits TtlType - 1) < Ttl fc ≤ 2 ^ (bits TtlType - 1)
   else 0 < Ttl fc ≤ 2 ^ bits TtlType)%Z →
  decremented TtlType fc = (Ttl fc - 1)%Z.
Proof.
  intros Hbits. unfold decremented, wrapInt.
  assert (2 ^ bits TtlType = 2 * 2 ^ (bits TtlType - 1))%Z as Hpow.
  { rewrite <- Z.pow_succ_r by lia. f_equal. lia. }
  destruct (signed TtlType); intros Hrange.
  - rewrite Z.mod_small by lia. lia.
  - rewrite Z.mod_small by lia. lia.
Qed.

Lemma decremented_least (fc : ForeignCluster) :
  (0 < bits TtlType)%Z →
  Ttl fc = (if signed TtlType then - 2 ^ (bits TtlType - 1) else 0)%Z →
  decremented TtlType fc
  = (if signed TtlType then 2 ^ (bits TtlType - 1) - 1
     else 2 ^ bits TtlType - 1)%Z.
Proof.
  intros Hbits. unfold decremented, wrapInt.
  assert (2 ^ bits TtlType = 2 * 2 ^ (bits TtlType - 1))%Z as Hpow.
  { rewrite <- Z.pow_succ_r by lia. f_equal. lia. }
  assert (0 < 2 ^ (bits TtlType - 1))%Z as Hpos.
  { apply Z.pow_pos_nonneg; lia. }
  destruct (signed TtlType); intros ->.
  - replace (- 2 ^ (bits TtlType - 1) - 1 + 2 ^ (bits TtlType - 1))%Z
      with (2 ^ bits TtlType - 1 + (-1) * 2 ^ bits TtlType)%Z by lia.
    rewrite Z_mod_plus_full, Z.mod_small by lia. lia.
  - replace (0 - 1)%Z
      with (2 ^ bits TtlType - 1 + (-1) * 2 ^ bits TtlType)%Z by lia.
    rewrite Z_mod_plus_full, Z.mod_small by lia. lia.
Qed.

(** X1. The TTL pass sends one list request and then, for each listed
    ForeignCluster in listing order, at most one request: none when its
    cluster answered and its TTL is 3, an update to TTL 3 when it answered
    with another TTL, a delete when it did not answer and its TTL,
    decremented in the integer type of the field, is 0 or below, an update
    to the decremented TTL otherwise. The decrement wraps around: a TTL that
    is the least value of a signed type, or 0 of an unsigned one, becomes
    the greatest value and is sent as an update. This holds whatever
    requests fail: a failed refresh is not sent again. When the list request
    fails nothing else is sent. *)
Theorem UpdateTtl_sends (txts : list TxtData) (c : cluster) :
  requests (UpdateTtl TtlType txts c).2
  = (requests c
     ++ ReqList ("discovery-type", "LAN")
        :: match faults c with
           | true :: _ => []
           | _ =>
               omap (ttlRequest TtlType txts)
                 (filter (λ fc, matches ("discovery-type", "LAN") fc = true)
                    (foreignclusters c))
           end)%list.
Proof.
  unfold UpdateTtl, List, call.
  destruct (faults c) as [|[] rest]; simpl; [|done|];
    rewrite ttlItems_requests; simpl; by rewrite <- app_assoc.
Qed.

(** X2. On a server that answers every request and stores no two
    ForeignClusters of one name, the TTL pass returns nil and turns the
    stored ForeignClusters, in place, into: TTL 3 for a LAN ForeignCluster
    whose cluster answered; removed for a LAN ForeignCluster whose cluster
    did not answer and whose TTL, decremented in the integer type of the
    field, is 0 or below; TTL decremented for the other LAN ForeignClusters;
    unchanged for those without the LAN label. The decrement wraps around:
    a LAN ForeignCluster whose TTL is the least value of a signed type, or 0
    of an unsigned one, is not removed but kept with the greatest value. *)
Theorem UpdateTtl_ages (txts : list TxtData) (c : cluster) :
  faults c = [] → NoDup (names c) →
  (UpdateTtl TtlType txts c).1 = None
  ∧ foreignclusters (UpdateTtl TtlType txts c).2
    = omap (afterTtl TtlType txts) (foreignclusters c).
Proof. apply UpdateTtl_quiet. Qed.

(** X3. Under the same conditions, every ForeignCluster stored after the TTL
    pass was stored before and differs from it at most in its TTL; one
    without the LAN label is left as it was; and every LAN ForeignCluster
    left has a positive TTL, 3 when its cluster answered. *)
Theorem UpdateTtl_leaves_positive (txts : list TxtData) (c : cluster) :
  faults c = [] → NoDup (names c) →
  (∀ fc, fc ∈ foreignclusters (UpdateTtl TtlType txts c).2 →
     (∃ old, old ∈ foreignclusters c ∧ sameButTtl old fc)
     ∧ (matches ("discovery-type", "LAN") fc = true →
        (0 < Ttl fc)%Z ∧ (answered txts fc = true → Ttl fc = 3%Z)))
  ∧ (∀ old, old ∈ foreignclusters c →
       matches ("discovery-type", "LAN") old = false →
       old ∈ foreignclusters (UpdateTtl TtlType txts c).2).
Proof.
  intros Hq Hnd. destruct (UpdateTtl_quiet txts c Hq Hnd) as [_ ->]. split.
  - intros fc (old & Hold & Hstep)%list_elem_of_omap. unfold afterTtl, aged, decremented in Hstep.
    destruct (matches ("discovery-type", "LAN") old) eqn:Hlan.
    + destruct (answered txts old) eqn:Hans.
      * injection Hstep as <-. split.
        -- exists old. split; [done|]. unfold sameButTtl. by destruct old.
        -- intros _. split; [done|]. done.
      * case_bool_decide as Httl; [done|]. injection Hstep as <-. split.
        -- exists old. split; [done|]. unfold sameButTtl. by destruct old.
        -- intros _. split; [simpl; lia|]. intros Hans'.
           unfold answered in *. simpl in Hans'. congruence.
    + injection Hstep as <-. split.
      * exists old. split; [done|]. unfold sameButTtl. by destruct old.
      * congruence.
  - intros old Hold Hlan. apply list_elem_of_omap. exists old. split; [done|].
    unfold afterTtl. by rewrite Hlan.
Qed.

End Ttl.

Lemma UpdateTtl_ages_witness :
  (UpdateTtl goInt [peerTxt] threeClusters).1 = None
  ∧ foreignclusters (UpdateTtl goInt [peerTxt] threeClusters).2
    = omap (afterTtl goInt [peerTxt]) (foreignclusters threeClusters).
Proof.
  apply (UpdateTtl_ages goInt [peerTxt] threeClusters); [reflexivity|].
  apply (bool_decide_unpack _). vm_compute. exact I.
Defined.

(** With a Go [int] for the TTL, a cluster that did not answer and whose
    TTL is the least [int] is not deleted: it is updated to the greatest;
    with a [uint32], the same happens at TTL 0. *)
Lemma UpdateTtl_at_least_value :
  foreignclusters
    (UpdateTtl goInt []
       (exampleCluster [lanCluster "gone" "cluster-gone" (- 2 ^ 63)])).2
  = [lanCluster "gone" "cluster-gone" (2 ^ 63 - 1)]
  ∧ foreignclusters
      (UpdateTtl goUint32 []
         (exampleCluster [lanCluster "gone" "cluster-gone" 0])).2
    = [lanCluster "gone" "cluster-gone" (2 ^ 32 - 1)]
  ∧ foreignclusters
      (UpdateTtl goInt []
         (exampleCluster [lanCluster "gone" "cluster-gone" 0])).2
    = [].
Proof. repeat split; vm_compute; reflexivity. Qed.

Lemma UpdateTtl_leaves_positive_witness :
  (∀ fc, fc ∈ foreignclusters (UpdateTtl goInt [peerTxt] threeClusters).2 →
     (∃ old, old ∈ foreignclusters threeClusters ∧ sameButTtl old fc)
     ∧ (matches ("discovery-type", "LAN") fc = true →
        (0 < Ttl fc)%Z ∧ (answered [peerTxt] fc = true → Ttl fc = 3%Z)))
  ∧ (∀ old, old ∈ foreignclusters threeClusters →
       matches ("discovery-type", "LAN") old = false →
       old ∈ foreignclusters (UpdateTtl goInt [peerTxt] threeClusters).2).
Proof.
  apply (UpdateTtl_leaves_positive goInt [peerTxt] threeClusters); [reflexivity|].
  apply (bool_decide_unpack _). vm_compute. exact I.
Defined.


(** ** Lookup, creation and update of one ForeignCluster *)

Section Steps.

Variable TtlType : intType.
Variable HasHigherPriority : ForeignCluster → DiscoveryType → bool.
Variable discovery : DiscoveryCtrl.

(** The first element kept by a filter. *)
Lemma filter_first {A : Type} (P : A → Prop) `{∀ x, Decision (P x)}
    (l : list A) (x : A) (rest : list A) :
  filter P l = x :: rest →
  ∃ before after, l = (before ++ x :: after)%list ∧ P x ∧ Forall (λ y, ¬ P y) before.
Proof.
  induction l as [|y l IH]; [done|]. rewrite filter_cons.
  destruct (decide (P y)) as [Hy|Hy].
  - intros [= -> _]. exists [], l. by repeat split.
  - intros (before & after & -> & Hx & Hb)%IH.
    exists (y :: before), after. repeat split; [done|]. by constructor.
Qed.

Lemma filter_none {A : Type} (P : A → Prop) `{∀ x, Decision (P x)} (l : list A) :
  filter P l = [] ↔ Forall (λ y, ¬ P y) l.
Proof.
  induction l as [|y l IH]; [done|]. rewrite filter_cons.
  destruct (decide (P y)) as [Hy|Hy].
  - split; [done|]. by intros [? _]%Forall_cons.
  - rewrite IH. split; [by constructor | by intros [_ ?]%Forall_cons].
Qed.

(** X4. [GetForeignClusterByID] only reads. When it returns a
    ForeignCluster, that is the first stored one labelled with the cluster
    ID; it answers not-found only when no stored ForeignCluster carries the
    label (a failed list request is answered with its own error), and it does
    so whenever the list request does not fail and none carries the label. *)
Theorem GetForeignClusterByID_first (clusterID : string) (c : cluster) :
  foreignclusters (GetForeignClusterByID clusterID c).2 = foreignclusters c
  ∧ (∀ fc, (GetForeignClusterByID clusterID c).1 = inl fc →
       ∃ before after,
         foreignclusters c = (before ++ fc :: after)%list
         ∧ Labels fc !! "cluster-id" = Some clusterID
         ∧ Forall (λ o, Labels o !! "cluster-id" ≠ Some clusterID) before)
  ∧ ((GetForeignClusterByID clusterID c).1 = inr ErrNotFound →
     Forall (λ o, Labels o !! "cluster-id" ≠ Some clusterID) (foreignclusters c))
  ∧ (faults c = [] →
     Forall (λ o, Labels o !! "cluster-id" ≠ Some clusterID) (foreignclusters c) →
     (GetForeignClusterByID clusterID c).1 = inr ErrNotFound).
Proof.
  assert (∀ l : list ForeignCluster,
            Forall (λ y, ¬ matches ("cluster-id", clusterID) y = true) l
            ↔ Forall (λ o, Labels o !! "cluster-id" ≠ Some clusterID) l) as Hsame.
  { intros l. apply Forall_proper; [|done]. intros o. unfold matches. simpl.
    by rewrite bool_decide_eq_true. }
  unfold GetForeignClusterByID, List, call.
  destruct (faults c) as [|[] rest]; simpl.
  - destruct (filter _ (foreignclusters c)) as [|fc items] eqn:E; simpl.
    + apply filter_none in E. repeat split; try done; intros; by apply Hsame.
    + apply filter_first in E as (before & after & E & Hfc & Hb).
      apply bool_decide_eq_true in Hfc. repeat split; try done.
      * intros fc' [= <-]. exists before, after. repeat split; try done.
        by apply Hsame.
      * intros _ Hall. rewrite E in Hall.
        apply Forall_app in Hall as [_ [Hno _]%Forall_cons]. done.
  - repeat split; done.
  - destruct (filter _ (foreignclusters c)) as [|fc items] eqn:E; simpl.
    + apply filter_none in E. repeat split; try done; intros; by apply Hsame.
    + apply filter_first in E as (before & after & E & Hfc & Hb).
      apply bool_decide_eq_true in Hfc. repeat split; try done.
      intros fc' [= <-]. exists before, after. repeat split; try done.
      by apply Hsame.
Qed.

Lemma Create_outcome (fc : ForeignCluster) (c : cluster) :
  match (Create fc c).1 with
  | inl fc' =>
      fc' = fc
      ∧ (fcName fc ∉ names c)
      ∧ foreignclusters (Create fc c).2 = (foreignclusters c ++ [fc])%list
  | inr _ => foreignclusters (Create fc c).2 = foreignclusters c
  end.
Proof.
  unfold Create, call.
  assert (existsb (hasName (fcName fc)) (foreignclusters c) = false →
          fcName fc ∉ names c) as Hfresh.
  { unfold names. induction (foreignclusters c) as [|x l IH]; simpl.
    - intros _. apply not_elem_of_nil.
    - intros [Hx Hl]%orb_false_elim. rewrite elem_of_cons. intros [Heq|Hin].
      + unfold hasName in Hx. by apply bool_decide_eq_false in Hx.
      + by apply IH. }
  destruct (faults c) as [|[] rest]; simpl; try done;
    destruct (existsb _ _) eqn:E; simpl; try done; by repeat split; auto.
Qed.

(** X5. When [createForeign] succeeds, the name of the new ForeignCluster
    was free and the server stores, after the ones it had, exactly the
    ForeignCluster returned: named after and identified by the record's ID,
    without labels, with TTL 3 on the LAN and 0 otherwise, joined and owned
    as the search domain says. When it fails the stored ForeignClusters are
    as before. *)
Theorem createForeign_appends (txtData : TxtData) (sd : option SearchDomain)
    (discoveryType : DiscoveryType) (c : cluster) :
  match (createForeign txtData sd discoveryType c).1 with
  | inl fc =>
      foreignclusters (createForeign txtData sd discoveryType c).2
      = (foreignclusters c ++ [fc])%list
      ∧ (ID txtData ∉ names c)
      ∧ fcName fc = ID txtData
      ∧ ClusterID fc = ID txtData
      ∧ ClusterName fc = Name txtData
      ∧ SpecApiUrl fc = ApiUrl txtData
      ∧ SpecNamespace fc = Namespace txtData
      ∧ Labels fc = ∅
      ∧ Ttl fc = (if bool_decide (discoveryType = LanDiscovery) then 3 else 0)%Z
      ∧ Join fc = from_option AutoJoin false sd
      ∧ OwnerReferences fc
        = (λ s, mkOwnerReference "discovery.liqo.io/v1alpha1" "SearchDomain"
                  (sdName s) (sdUID s)) <$> option_list sd
  | inr _ =>
      foreignclusters (createForeign txtData sd discoveryType c).2
      = foreignclusters c
  end.
Proof.
  unfold createForeign.
  match goal with
  | |- context [Create ?fc c] =>
      pose proof (Create_outcome fc c) as Hc;
      destruct (Create fc c) as [[fc'|err] c1]
  end; simpl in *; [|done].
  destruct Hc as (-> & Hfresh & ->).
  destruct sd; case_bool_decide; simpl in *; by repeat split.
Qed.

Lemma existsb_hasName (name : string) (l : list ForeignCluster) :
  existsb (hasName name) l = bool_decide (name ∈ fcName <$> l).
Proof.
  induction l as [|x l IH].
  - symmetry. apply bool_decide_eq_false_2, not_elem_of_nil.
  - cbn [existsb]. rewrite fmap_cons, IH. unfold hasName.
    destruct (bool_decide (fcName x = name)) eqn:E; simpl.
    + apply bool_decide_eq_true in E. symmetry. apply bool_decide_eq_true_2.
      apply elem_of_cons. by left.
    + apply bool_decide_eq_false in E. apply bool_decide_ext.
      rewrite elem_of_cons. split; [by right | by intros [?|?]].
Qed.

Lemma GetForeignClusterByID_quiet_none (clusterID : string) (c : cluster) :
  faults c = [] →
  Forall (λ o, Labels o !! "cluster-id" ≠ Some clusterID) (foreignclusters c) →
  GetForeignClusterByID clusterID c
  = (inr ErrNotFound, (call (ReqList ("cluster-id", clusterID)) c).2).
Proof.
  intros Hq Hnone. unfold GetForeignClusterByID, List, call. rewrite Hq. simpl.
  assert (filter (λ fc, matches ("cluster-id", clusterID) fc = true)
            (foreignclusters c) = []) as ->; [|done].
  apply filter_none. eapply Forall_impl; [exact Hnone|].
  intros o Ho. unfold matches. simpl. by rewrite bool_decide_eq_true.
Qed.

Lemma Create_quiet (fc : ForeignCluster) (c : cluster) :
  faults c = [] →
  Create fc c
  = if existsb (hasName (fcName fc)) (foreignclusters c)
    then (inr ErrAlreadyExists, (call (ReqCreate fc) c).2)
    else (inl fc,
          setForeignclusters (foreignclusters c ++ [fc])
            (call (ReqCreate fc) c).2).
Proof. intros Hq. unfold Create, call. by rewrite Hq. Qed.

(** [createForeign] sends the creation of a ForeignCluster that depends on
    the record, the search domain and the discovery type only. *)
Lemma createForeign_sends (txtData : TxtData) (sd : option SearchDomain)
    (discoveryType : DiscoveryType) :
  ∃ b, fcName b = ID txtData ∧ Labels b = ∅
       ∧ ∀ c, createForeign txtData sd discoveryType c = Create b c.
Proof.
  assert (∀ x : (ForeignCluster + error) * cluster,
            match x with
            | (inr err, c) => (inr err, c)
            | (inl fc, c) => (inl fc, c)
            end = x) as Hpair by (by intros [[?|?] ?]).
  eexists. split; [|split]; cycle 2.
  - intros c. unfold createForeign. rewrite Hpair. reflexivity.
  - by destruct sd, (bool_decide (discoveryType = LanDiscovery)).
  - by destruct sd, (bool_decide (discoveryType = LanDiscovery)).
Qed.

(** X6. Discovering an unknown cluster twice through a search domain, on a
    server that answers every request: the first round creates the
    ForeignCluster and returns it; as that ForeignCluster carries no
    cluster-id label, the second round does not find it, tries to create it
    again, is refused, returns nothing and leaves the stored ForeignClusters
    as they were. *)
Theorem UpdateForeign_second_round (txtData : TxtData) (s : SearchDomain)
    (c : cluster) :
  faults c = [] →
  ID txtData ≠ ClusterId discovery →
  Forall (λ o, Labels o !! "cluster-id" ≠ Some (ID txtData)) (foreignclusters c) →
  ID txtData ∉ names c →
  let first := UpdateForeign TtlType HasHigherPriority discovery [txtData] (Some s) c in
  let second :=
    UpdateForeign TtlType HasHigherPriority discovery [txtData] (Some s) first.2 in
  ∃ fc,
    first.1 = [fc]
    ∧ foreignclusters first.2 = (foreignclusters c ++ [fc])%list
    ∧ second.1 = []
    ∧ sent first.2 second.2 = [ReqList ("cluster-id", ID txtData); ReqCreate fc]
    ∧ foreignclusters second.2 = foreignclusters first.2.
Proof.
  intros Hq Hid Hnone Hfresh.
  destruct (createForeign_sends txtData (Some s) WanDiscovery)
    as (b & Hname & Hlabels & Hcreate).
  assert (∀ c0, faults c0 = [] →
            Forall (λ o, Labels o !! "cluster-id" ≠ Some (ID txtData))
              (foreignclusters c0) →
            discover HasHigherPriority discovery (Some s) WanDiscovery
              [txtData] [] c0
            = match Create b (call (ReqList ("cluster-id", ID txtData)) c0).2 with
              | (inl fc, c2) => ([fc], c2)
              | (inr _, c2) => ([], c2)
              end) as Hround.
  { intros c0 Hq0 Hnone0. simpl. rewrite bool_decide_eq_false_2 by done.
    rewrite (GetForeignClusterByID_quiet_none _ _ Hq0 Hnone0). simpl.
    rewrite Hcreate.
    by destruct (Create b _) as [[fc|err] c2]. }
  unfold UpdateForeign. cbv zeta.
  rewrite (Hround c Hq Hnone).
  assert (∀ c0, faults c0 = [] →
            faults (call (ReqList ("cluster-id", ID txtData)) c0).2 = [])
    as Hcall by (intros c0 Hq0; simpl; by rewrite Hq0).
  pose proof (Create_quiet b _ (Hcall c Hq)) as Hc1.
  rewrite existsb_hasName in Hc1.
  change (foreignclusters (call _ c).2) with (foreignclusters c) in Hc1.
  rewrite Hname in Hc1.
  rewrite bool_decide_eq_false_2 in Hc1 by exact Hfresh.
  rewrite Hc1. cbn [fst snd].
  rewrite !(bool_decide_eq_false_2 (WanDiscovery = LanDiscovery)) by done.
  match goal with
  | |- context [discover _ _ _ _ _ _ ?c1] => set (c1' := c1)
  end.
  assert (faults c1' = []) as Hq1 by (subst c1'; simpl; by rewrite Hq).
  assert (Forall (λ o, Labels o !! "cluster-id" ≠ Some (ID txtData))
            (foreignclusters c1')) as Hnone1.
  { subst c1'. simpl. apply Forall_app. split; [done|].
    apply Forall_singleton. by rewrite Hlabels. }
  rewrite (Hround c1' Hq1 Hnone1).
  pose proof (Create_quiet b _ (Hcall c1' Hq1)) as Hc2.
  rewrite existsb_hasName in Hc2.
  change (foreignclusters (call _ c1').2) with (foreignclusters c1') in Hc2.
  rewrite Hname in Hc2. rewrite bool_decide_eq_true_2 in Hc2.
  2: { unfold c1'. simpl. rewrite fmap_app. apply elem_of_app. right.
       rewrite <- Hname. apply elem_of_cons. by left. }
  rewrite Hc2. simpl. exists b. repeat split.
  unfold sent, c1'. simpl.
  rewrite <- (app_assoc ((requests c ++ [ReqList ("cluster-id", ID txtData)])
                           ++ [ReqCreate b])%list).
  by rewrite drop_app_length.
Qed.

Lemma Update_success (name : string) (fc : ForeignCluster) (c : cluster) :
  secrets (Update name fc c).2 = secrets c
  ∧ advertisements (Update name fc c).2 = advertisements c
  ∧ ∀ fc', (Update name fc c).1 = inl fc' →
      fc' = fc ∧ fc ∈ foreignclusters (Update name fc c).2.
Proof.
  unfold Update. destruct (call (ReqUpdate name fc) c) as [bad c1] eqn:E.
  assert (secrets c1 = secrets c ∧ advertisements c1 = advertisements c
          ∧ foreignclusters c1 = foreignclusters c) as (Hs & Ha & Hf).
  { unfold call in E. by injection E as _ <-. }
  destruct bad; [by repeat split|].
  destruct (negb _); [by repeat split|].
  destruct (existsb _ _) eqn:Ex; [|by repeat split].
  split; [done|]. split; [done|]. intros fc' [= <-]. split; [done|]. simpl.
  apply existsb_exists in Ex as (old & Hold & Hn).
  apply list_elem_of_fmap. exists old. rewrite Hn. split; [done|].
  by apply list_elem_of_In.
Qed.

Lemma DeleteSecret_success (namespace name : string) (c : cluster) :
  foreignclusters (DeleteSecret namespace name c).2 = foreignclusters c
  ∧ advertisements (DeleteSecret namespace name c).2 = advertisements c
  ∧ ((DeleteSecret namespace name c).1 = None →
     (namespace, name) ∉ secrets (DeleteSecret namespace name c).2).
Proof.
  unfold DeleteSecret, call. destruct (faults c) as [|[] rest]; simpl;
    try done; case_bool_decide; simpl; repeat split; try done;
    intros _ [Hne _]%list_elem_of_filter; done.
Qed.

Lemma DeleteAdvertisement_success (name : string) (c : cluster) :
  foreignclusters (DeleteAdvertisement name c).2 = foreignclusters c
  ∧ secrets (DeleteAdvertisement name c).2 = secrets c
  ∧ ((DeleteAdvertisement name c).1 = None →
     name ∉ advertisements (DeleteAdvertisement name c).2).
Proof.
  unfold DeleteAdvertisement, call. destruct (faults c) as [|[] rest]; simpl;
    try done; case_bool_decide; simpl; repeat split; try done;
    intros _ [Hne _]%list_elem_of_filter; done.
Qed.

(** The changing branch of [CheckUpdate], from the ForeignCluster [fc1]
    that carries the new endpoint. *)
Lemma CheckUpdate_changed (txtData : TxtData) (fc fc1 fc' : ForeignCluster)
    (discoveryType : DiscoveryType) (c : cluster) :
  SpecApiUrl fc1 = ApiUrl txtData ∧ SpecNamespace fc1 = Namespace txtData
  ∧ fcName fc1 = fcName fc ∧ Labels fc1 = Labels fc
  ∧ ClusterID fc1 = ClusterID fc ∧ ClusterName fc1 = ClusterName fc
  ∧ Ttl fc1 = Ttl fc ∧ SpecDiscoveryType fc1 = discoveryType
  ∧ CaDataRef fc1 = CaDataRef fc ∧ Advertisement fc1 = Advertisement fc →
  let result :=
    match
      match CaDataRef fc1 with
      | Some r => DeleteSecret (refNamespace r) (refName r) c
      | None => (None, c)
      end
    with
    | (Some err, c) => (inr err, c)
    | (None, c) =>
        let fc := setCaDataRef None fc1 in
        match Update (fcName fc) fc c with
        | (inr err, c) => (inr err, c)
        | (inl fc, c) =>
            match Advertisement fc with
            | Some adv =>
                let advName := refName adv in
                let fc := setAdvertisement None fc in
                match Update (fcName fc) fc c with
                | (inr err, c) => (inr err, c)
                | (inl fc, c) =>
                    match DeleteAdvertisement advName c with
                    | (Some err, c) => (inr err, c)
                    | (None, c) => (inl fc, c)
                    end
                end
            | None => (inl fc, c)
            end
        end
    end in
  result.1 = inl fc' →
  SpecApiUrl fc' = ApiUrl txtData
  ∧ SpecNamespace fc' = Namespace txtData
  ∧ fcName fc' = fcName fc
  ∧ Labels fc' = Labels fc
  ∧ ClusterID fc' = ClusterID fc
  ∧ ClusterName fc' = ClusterName fc
  ∧ Ttl fc' = Ttl fc
  ∧ ((fc' = fc ∧ result.2 = c)
     ∨ (fc' ∈ foreignclusters result.2
        ∧ SpecDiscoveryType fc' = discoveryType
        ∧ CaDataRef fc' = None
        ∧ Advertisement fc' = None
        ∧ (∀ r, CaDataRef fc = Some r →
             (refNamespace r, refName r) ∉ secrets result.2)
        ∧ (∀ a, Advertisement fc = Some a →
             refName a ∉ advertisements result.2))).
Proof.
  intros (Hu & Hn & Hname & Hlab & Hid & Hcn & Httl & Hdt & Hca & Hadv).
  cbv zeta.
  assert (∃ c1 e, match CaDataRef fc1 with
                   | Some r => DeleteSecret (refNamespace r) (refName r) c
                   | None => (None, c)
                   end = (e, c1)
                  ∧ (e = None → ∀ r, CaDataRef fc = Some r →
                       (refNamespace r, refName r) ∉ secrets c1))
    as (c1 & e & -> & Hsecret).
  { rewrite Hca. destruct (CaDataRef fc) as [r|].
    - destruct (DeleteSecret_success (refNamespace r) (refName r) c) as (_ & _ & H).
      destruct (DeleteSecret _ _ c) as [e c1]. exists c1, e. split; [done|].
      intros -> r' [= <-]. by apply H.
    - exists c, None. split; [done|]. by intros _ r. }
  destruct e as [err|]; [done|]. specialize (Hsecret eq_refl).
  destruct (Update_success (fcName (setCaDataRef None fc1)) (setCaDataRef None fc1) c1)
    as (Hs2 & Ha2 & Hret2).
  destruct (Update _ (setCaDataRef None fc1) c1) as [[fc3|err] c2]; [|done].
  destruct (Hret2 fc3 eq_refl) as [-> Hin2]. simpl in Hs2, Ha2, Hin2.
  simpl Advertisement. rewrite Hadv.
  destruct (Advertisement fc) as [adv|] eqn:Eadv.
  - destruct (Update_success (fcName (setAdvertisement None (setCaDataRef None fc1)))
                (setAdvertisement None (setCaDataRef None fc1)) c2)
      as (Hs3 & Ha3 & Hret3).
    destruct (Update _ (setAdvertisement None (setCaDataRef None fc1)) c2)
      as [[fc5|err] c3]; [|done].
    destruct (Hret3 fc5 eq_refl) as [-> Hin3]. simpl in Hs3, Ha3, Hin3.
    destruct (DeleteAdvertisement_success (refName adv) c3) as (Hf4 & Hs4 & Hgone).
    destruct (DeleteAdvertisement (refName adv) c3) as [[err|] c4]; [done|].
    simpl in *. intros [= <-]. simpl. repeat split; try done. right.
    repeat split; try done.
    + by rewrite Hf4.
    + intros r Hr. rewrite Hs4, Hs3, Hs2. by apply Hsecret.
    + intros a [= <-]. by apply Hgone.
  - simpl. intros [= <-]. simpl. repeat split; try done. right.
    repeat split; try done. intros r Hr. rewrite Hs2. by apply Hsecret.
Qed.

(** X7. Whenever [CheckUpdate] returns a ForeignCluster, it agrees with the
    record on the API URL and the namespace and keeps name, labels, cluster
    identity and TTL of the one it was given. Either nothing had to change:
    the ForeignCluster is returned as it was and no request is sent. Or it is
    stored as returned, with the given discovery type and without CA data
    and advertisement references, and the secret and the advertisement the
    references named are gone from the server. *)
Theorem CheckUpdate_agrees (txtData : TxtData) (fc fc' : ForeignCluster)
    (discoveryType : DiscoveryType) (searchDomain : option SearchDomain)
    (c : cluster) :
  let result :=
    CheckUpdate HasHigherPriority txtData fc discoveryType searchDomain c in
  result.1 = inl fc' →
  SpecApiUrl fc' = ApiUrl txtData
  ∧ SpecNamespace fc' = Namespace txtData
  ∧ fcName fc' = fcName fc
  ∧ Labels fc' = Labels fc
  ∧ ClusterID fc' = ClusterID fc
  ∧ ClusterName fc' = ClusterName fc
  ∧ Ttl fc' = Ttl fc
  ∧ ((fc' = fc ∧ result.2 = c)
     ∨ (fc' ∈ foreignclusters result.2
        ∧ SpecDiscoveryType fc' = discoveryType
        ∧ CaDataRef fc' = None
        ∧ Advertisement fc' = None
        ∧ (∀ r, CaDataRef fc = Some r →
             (refNamespace r, refName r) ∉ secrets result.2)
        ∧ (∀ a, Advertisement fc = Some a →
             refName a ∉ advertisements result.2))).
Proof.
  cbv zeta. unfold CheckUpdate.
  destruct (_ || _) eqn:E.
  - apply CheckUpdate_changed.
    destruct searchDomain;
      [destruct (bool_decide (discoveryType = WanDiscovery))|]; by repeat split.
  - apply orb_false_elim in E as [[Eu En]%orb_false_elim _].
    apply negb_false_iff, bool_decide_eq_true in Eu, En.
    intros [= <-]. repeat split; try done. by left.
Qed.

(** ** The whole round *)

Lemma discover_length (sd : option SearchDomain) (discoveryType : DiscoveryType)
    (data : list TxtData) (acc : list ForeignCluster) (c : cluster) :
  (length (discover HasHigherPriority discovery sd discoveryType data acc c).1
   ≤ length acc + length (remoteRecords discovery data))%nat.
Proof.
  revert acc c. induction data as [|txtData rest IH]; intros acc c.
  - simpl. lia.
  - cbn [discover]. unfold remoteRecords. rewrite filter_cons.
    fold (remoteRecords discovery rest).
    case_bool_decide as Hid.
    + rewrite decide_False by (by intros ?). apply IH.
    + rewrite decide_True by done. simpl.
      destruct (GetForeignClusterByID (ID txtData) c) as [[fc|err] c1].
      * destruct (CheckUpdate _ _ _ _ _ _) as [[fc'|err] c2].
        -- etrans; [apply IH|]. rewrite length_app. simpl. lia.
        -- etrans; [apply IH|]. lia.
      * destruct (match err with ErrNotFound => true | _ => false end).
        -- destruct (createForeign _ _ _ _) as [[fc'|err'] c2].
           ++ etrans; [apply IH|]. rewrite length_app. simpl. lia.
           ++ etrans; [apply IH|]. lia.
        -- etrans; [apply IH|]. lia.
Qed.

(** X8. [UpdateForeign] returns at most one ForeignCluster per record of
    another cluster than the local one: none when the input is empty or holds
    the local cluster's records only. *)
Theorem UpdateForeign_returns_at_most (data : list TxtData)
    (sd : option SearchDomain) (c : cluster) :
  (length (UpdateForeign TtlType HasHigherPriority discovery data sd c).1
   ≤ length (remoteRecords discovery data))%nat.
Proof.
  unfold UpdateForeign.
  match goal with
  | |- context [discover _ _ sd ?dt data [] c] =>
      pose proof (discover_length sd dt data [] c) as H;
      destruct (discover HasHigherPriority discovery sd dt data [] c) as [out c1]
  end.
  simpl in *. lia.
Qed.

Lemma discover_unreachable (sd : option SearchDomain)
    (discoveryType : DiscoveryType) (data : list TxtData)
    (acc : list ForeignCluster) (c : cluster) (n : nat) :
  faults c = replicate n true → (length data ≤ n)%nat →
  ∃ c' m,
    discover HasHigherPriority discovery sd discoveryType data acc c = (acc, c')
    ∧ faults c' = replicate m true ∧ (n ≤ m + length data)%nat
    ∧ foreignclusters c' = foreignclusters c
    ∧ secrets c' = secrets c
    ∧ advertisements c' = advertisements c.
Proof.
  revert c n. induction data as [|txtData rest IH]; intros c n Hf Hn.
  - exists c, n. simpl. repeat split; try done. lia.
  - cbn [discover]. simpl in Hn. case_bool_decide as Hid.
    + destruct (IH c n Hf) as (c' & m & -> & ? & ? & ? & ? & ?); [lia|].
      exists c', m. repeat split; try done. simpl. lia.
    + destruct n as [|n]; [lia|].
      unfold GetForeignClusterByID, List, call. rewrite Hf. simpl.
      match goal with
      | |- context [discover _ _ _ _ rest acc ?c1] =>
          destruct (IH c1 n) as (c' & m & -> & ? & ? & ? & ? & ?);
          [done | lia |]
      end.
      exists c', m. repeat split; try done. lia.
Qed.

Lemma discover_lists (sd : option SearchDomain)
    (discoveryType : DiscoveryType) (data : list TxtData)
    (acc : list ForeignCluster) (c : cluster) (n : nat) :
  faults c = replicate n true → (length data ≤ n)%nat →
  ∃ new,
    requests
      (discover HasHigherPriority discovery sd discoveryType data acc c).2
    = (requests c ++ new)%list
    ∧ Forall (λ r, ∃ selector, r = ReqList selector) new.
Proof.
  revert c n. induction data as [|txtData rest IH]; intros c n Hf Hn.
  - exists []. simpl. by rewrite app_nil_r.
  - cbn [discover]. simpl in Hn. case_bool_decide as Hid.
    + apply (IH c n Hf). lia.
    + destruct n as [|n]; [lia|].
      unfold GetForeignClusterByID, List, call. rewrite Hf. simpl.
      match goal with
      | |- context [discover _ _ _ _ rest acc ?c1] =>
          destruct (IH c1 n) as (new & -> & Hnew); [done | lia |]
      end.
      simpl. eexists. rewrite <- app_assoc. split; [done|].
      constructor; [by eexists | done].
Qed.

(** X9. When every request fails (the server cannot be reached),
    [UpdateForeign] returns no ForeignCluster and leaves the stored
    ForeignClusters, secrets and advertisements as they were: one failed list
    request per record of another cluster, and one for the TTL pass. *)
Theorem UpdateForeign_unreachable (data : list TxtData)
    (sd : option SearchDomain) (c : cluster) (n : nat) :
  faults c = replicate n true → (length data < n)%nat →
  let result := UpdateForeign TtlType HasHigherPriority discovery data sd c in
  result.1 = []
  ∧ foreignclusters result.2 = foreignclusters c
  ∧ secrets result.2 = secrets c
  ∧ advertisements result.2 = advertisements c
  ∧ Forall (λ r, ∃ selector, r = ReqList selector) (sent c result.2).
Proof.
  intros Hf Hn. cbv zeta. unfold UpdateForeign.
  set (dt := match sd with
             | None => LanDiscovery
             | Some _ => WanDiscovery
             end).
  destruct (discover_unreachable sd dt data [] c n Hf)
    as (c1 & m & E & Hf1 & Hm & Hfc & Hs & Ha); [lia|].
  pose proof (discover_lists sd dt data [] c n Hf) as Hreq.
  rewrite E in *. simpl in *.
  case_bool_decide.
  - destruct m as [|m]; [lia|].
    unfold UpdateTtl, List, call, sent in *. rewrite Hf1. simpl.
    repeat split; try done.
    destruct Hreq as (new & -> & Hnew); [lia|].
    rewrite <- app_assoc, drop_app_length. apply Forall_app. split; [done|].
    apply Forall_singleton. by eexists.
  - repeat split; try done. unfold sent.
    destruct Hreq as (new & -> & Hnew); [lia|].
    by rewrite drop_app_length.
Qed.

End Steps.

Lemma UpdateForeign_second_round_witness :
  let first :=
    UpdateForeign goInt examplePriority exampleController [peerTxt]
      (Some exampleSearchDomain) (exampleCluster []) in
  let second :=
    UpdateForeign goInt examplePriority exampleController [peerTxt]
      (Some exampleSearchDomain) first.2 in
  ∃ fc,
    first.1 = [fc]
    ∧ foreignclusters first.2 = (foreignclusters (exampleCluster []) ++ [fc])%list
    ∧ second.1 = []
    ∧ sent first.2 second.2 = [ReqList ("cluster-id", ID peerTxt); ReqCreate fc]
    ∧ foreignclusters second.2 = foreignclusters first.2.
Proof.
  apply (UpdateForeign_second_round goInt examplePriority exampleController peerTxt
           exampleSearchDomain (exampleCluster [])).
  - reflexivity.
  - discriminate.
  - constructor.
  - apply not_elem_of_nil.
Defined.


(** ** What [UpdateForeign] does, it does through the client calls *)

Section Through.

Variable TtlType : intType.
Variable HasHigherPriority : ForeignCluster → DiscoveryType → bool.
Variable discovery : DiscoveryCtrl.

(** A relation between the server before and after, kept by every client
    call the discovery loop makes. *)
Variable R : cluster → cluster → Prop.
Hypothesis R_refl : ∀ c, R c c.
Hypothesis R_trans : ∀ c1 c2 c3, R c1 c2 → R c2 c3 → R c1 c3.
Hypothesis R_List : ∀ selector c, R c (List selector c).2.
Hypothesis R_Create : ∀ fc c, R c (Create fc c).2.
Hypothesis R_Update : ∀ name fc c, fcName fc = name → R c (Update name fc c).2.
Hypothesis R_DeleteSecret : ∀ namespace name c, R c (DeleteSecret namespace name c).2.
Hypothesis R_DeleteAdvertisement : ∀ name c, R c (DeleteAdvertisement name c).2.

Lemma GetForeignClusterByID_through (clusterID : string) (c : cluster) :
  R c (GetForeignClusterByID clusterID c).2.
Proof.
  unfold GetForeignClusterByID.
  pose proof (R_List ("cluster-id", clusterID) c) as H.
  by destruct (List _ c) as [[[|fc items]|err] c1].
Qed.

Lemma createForeign_through (txtData : TxtData) (sd : option SearchDomain)
    (discoveryType : DiscoveryType) (c : cluster) :
  R c (createForeign txtData sd discoveryType c).2.
Proof.
  unfold createForeign.
  match goal with
  | |- context [Create ?fc c] =>
      pose proof (R_Create fc c) as H; by destruct (Create fc c) as [[?|?] ?]
  end.
Qed.

Lemma CheckUpdate_through (txtData : TxtData) (fc : ForeignCluster)
    (discoveryType : DiscoveryType) (searchDomain : option SearchDomain)
    (c : cluster) :
  R c (CheckUpdate HasHigherPriority txtData fc discoveryType searchDomain c).2.
Proof.
  unfold CheckUpdate. destruct (_ || _); [|apply R_refl].
  set (fc1 := match searchDomain with
              | Some s =>
                  if bool_decide (discoveryType = WanDiscovery)
                  then setJoin (AutoJoin s) _ else _
              | None => _
              end).
  clearbody fc1.
  assert (∃ c1 e, match CaDataRef fc1 with
                   | Some r => DeleteSecret (refNamespace r) (refName r) c
                   | None => (None, c)
                   end = (e, c1) ∧ R c c1) as (c1 & e & -> & H1).
  { destruct (CaDataRef fc1) as [r|].
    - pose proof (R_DeleteSecret (refNamespace r) (refName r) c) as H.
      destruct (DeleteSecret _ _ c) as [e c1]. by exists c1, e.
    - by exists c, None. }
  destruct e as [err|]; [done|].
  pose proof (R_Update (fcName (setCaDataRef None fc1)) _ c1 eq_refl) as H2.
  pose proof (proj2 (proj2 (Update_success (fcName (setCaDataRef None fc1))
                              (setCaDataRef None fc1) c1))) as Hret.
  destruct (Update _ (setCaDataRef None fc1) c1) as [[fc3|err] c2];
    [|by eapply R_trans].
  destruct (Hret fc3 eq_refl) as [-> _]. simpl in *.
  destruct (Advertisement fc1) as [adv|]; [|by eapply R_trans].
  pose proof (R_Update (fcName (setAdvertisement None (setCaDataRef None fc1)))
                _ c2 eq_refl) as H3.
  destruct (Update _ (setAdvertisement None (setCaDataRef None fc1)) c2)
    as [[fc5|err] c3]; simpl in *.
  2: { eapply R_trans; [|exact H3]. by eapply R_trans. }
  pose proof (R_DeleteAdvertisement (refName adv) c3) as H4.
  destruct (DeleteAdvertisement (refName adv) c3) as [[err|] c4]; simpl in *;
    (eapply R_trans; [|exact H4]); (eapply R_trans; [|exact H3]);
    by eapply R_trans.
Qed.

Lemma discover_through (sd : option SearchDomain) (discoveryType : DiscoveryType)
    (data : list TxtData) (acc : list ForeignCluster) (c : cluster) :
  R c (discover HasHigherPriority discovery sd discoveryType data acc c).2.
Proof.
  revert acc c. induction data as [|txtData rest IH]; intros acc c;
    [apply R_refl|].
  cbn [discover]. case_bool_decide; [apply IH|].
  pose proof (GetForeignClusterByID_through (ID txtData) c) as H1.
  destruct (GetForeignClusterByID (ID txtData) c) as [[fc|err] c1].
  - pose proof (CheckUpdate_through txtData fc discoveryType sd c1) as H2.
    destruct (CheckUpdate _ _ _ _ _ c1) as [[fc'|err] c2];
      (eapply R_trans; [|apply IH]); by eapply R_trans.
  - destruct (IsNotFound (Some err)).
    + pose proof (createForeign_through txtData sd discoveryType c1) as H2.
      destruct (createForeign _ _ _ c1) as [[fc'|err'] c2];
        (eapply R_trans; [|apply IH]); by eapply R_trans.
    + eapply R_trans; [exact H1 | apply IH].
Qed.

(** The TTL pass needs the deletion of ForeignClusters as well. *)
Hypothesis R_Delete : ∀ name c, R c (Delete name c).2.

Lemma ttlItems_through (txts : list TxtData) (items : list ForeignCluster)
    (c : cluster) :
  R c (ttlItems TtlType txts items c).
Proof.
  rewrite ttlItems_eq. revert c.
  induction items as [|fc rest IH]; intros c; [apply R_refl|].
  simpl. eapply R_trans; [|apply IH].
  unfold ttlRequest, decremented.
  destruct (answered txts fc); [destruct (bool_decide (Ttl fc = 3%Z))|
                                destruct (bool_decide (wrapInt TtlType (Ttl fc - 1) ≤ 0)%Z)]; simpl.
  - apply R_refl.
  - by apply R_Update.
  - apply R_Delete.
  - by apply R_Update.
Qed.

Lemma UpdateForeign_through (data : list TxtData) (sd : option SearchDomain)
    (c : cluster) :
  R c (UpdateForeign TtlType HasHigherPriority discovery data sd c).2.
Proof.
  unfold UpdateForeign.
  set (dt := match sd with
             | None => LanDiscovery
             | Some _ => WanDiscovery
             end).
  pose proof (discover_through sd dt data [] c) as H.
  destruct (discover HasHigherPriority discovery sd dt data [] c) as [out c1].
  simpl in *. case_bool_decide; [|done].
  eapply R_trans; [exact H|]. unfold UpdateTtl.
  pose proof (R_List ("discovery-type", "LAN") c1) as HL.
  destruct (List _ c1) as [[items|err] c2]; simpl in *; [|done].
  eapply R_trans; [exact HL|]. apply ttlItems_through.
Qed.

End Through.

(** ** Names of the stored ForeignClusters *)

Section Names.

Variable TtlType : intType.
Variable HasHigherPriority : ForeignCluster → DiscoveryType → bool.
Variable discovery : DiscoveryCtrl.

Lemma List_names (selector : string * string) (c : cluster) :
  names (List selector c).2 = names c.
Proof. unfold List, call. by destruct (faults c) as [|[] ?]. Qed.

Lemma Update_names (name : string) (fc : ForeignCluster) (c : cluster) :
  fcName fc = name → names (Update name fc c).2 = names c.
Proof.
  intros Hname. unfold Update, call, names.
  rewrite (bool_decide_eq_true_2 (fcName fc = name)) by done.
  destruct (faults c) as [|[] ?]; simpl; try done;
    (destruct (existsb _ _); simpl; [|done]);
    rewrite <- list_fmap_compose; apply list_fmap_ext; intros i old _; simpl;
    unfold hasName; case_bool_decide; congruence.
Qed.

Lemma NoDup_fmap_filter {A B : Type} (f : A → B) (P : A → Prop)
    `{∀ x, Decision (P x)} (l : list A) :
  NoDup (f <$> l) → NoDup (f <$> filter P l).
Proof.
  induction l as [|x l IH]; [done|].
  rewrite fmap_cons. intros [Hx Hnd]%NoDup_cons.
  rewrite filter_cons. destruct (decide (P x)); [|by apply IH].
  rewrite fmap_cons. apply NoDup_cons. split; [|by apply IH].
  intros (y & Hy & [_ Hin]%list_elem_of_filter)%list_elem_of_fmap.
  apply Hx. rewrite Hy. by apply list_elem_of_fmap_2.
Qed.

Lemma Delete_distinct (name : string) (c : cluster) :
  NoDup (names c) → NoDup (names (Delete name c).2).
Proof.
  intros Hnd. unfold Delete, call, names in *.
  destruct (faults c) as [|[] ?]; simpl; try done;
    (destruct (existsb _ _); simpl; [|done]); by apply NoDup_fmap_filter.
Qed.

Lemma Create_distinct (fc : ForeignCluster) (c : cluster) :
  NoDup (names c) → NoDup (names (Create fc c).2).
Proof.
  intros Hnd. pose proof (Create_outcome fc c) as H. unfold names in *.
  destruct (Create fc c).1 as [fc'|err].
  - destruct H as (_ & Hfresh & ->). rewrite fmap_app. apply NoDup_app.
    split; [done|]. split; [|apply NoDup_singleton].
    intros n Hn [= ->]%list_elem_of_singleton. done.
  - by rewrite H.
Qed.

(** A ForeignCluster keeps its place: the names stored before are the first
    names stored after. *)
Lemma Create_grows (fc : ForeignCluster) (c : cluster) :
  ∃ added, names (Create fc c).2 = (names c ++ added)%list.
Proof.
  pose proof (Create_outcome fc c) as H. unfold names.
  destruct (Create fc c).1 as [fc'|err].
  - destruct H as (_ & _ & ->). rewrite fmap_app. by eexists.
  - rewrite H. exists []. by rewrite app_nil_r.
Qed.

Lemma DeleteSecret_requests (namespace name : string) (c : cluster) :
  requests (DeleteSecret namespace name c).2
  = (requests c ++ [ReqDeleteSecret namespace name])%list.
Proof.
  unfold DeleteSecret, call. destruct (faults c) as [|[] ?]; simpl; try done;
    by case_bool_decide.
Qed.

Lemma DeleteAdvertisement_requests (name : string) (c : cluster) :
  requests (DeleteAdvertisement name c).2
  = (requests c ++ [ReqDeleteAdvertisement name])%list.
Proof.
  unfold DeleteAdvertisement, call. destruct (faults c) as [|[] ?]; simpl;
    try done; by case_bool_decide.
Qed.

(** X10. [UpdateForeign] keeps the names of the stored ForeignClusters
    distinct, whatever requests fail. *)
Theorem UpdateForeign_names_distinct (data : list TxtData)
    (sd : option SearchDomain) (c : cluster) :
  NoDup (names c) →
  NoDup (names (UpdateForeign TtlType HasHigherPriority discovery data sd c).2).
Proof.
  apply (UpdateForeign_through TtlType HasHigherPriority discovery
           (λ c c', NoDup (names c) → NoDup (names c'))); try by auto.
  - intros selector c0. by rewrite List_names.
  - intros fc c0. apply Create_distinct.
  - intros name fc c0 Hname. by rewrite Update_names.
  - intros namespace name c0. unfold names.
    by rewrite (proj1 (DeleteSecret_success namespace name c0)).
  - intros name c0. unfold names.
    by rewrite (proj1 (DeleteAdvertisement_success name c0)).
  - intros name c0. apply Delete_distinct.
Qed.

(** X11. Discovery through a search domain never deletes a ForeignCluster
    and never moves or renames one, whatever requests fail: the names stored
    before are, in the same order, the first names stored after, and no
    delete of a ForeignCluster is among the requests sent. *)
Theorem UpdateForeign_search_domain_keeps (data : list TxtData)
    (s : SearchDomain) (c : cluster) :
  let after := (UpdateForeign TtlType HasHigherPriority discovery data (Some s) c).2 in
  (∃ added, names after = (names c ++ added)%list)
  ∧ Forall (λ r, isDelete r = false) (sent c after).
Proof.
  cbv zeta. unfold UpdateForeign.
  assert (∀ c0 r, isDelete r = false →
            ∃ new, (requests c0 ++ [r])%list = (requests c0 ++ new)%list
                   ∧ Forall (λ r, isDelete r = false) new) as Hone.
  { intros c0 r Hr. exists [r]. split; [done|]. by apply Forall_singleton. }
  assert ((λ c c', (∃ added, names c' = (names c ++ added)%list)
                   ∧ ∃ new, requests c' = (requests c ++ new)%list
                            ∧ Forall (λ r, isDelete r = false) new)
            c (discover HasHigherPriority discovery (Some s) WanDiscovery
                 data [] c).2) as H.
  { apply discover_through.
    - intros c0. split; exists []; by rewrite app_nil_r.
    - intros c2 c3 c4 [(a1 & E1) (n1 & Q1 & F1)] [(a2 & E2) (n2 & Q2 & F2)].
      split.
      + exists (a1 ++ a2)%list. by rewrite E2, E1, <- app_assoc.
      + exists (n1 ++ n2)%list. rewrite Q2, Q1, <- app_assoc. split; [done|].
        by apply Forall_app.
    - intros selector c0. split.
      + exists []. by rewrite List_names, app_nil_r.
      + rewrite List_requests. by apply Hone.
    - intros fc c0. split; [apply Create_grows|].
      rewrite Create_requests. by apply Hone.
    - intros name fc c0 Hname. split.
      + exists []. by rewrite Update_names, app_nil_r.
      + rewrite Update_requests. by apply Hone.
    - intros namespace name c0. split.
      + exists []. unfold names.
        by rewrite (proj1 (DeleteSecret_success namespace name c0)), app_nil_r.
      + rewrite DeleteSecret_requests. by apply Hone.
    - intros name c0. split.
      + exists []. unfold names.
        by rewrite (proj1 (DeleteAdvertisement_success name c0)), app_nil_r.
      + rewrite DeleteAdvertisement_requests. by apply Hone. }
  destruct (discover HasHigherPriority discovery (Some s) WanDiscovery data [] c)
    as [out c1].
  rewrite bool_decide_eq_false_2 by done. simpl in *.
  destruct H as [Hnames (new & Hreq & Hnew)].
  split; [done|]. unfold sent. by rewrite Hreq, drop_app_length.
Qed.

End Names.

Lemma UpdateForeign_names_distinct_witness :
  NoDup (names (UpdateForeign goInt examplePriority exampleController
                  [localTxt; peerTxt] None threeClusters).2).
Proof.
  apply (UpdateForeign_names_distinct goInt examplePriority exampleController
           [localTxt; peerTxt] None threeClusters).
  apply (bool_decide_unpack _). vm_compute. exact I.
Defined.

Lemma UpdateForeign_unreachable_witness :
  let result :=
    UpdateForeign goInt examplePriority exampleController [localTxt; peerTxt] None
      unreachableServer in
  result.1 = []
  ∧ foreignclusters result.2 = foreignclusters unreachableServer
  ∧ secrets result.2 = secrets unreachableServer
  ∧ advertisements result.2 = advertisements unreachableServer
  ∧ Forall (λ r, ∃ selector, r = ReqList selector) (sent unreachableServer result.2).
Proof.
  apply (UpdateForeign_unreachable goInt examplePriority exampleController
           [localTxt; peerTxt] None unreachableServer 3); [reflexivity|].
  simpl. lia.
Defined.

Lemma CheckUpdate_agrees_witness :
  ∃ fc',
    (CheckUpdate examplePriority peerTxt peeredCluster LanDiscovery None
       peeredServer).1 = inl fc'
    ∧ SpecApiUrl fc' = ApiUrl peerTxt
    ∧ secrets
        (CheckUpdate examplePriority peerTxt peeredCluster LanDiscovery None
           peeredServer).2 = [].
Proof.
  eexists. split; [vm_compute; reflexivity|]. split.
  - refine (proj1 (CheckUpdate_agrees examplePriority peerTxt peeredCluster _
                     LanDiscovery None peeredServer _)).
    vm_compute. reflexivity.
  - vm_compute. reflexivity.
Defined.
End DiscoveryTheory.

(** * Properties of liqoctl add cluster *)

Module AddTheory.

Import Add.

Section Enforce.

Variable ClusterIDLabel : string.
Variable GetForeignClusterByID :
  gmap string ForeignCluster → string → ForeignCluster + error.

(** The mutate function keeps the name, hence the key. *)
Lemma mutate_enforce (t : ClusterArgs) (key : string) (obj : ForeignCluster) :
  Name obj = key → mutate (enforce t) key obj = inl (enforce t obj).
Proof. intros H. unfold mutate. simpl. by rewrite bool_decide_eq_true_2. Qed.

Lemma call_objects (cl : client) : objects (call cl).2 = objects cl.
Proof. done. Qed.

(** What a successful [CreateOrUpdate] with the mutate function of
    [enforceForeignCluster] leaves under the key of [fc]: the mutation of the
    stored object, or of [fc] itself when nothing was stored. *)
Lemma CreateOrUpdate_enforce (cl cl' : client) (fc : ForeignCluster)
    (t : ClusterArgs) (res : OperationResult) :
  CreateOrUpdate cl fc (enforce t) = (res, None, cl') →
  objects cl' !! Name fc
  = Some (enforce t (default fc (objects cl !! Name fc))).
Proof.
  unfold CreateOrUpdate, Get.
  destruct (call cl) as [bad cl1] eqn:E1.
  assert (objects cl1 = objects cl) as Hobj1.
  { by rewrite <- (call_objects cl), E1. }
  destruct bad; [done|]. rewrite Hobj1.
  destruct (objects cl !! Name fc) as [existing|] eqn:Hex; simpl.
  - assert (Name existing = Name fc → mutate (enforce t) (Name fc) existing
            = inl (enforce t existing)) as Hm by apply mutate_enforce.
    unfold mutate in *. simpl in *.
    case_bool_decide as Hname; [|done].
    case_bool_decide as Hsame.
    + intros [= _ <-]. rewrite Hobj1, Hex. by rewrite <- Hsame.
    + unfold Update.
      destruct (call cl1) as [bad cl2] eqn:E2.
      assert (objects cl2 = objects cl) as Hobj2.
      { by rewrite <- Hobj1, <- (call_objects cl1), E2. }
      destruct bad; [done|]. simpl. rewrite Hname, Hobj2, Hex.
      intros [= _ <-]. simpl. apply lookup_insert_eq.
  - rewrite mutate_enforce by done.
    unfold Create.
    destruct (call cl1) as [bad cl2] eqn:E2.
    assert (objects cl2 = objects cl) as Hobj2.
    { by rewrite <- Hobj1, <- (call_objects cl1), E2. }
    destruct bad; [done|]. simpl.
    case_bool_decide; [done|]. rewrite Hobj2, Hex.
    intros [= _ <-]. simpl. apply lookup_insert_eq.
Qed.

(** C10. The mutate function of [enforceForeignCluster] keeps a non-empty
    [ClusterName], takes the argument's [ClusterName] when the field is
    empty, and always sets [ForeignAuthURL] and [OutgoingPeeringEnabled].
    When [enforceForeignCluster] returns nil, the ForeignCluster stored under
    the name it worked on has [ForeignAuthURL] and [OutgoingPeeringEnabled]
    set from the arguments; if a ForeignCluster was stored under that name
    before, its [ClusterName] is the one stored before when that was
    non-empty, and the argument's when that was empty. *)
Theorem enforceForeignCluster_keeps_ClusterName (cl cl' : client)
    (t : ClusterArgs) :
  (∀ fc,
     (Spec_ClusterIdentity_ClusterName fc ≠ "" →
      Spec_ClusterIdentity_ClusterName (enforce t fc)
      = Spec_ClusterIdentity_ClusterName fc)
     ∧ (Spec_ClusterIdentity_ClusterName fc = "" →
        Spec_ClusterIdentity_ClusterName (enforce t fc) = ClusterName t)
     ∧ Spec_ForeignAuthURL (enforce t fc) = ClusterAuthURL t
     ∧ Spec_OutgoingPeeringEnabled (enforce t fc) = PeeringEnabledYes)
  ∧ (enforceForeignCluster ClusterIDLabel GetForeignClusterByID cl t = (None, cl') →
     ∃ fc new,
       lookup ClusterIDLabel GetForeignClusterByID cl t = inl fc
       ∧ objects cl' !! Name fc = Some new
       ∧ (∀ old, objects cl !! Name fc = Some old →
            (Spec_ClusterIdentity_ClusterName old ≠ "" →
             Spec_ClusterIdentity_ClusterName new
             = Spec_ClusterIdentity_ClusterName old)
            ∧ (Spec_ClusterIdentity_ClusterName old = "" →
               Spec_ClusterIdentity_ClusterName new = ClusterName t))
       ∧ Spec_ForeignAuthURL new = ClusterAuthURL t
       ∧ Spec_OutgoingPeeringEnabled new = PeeringEnabledYes).
Proof.
  assert (∀ fc,
     (Spec_ClusterIdentity_ClusterName fc ≠ "" →
      Spec_ClusterIdentity_ClusterName (enforce t fc)
      = Spec_ClusterIdentity_ClusterName fc)
     ∧ (Spec_ClusterIdentity_ClusterName fc = "" →
        Spec_ClusterIdentity_ClusterName (enforce t fc) = ClusterName t)
     ∧ Spec_ForeignAuthURL (enforce t fc) = ClusterAuthURL t
     ∧ Spec_OutgoingPeeringEnabled (enforce t fc) = PeeringEnabledYes) as Hmut.
  { intros fc. simpl. repeat split.
    - intros Hne. by rewrite bool_decide_eq_false_2.
    - intros He. by rewrite bool_decide_eq_true_2. }
  split; [exact Hmut|].
  unfold enforceForeignCluster.
  destruct (lookup ClusterIDLabel GetForeignClusterByID cl t) as [fc|err];
    [|done].
  destruct (CreateOrUpdate cl fc (enforce t)) as [[res err] cl2] eqn:E.
  intros [= -> ->].
  pose proof (CreateOrUpdate_enforce _ _ _ _ _ E) as Hstored.
  exists fc, (enforce t (default fc (objects cl !! Name fc))).
  split; [done|]. split; [done|]. split; [|apply Hmut].
  intros old Hold. rewrite Hold. simpl default. split; apply Hmut.
Qed.

End Enforce.

(** The peer is already known as turin; adding it as milan keeps the name
    and turns the outgoing peering on. *)
Lemma enforceForeignCluster_keeps_ClusterName_witness :
  ∃ fc new,
    lookup exampleLabel exampleLookup exampleClient exampleArgs = inl fc
    ∧ objects (enforceForeignCluster exampleLabel exampleLookup exampleClient
                 exampleArgs).2 !! Name fc = Some new
    ∧ (∀ old, objects exampleClient !! Name fc = Some old →
         (Spec_ClusterIdentity_ClusterName old ≠ "" →
          Spec_ClusterIdentity_ClusterName new
          = Spec_ClusterIdentity_ClusterName old)
         ∧ (Spec_ClusterIdentity_ClusterName old = "" →
            Spec_ClusterIdentity_ClusterName new = ClusterName exampleArgs))
    ∧ Spec_ForeignAuthURL new = "https://auth.example.com"
    ∧ Spec_OutgoingPeeringEnabled new = PeeringEnabledYes.
Proof.
  apply (proj2 (enforceForeignCluster_keeps_ClusterName exampleLabel
                  exampleLookup exampleClient
                  (enforceForeignCluster exampleLabel exampleLookup
                     exampleClient exampleArgs).2 exampleArgs)).
  vm_compute. reflexivity.
Defined.

(** ** More on [enforceForeignCluster] and its caller *)

Section More.

Variable ClusterIDLabel : string.
Variable GetForeignClusterByID :
  gmap string ForeignCluster → string → ForeignCluster + error.

(** The mutate function changes nothing when run a second time. *)
Lemma enforce_twice (t : ClusterArgs) (fc : ForeignCluster) :
  enforce t (enforce t fc) = enforce t fc.
Proof.
  unfold enforce. simpl. f_equal.
  - repeat case_bool_decide; congruence.
  - repeat case_bool_decide; congruence.
  - by destruct (Spec_InsecureSkipTLSVerify fc).
Qed.

(** [CreateOrUpdate] touches the object under the key of [obj] at most, and
    nothing when it fails. *)
Lemma CreateOrUpdate_frame (cl : client) (obj : ForeignCluster)
    (f : ForeignCluster → ForeignCluster) :
  (∀ n, n ≠ Name obj →
     objects (CreateOrUpdate cl obj f).2 !! n = objects cl !! n)
  ∧ ((CreateOrUpdate cl obj f).1.2 ≠ None →
     objects (CreateOrUpdate cl obj f).2 = objects cl).
Proof.
  unfold CreateOrUpdate, Get, mutate, Create, Update, call.
  destruct (faults cl) as [|[] [|[] rest]]; simpl; try done;
    destruct (objects cl !! Name obj) as [existing|] eqn:Hex; simpl;
    repeat (case_bool_decide; simpl; try done);
    try rewrite Hex; simpl; try done;
    try (repeat match goal with H : Name _ = Name obj |- _ => rewrite H end;
         rewrite ?Hex; simpl; split; [intros n Hn; by rewrite lookup_insert_ne|done]).
Qed.

Lemma CreateOrUpdate_keeps (cl : client) (obj : ForeignCluster)
    (f : ForeignCluster → ForeignCluster) :
  is_Some (objects cl !! Name obj) →
  is_Some (objects (CreateOrUpdate cl obj f).2 !! Name obj).
Proof.
  intros [existing Hex].
  unfold CreateOrUpdate, Get, mutate, Create, Update, call.
  destruct (faults cl) as [|[] [|[] rest]]; simpl; rewrite ?Hex; simpl;
    try done;
    repeat (case_bool_decide; simpl; rewrite ?Hex; try done);
    repeat match goal with H : Name _ = Name obj |- _ => rewrite H end;
    rewrite ?Hex; simpl; rewrite ?lookup_insert_eq; done.
Qed.

Lemma CreateOrUpdate_stored_name (cl cl' : client) (fc : ForeignCluster)
    (t : ClusterArgs) (res : OperationResult) :
  CreateOrUpdate cl fc (enforce t) = (res, None, cl') →
  Name (default fc (objects cl !! Name fc)) = Name fc.
Proof.
  destruct (objects cl !! Name fc) as [old|] eqn:Hold; [|done]. simpl.
  unfold CreateOrUpdate, Get.
  destruct (call cl) as [bad cl1] eqn:E1.
  assert (objects cl1 = objects cl) as Hobj1.
  { by rewrite <- (call_objects cl), E1. }
  destruct bad; [done|]. rewrite Hobj1, Hold. unfold mutate. simpl.
  by case_bool_decide.
Qed.


(** X13. [enforceForeignCluster] never removes a ForeignCluster and changes
    or creates at most the one stored under the name it works on; when it
    returns an error, the stored ForeignClusters are as they were. *)
Theorem enforceForeignCluster_frame (cl : client) (t : ClusterArgs) :
  let result := enforceForeignCluster ClusterIDLabel GetForeignClusterByID cl t in
  (result.1 ≠ None → objects result.2 = objects cl)
  ∧ (∀ fc n, lookup ClusterIDLabel GetForeignClusterByID cl t = inl fc →
       n ≠ Name fc → objects result.2 !! n = objects cl !! n)
  ∧ (∀ n, is_Some (objects cl !! n) → is_Some (objects result.2 !! n)).
Proof.
  cbv zeta. unfold enforceForeignCluster.
  destruct (lookup ClusterIDLabel GetForeignClusterByID cl t) as [fc|err];
    [|by repeat split].
  destruct (CreateOrUpdate_frame cl fc (enforce t)) as [Hother Herr].
  pose proof (CreateOrUpdate_keeps cl fc (enforce t)) as Hkeep.
  destruct (CreateOrUpdate cl fc (enforce t)) as [[res err] cl2].
  simpl in *. split; [done|]. split.
  - intros fc' n [= <-]. apply Hother.
  - intros n Hn. destruct (decide (n = Name fc)) as [->|Hne].
    + by apply Hkeep.
    + by rewrite Hother.
Qed.

(** X14. Adding the same cluster again changes nothing: after a run that
    returned nil, a second run with the same arguments that looks up a
    ForeignCluster of the same name, and whose read is answered, returns nil
    after that one read and leaves the stored ForeignClusters as they
    are. *)
Theorem enforceForeignCluster_again (cl cl1 : client) (t : ClusterArgs)
    (fc fc2 : ForeignCluster) :
  enforceForeignCluster ClusterIDLabel GetForeignClusterByID cl t = (None, cl1) →
  lookup ClusterIDLabel GetForeignClusterByID cl t = inl fc →
  lookup ClusterIDLabel GetForeignClusterByID cl1 t = inl fc2 →
  Name fc2 = Name fc →
  head (faults cl1) ≠ Some true →
  enforceForeignCluster ClusterIDLabel GetForeignClusterByID cl1 t
  = (None, mkClient (objects cl1) (tail (faults cl1))).
Proof.
  intros Hrun Hfc Hfc2 Hname Hok.
  unfold enforceForeignCluster in Hrun. rewrite Hfc in Hrun.
  destruct (CreateOrUpdate cl fc (enforce t)) as [[res err] cl'] eqn:E.
  injection Hrun as -> ->.
  pose proof (CreateOrUpdate_enforce _ _ _ _ _ E) as Hstored.
  unfold enforceForeignCluster. rewrite Hfc2.
  pose proof (CreateOrUpdate_stored_name _ _ _ _ _ E) as Hn.
  unfold CreateOrUpdate, Get, call.
  assert (match faults cl1 with
          | b :: _ => b
          | [] => false
          end = false) as ->.
  { by destruct (faults cl1) as [|[] ?]. }
  cbn [objects]. rewrite Hname, Hstored.
  rewrite mutate_enforce by done.
  rewrite enforce_twice.
  by rewrite bool_decide_eq_true_2.
Qed.

(** X15. On a server that answers every request, adding a cluster that the
    lookup does not know, under a non-empty name that no stored
    ForeignCluster carries, returns nil and stores, beside the
    ForeignClusters it had, one of that name: labelled with the cluster ID,
    identified by the arguments, outgoing peering Yes, incoming Auto, TLS
    verification skipped. *)
Theorem enforceForeignCluster_creates (cl : client) (t : ClusterArgs) :
  faults cl = [] →
  GetForeignClusterByID (objects cl) (ClusterID t) = inr ErrNotFound →
  ClusterName t ≠ "" →
  objects cl !! ClusterName t = None →
  enforceForeignCluster ClusterIDLabel GetForeignClusterByID cl t
  = (None,
     mkClient
       (<[ClusterName t :=
            {| Name := ClusterName t;
               Labels := {[ ClusterIDLabel := ClusterID t ]};
               Spec_ClusterIdentity_ClusterID := ClusterID t;
               Spec_ClusterIdentity_ClusterName := ClusterName t;
               Spec_ForeignAuthURL := ClusterAuthURL t;
               Spec_OutgoingPeeringEnabled := PeeringEnabledYes;
               Spec_IncomingPeeringEnabled := PeeringEnabledAuto;
               Spec_InsecureSkipTLSVerify := Some true |}]> (objects cl))
       []).
Proof.
  intros Hq Hnf Hname Hfree.
  unfold enforceForeignCluster, lookup. rewrite Hnf. simpl.
  unfold CreateOrUpdate, Get, mutate, Create, call. rewrite Hq. simpl.
  rewrite Hfree. simpl. rewrite bool_decide_eq_true_2 by done. simpl.
  rewrite bool_decide_eq_false_2 by done. rewrite Hfree.
  done.
Qed.


End More.

Section Caller.

Variable ClusterIDLabel : string.
Variable GetForeignClusterByID :
  gmap string ForeignCluster → string → ForeignCluster + error.
Variable StoreInSecret : string → string → string → option error.
Variable GetClusterIdentityWithControllerClient : string → ClusterIdentity + error.
Variable sameClusterError : string.

(** X17. [processAddCluster] refuses to add the local cluster: when the
    cluster ID to add is the local cluster's, it returns an error and the
    client is not used. More generally it reaches [enforceForeignCluster],
    the only step that touches ForeignClusters, only after the token has been
    stored and the local identity read, with a cluster ID other than the one
    to add. *)
Theorem processAddCluster_guards (cl : client) (t : ClusterArgs) :
  let result :=
    processAddCluster ClusterIDLabel GetForeignClusterByID StoreInSecret
      GetClusterIdentityWithControllerClient sameClusterError cl t in
  (∀ identity,
     StoreInSecret (ClusterID t) (ClusterToken t) (Namespace t) = None →
     GetClusterIdentityWithControllerClient (Namespace t) = inl identity →
     identityClusterID identity = ClusterID t →
     result = (Some (ErrInvalid sameClusterError), cl))
  ∧ (result.2 ≠ cl →
     StoreInSecret (ClusterID t) (ClusterToken t) (Namespace t) = None
     ∧ ∃ identity,
         GetClusterIdentityWithControllerClient (Namespace t) = inl identity
         ∧ identityClusterID identity ≠ ClusterID t
         ∧ result = enforceForeignCluster ClusterIDLabel GetForeignClusterByID cl t).
Proof.
  cbv zeta. unfold processAddCluster. split.
  - intros identity -> -> Hid. by rewrite bool_decide_eq_true_2.
  - destruct (StoreInSecret _ _ _) as [err|]; [done|].
    destruct (GetClusterIdentityWithControllerClient _) as [identity|err];
      [|done].
    case_bool_decide as Hid; [done|].
    intros _. split; [done|]. by exists identity.
Qed.

End Caller.



(** Adding the peer known as peer-7f3a leaves the name rome alone. *)
Lemma enforceForeignCluster_frame_witness :
  objects (enforceForeignCluster exampleLabel exampleLookup exampleClient
             exampleArgs).2 !! "rome"
  = objects exampleClient !! "rome".
Proof.
  apply (proj1 (proj2 (enforceForeignCluster_frame exampleLabel exampleLookup
                         exampleClient exampleArgs)) discoveredPeer "rome").
  - vm_compute. reflexivity.
  - vm_compute. discriminate.
Defined.

(** Adding the peer a second time is one read. *)
Lemma enforceForeignCluster_again_witness :
  enforceForeignCluster exampleLabel exampleLookup
    (enforceForeignCluster exampleLabel exampleLookup exampleClient
       exampleArgs).2 exampleArgs
  = (None,
     mkClient
       (objects (enforceForeignCluster exampleLabel exampleLookup
                   exampleClient exampleArgs).2)
       (tail (faults (enforceForeignCluster exampleLabel exampleLookup
                        exampleClient exampleArgs).2))).
Proof.
  apply (enforceForeignCluster_again exampleLabel exampleLookup exampleClient
           _ exampleArgs discoveredPeer (enforce exampleArgs discoveredPeer)).
  - vm_compute. reflexivity.
  - vm_compute. reflexivity.
  - vm_compute. reflexivity.
  - reflexivity.
  - vm_compute. discriminate.
Defined.

(** On an empty store the peer is created under the name milan. *)
Lemma enforceForeignCluster_creates_witness :
  enforceForeignCluster exampleLabel exampleLookup emptyClient exampleArgs
  = (None,
     mkClient
       (<["milan" :=
            {| Name := "milan";
               Labels := {[ exampleLabel := "cluster-peer" ]};
               Spec_ClusterIdentity_ClusterID := "cluster-peer";
               Spec_ClusterIdentity_ClusterName := "milan";
               Spec_ForeignAuthURL := "https://auth.example.com";
               Spec_OutgoingPeeringEnabled := PeeringEnabledYes;
               Spec_IncomingPeeringEnabled := PeeringEnabledAuto;
               Spec_InsecureSkipTLSVerify := Some true |}]> (objects emptyClient))
       []).
Proof.
  apply (enforceForeignCluster_creates exampleLabel exampleLookup emptyClient
           exampleArgs).
  - reflexivity.
  - vm_compute. reflexivity.
  - vm_compute. discriminate.
  - vm_compute. reflexivity.
Defined.


(** Adding the local cluster is refused; adding the peer goes through to
    [enforceForeignCluster]. *)
Lemma processAddCluster_guards_witness :
  processAddCluster exampleLabel exampleLookup exampleStoreInSecret
    exampleIdentity "same cluster" exampleClient localArgs
  = (Some (ErrInvalid "same cluster"), exampleClient)
  ∧ processAddCluster exampleLabel exampleLookup exampleStoreInSecret
      exampleIdentity "same cluster" exampleClient exampleArgs
    = enforceForeignCluster exampleLabel exampleLookup exampleClient exampleArgs.
Proof.
  split.
  - apply (proj1 (processAddCluster_guards exampleLabel exampleLookup
                    exampleStoreInSecret exampleIdentity "same cluster"
                    exampleClient localArgs)
             {| identityClusterID := "cluster-local";
                identityClusterName := "rome" |});
      reflexivity.
  - destruct (proj2 (processAddCluster_guards exampleLabel exampleLookup
                       exampleStoreInSecret exampleIdentity "same cluster"
                       exampleClient exampleArgs)) as (_ & identity & _ & _ & H).
    + intros H.
      apply (f_equal (λ cl, Spec_OutgoingPeeringEnabled
                              <$> objects cl !! "peer-7f3a")) in H.
      vm_compute in H. discriminate.
    + exact H.
Defined.
End AddTheory.

(** * Properties of the common install arguments *)

Module ProviderTheory.

Import Provider.

Section Validate.

Variable IsValid : string → bool.
Variable LiqoChartFullName : string.
Variable cloneRepo : string → string → string + error.
Variable PercentageSet : string → Z + error.

Local Abbreviation Validate :=
  (ValidateCommonArguments IsValid LiqoChartFullName cloneRepo PercentageSet).
Local Abbreviation parse :=
  (parseCommonValues LiqoChartFullName cloneRepo PercentageSet).

Lemma head_omap_cons {A B : Type} (f : A → option B) (x : A) (l : list A) :
  head (omap f (x :: l))
  = match f x with
    | Some y => Some y
    | None => head (omap f l)
    end.
Proof. simpl. by destruct (f x). Qed.

(** A getter gives its error or the value of the flag. *)
Lemma GetString_read (flags : gmap string Flag) (name : string) :
  GetString flags name
  = match errOf (GetString flags name) with
    | Some err => inr err
    | None => inl (stringFlag flags name)
    end.
Proof. unfold stringFlag. by destruct (GetString flags name). Qed.

Lemma GetBool_read (flags : gmap string Flag) (name : string) :
  GetBool flags name
  = match errOf (GetBool flags name) with
    | Some err => inr err
    | None => inl (boolFlag flags name)
    end.
Proof. unfold boolFlag. by destruct (GetBool flags name). Qed.

Lemma GetInt_read (flags : gmap string Flag) (name : string) :
  GetInt flags name
  = match errOf (GetInt flags name) with
    | Some err => inr err
    | None => inl (intFlag flags name)
    end.
Proof. unfold intFlag. by destruct (GetInt flags name). Qed.

Local Ltac read_string name :=
  match goal with
  | |- context [bindE (GetString ?flags name) ?k] =>
      rewrite (GetString_read flags name) at 1;
      destruct (errOf (GetString flags name)); [reflexivity|];
      cbn [bindE]
  end.

Local Ltac read_bool name :=
  match goal with
  | |- context [bindE (GetBool ?flags name) ?k] =>
      rewrite (GetBool_read flags name) at 1;
      destruct (errOf (GetBool flags name)); [reflexivity|];
      cbn [bindE]
  end.

Local Ltac read_int name :=
  match goal with
  | |- context [bindE (GetInt ?flags name) ?k] =>
      rewrite (GetInt_read flags name) at 1;
      destruct (errOf (GetInt flags name)); [reflexivity|];
      cbn [bindE]
  end.

(** [ValidateCommonArguments] in one piece: the first error of the reads,
    or the outcome of [parseCommonValues] on what the flags hold. *)
Lemma Validate_read (providerName : string) (flags : gmap string Flag) :
  Validate providerName flags
  = match firstError flags with
    | Some err => (inr err, [])
    | None =>
        let version := stringFlag flags "version" in
        let downloadChart :=
          negb (Changed flags "chart-path") && negb (isRelease IsValid version) in
        let p := parse providerName (Some (stringFlag flags "chart-path"))
                   (stringFlag flags "repo-url") version
                   (stringFlag flags "resource-sharing-percentage")
                   downloadChart
                   (boolFlag flags "enable-lan-discovery")
                   (boolFlag flags "enable-ha")
                   (intFlag flags "mtu") (intFlag flags "vpn-listening-port") in
        match err p with
        | Some err => (inr err, events p)
        | None =>
            (inl {| Version := version;
                    Verbose := boolFlag flags "verbose";
                    Timeout := wrap64 (intFlag flags "timeout" * Second);
                    DryRun := boolFlag flags "dry-run";
                    DumpValues := boolFlag flags "only-output-values";
                    DumpValuesPath := stringFlag flags "dump-values-path";
                    CommonValues := values p;
                    Devel := boolFlag flags "devel";
                    DisableEndpointCheck := boolFlag flags "disable-endpoint-check";
                    ChartPath := pointee p;
                    DownloadChart := downloadChart;
                    ChartTmpDir := tmpDir p |},
             events p)
        end
    end.
Proof.
  unfold ValidateCommonArguments, firstError, commonFlags,
    EnableLanDiscoveryParameter.
  rewrite !head_omap_cons. unfold readError. cbn [fst snd omap list_omap head].
  read_string "chart-path". read_string "repo-url". read_string "version".
  read_bool "devel". read_bool "verbose". read_int "timeout".
  read_bool "dry-run". read_bool "only-output-values".
  read_string "dump-values-path". read_bool "enable-lan-discovery".
  read_bool "disable-endpoint-check".
  read_string "resource-sharing-percentage". read_bool "enable-ha".
  read_int "mtu". read_int "vpn-listening-port".
  reflexivity.
Qed.

Lemma head_omap_None {A B : Type} (f : A → option B) (l : list A) (x : A) :
  head (omap f l) = None → x ∈ l → f x = None.
Proof.
  induction l as [|y l IH]; [by intros _ ?%elem_of_nil|].
  rewrite head_omap_cons. destruct (f y) eqn:E; [done|].
  intros H [->|Hin]%elem_of_cons; auto.
Qed.

(** A run that returns arguments read every flag and parsed without
    error. *)
Lemma Validate_inl (providerName : string) (flags : gmap string Flag)
    (args : CommonArguments) :
  (Validate providerName flags).1 = inl args →
  let version := stringFlag flags "version" in
  let downloadChart :=
    negb (Changed flags "chart-path") && negb (isRelease IsValid version) in
  let p := parse providerName (Some (stringFlag flags "chart-path"))
             (stringFlag flags "repo-url") version
             (stringFlag flags "resource-sharing-percentage")
             downloadChart
             (boolFlag flags "enable-lan-discovery")
             (boolFlag flags "enable-ha")
             (intFlag flags "mtu") (intFlag flags "vpn-listening-port") in
  firstError flags = None
  ∧ err p = None
  ∧ (Validate providerName flags).2 = events p
  ∧ Version args = version
  ∧ Timeout args = wrap64 (intFlag flags "timeout" * Second)
  ∧ CommonValues args = values p
  ∧ ChartPath args = pointee p
  ∧ DownloadChart args = downloadChart
  ∧ ChartTmpDir args = tmpDir p.
Proof.
  rewrite Validate_read. cbv zeta.
  destruct (firstError flags); [done|].
  destruct (err _); [done|]. simpl. by intros [= <-].
Qed.

(** X18. [ValidateCommonArguments] reads fifteen flags in a fixed order.
    When one of them is not defined or holds a value of another type, the
    error returned is that of the first such flag in the order of the
    reads, and nothing has been cloned or printed. *)
Theorem Validate_flag_error (providerName : string) (flags : gmap string Flag) :
  (∀ err, firstError flags = Some err →
     Validate providerName flags = (inr err, []))
  ∧ (∀ flag, flag ∈ commonFlags → readError flags flag ≠ None →
       ∃ err, Validate providerName flags = (inr err, [])).
Proof.
  split.
  - intros e He. by rewrite Validate_read, He.
  - intros flag Hin Hbad. rewrite Validate_read.
    destruct (firstError flags) as [e|] eqn:He; [by exists e|].
    by pose proof (head_omap_None _ _ _ He Hin).
Qed.

(** X19. When the user set the chart path, or the version is empty or a
    valid semantic version, [cloneRepo] is not called and nothing is printed,
    whatever the outcome; arguments returned carry the chart path of the
    flag, no temporary directory, and [DownloadChart] false. *)
Theorem Validate_without_download (providerName : string)
    (flags : gmap string Flag) :
  Changed flags "chart-path" = true
  ∨ isRelease IsValid (stringFlag flags "version") = true →
  (Validate providerName flags).2 = []
  ∧ ∀ args, (Validate providerName flags).1 = inl args →
      DownloadChart args = false
      ∧ ChartPath args = stringFlag flags "chart-path"
      ∧ ChartTmpDir args = "".
Proof.
  intros Hno.
  assert (negb (Changed flags "chart-path")
          && negb (isRelease IsValid (stringFlag flags "version")) = false)
    as Hd.
  { destruct Hno as [-> | ->]; [done|]. by rewrite andb_false_r. }
  split.
  - rewrite Validate_read. cbv zeta. rewrite Hd.
    destruct (firstError flags); [done|].
    unfold parseCommonValues. simpl.
    by destruct (PercentageSet _).
  - intros args Hargs.
    destruct (Validate_inl _ _ _ Hargs)
      as (_ & _ & _ & _ & _ & _ & -> & -> & ->).
    rewrite Hd. unfold parseCommonValues. simpl.
    by destruct (PercentageSet _).
Qed.

(** X20. Arguments returned with [DownloadChart] true: the user did not set
    the chart path and the version is neither empty nor a valid semantic
    version; [cloneRepo] was called once, on the repository URL and the
    version, and gave a directory; that directory is the temporary
    directory of the arguments, the chart path is the chart below it,
    whatever the chart-path flag held, and the one text printed names the
    directory. *)
Theorem Validate_download (providerName : string) (flags : gmap string Flag)
    (args : CommonArguments) :
  (Validate providerName flags).1 = inl args →
  DownloadChart args = true →
  Changed flags "chart-path" = false
  ∧ Version args ≠ ""
  ∧ IsValid (Version args) = false
  ∧ ∃ dir,
      cloneRepo (stringFlag flags "repo-url") (Version args) = inl dir
      ∧ ChartTmpDir args = dir
      ∧ ChartPath args = dir ++ "/deployments/liqo"
      ∧ (Validate providerName flags).2
        = [CloneRepo (stringFlag flags "repo-url") (Version args);
           UpdateText ("Using chart from " ++ dir)].
Proof.
  intros Hargs.
  destruct (Validate_inl _ _ _ Hargs)
    as (_ & Herr & -> & -> & _ & _ & -> & -> & ->).
  intros Hd. rewrite Hd in *.
  apply andb_true_iff in Hd as [Hc Hr].
  apply negb_true_iff in Hc, Hr.
  unfold isRelease in Hr. apply orb_false_iff in Hr as [Hempty Hvalid].
  split; [done|]. split; [by apply bool_decide_eq_false in Hempty|].
  split; [done|].
  unfold parseCommonValues in *. simpl in *.
  destruct (cloneRepo _ _) as [dir|e]; [|done].
  exists dir. by destruct (PercentageSet _).
Qed.

(** X21. The sharing percentage is checked after the chart has been
    downloaded: when every flag is read, the chart is to be downloaded and
    [cloneRepo] gives a directory, a percentage that [Percentage.Set] refuses
    makes [ValidateCommonArguments] return that error with the repository
    cloned and the text printed, and the directory is not returned. *)
Theorem Validate_percentage_after_clone (providerName : string)
    (flags : gmap string Flag) (dir : string) (e : error) :
  firstError flags = None →
  Changed flags "chart-path" = false →
  isRelease IsValid (stringFlag flags "version") = false →
  cloneRepo (stringFlag flags "repo-url") (stringFlag flags "version") = inl dir →
  PercentageSet (stringFlag flags "resource-sharing-percentage") = inr e →
  Validate providerName flags
  = (inr e,
     [CloneRepo (stringFlag flags "repo-url") (stringFlag flags "version");
      UpdateText ("Using chart from " ++ dir)]).
Proof.
  intros Hread Hc Hr Hclone Hpct.
  rewrite Validate_read, Hread. cbv zeta. rewrite Hc, Hr.
  unfold parseCommonValues. simpl. by rewrite Hclone, Hpct.
Qed.

(** X22. The timeout of the arguments returned is the timeout flag in
    seconds as long as that fits a [time.Duration]: up to 9223372036
    seconds in either direction. Above that and up to 18446744073 seconds it
    has wrapped around to a negative duration. *)
Theorem Validate_Timeout (providerName : string) (flags : gmap string Flag)
    (args : CommonArguments) :
  (Validate providerName flags).1 = inl args →
  let t := intFlag flags "timeout" in
  ((-9223372036 ≤ t ≤ 9223372036)%Z → Timeout args = (t * 1000000000)%Z)
  ∧ ((9223372036 < t ≤ 18446744073)%Z →
     Timeout args = (t * 1000000000 - 2 ^ 64)%Z ∧ (Timeout args < 0)%Z).
Proof.
  intros Hargs.
  destruct (Validate_inl _ _ _ Hargs) as (_ & _ & _ & _ & -> & _).
  cbv zeta. unfold wrap64, Second.
  change (2 ^ 63)%Z with 9223372036854775808%Z.
  change (2 ^ 64)%Z with 18446744073709551616%Z.
  split.
  - intros Ht. rewrite Z.mod_small by lia. lia.
  - intros Ht.
    replace (intFlag flags "timeout" * 1000000000 + 9223372036854775808)%Z
      with (intFlag flags "timeout" * 1000000000 - 9223372036854775808
            + 1 * 18446744073709551616)%Z by lia.
    rewrite Z_mod_plus_full, Z.mod_small by lia. lia.
Qed.

(** X23. The Helm values of the arguments returned: the tag is empty when
    the chart path returned, the one after a download, is the official
    chart, and the version otherwise; discovery and advertisement are both
    switched by the LAN discovery flag; the gateway has two replicas with
    high availability and one without; port, MTU and the percentage that
    [Percentage.Set] parsed are passed on. *)
Theorem Validate_values (providerName : string) (flags : gmap string Flag)
    (args : CommonArguments) :
  (Validate providerName flags).1 = inl args →
  ∃ vals pct,
    CommonValues args = Some vals
    ∧ PercentageSet (stringFlag flags "resource-sharing-percentage") = inl pct
    ∧ entry "tag" vals
      = Some (VString (if bool_decide (ChartPath args = LiqoChartFullName)
                       then "" else Version args))
    ∧ at_path ["discovery"; "config"; "enableDiscovery"] (VMap vals)
      = Some (VBool (boolFlag flags "enable-lan-discovery"))
    ∧ at_path ["discovery"; "config"; "enableAdvertisement"] (VMap vals)
      = Some (VBool (boolFlag flags "enable-lan-discovery"))
    ∧ at_path ["controllerManager"; "config"; "resourceSharingPercentage"]
        (VMap vals) = Some (VFloat64 pct)
    ∧ at_path ["gateway"; "replicas"] (VMap vals)
      = Some (VFloat64 (if boolFlag flags "enable-ha" then 2 else 1))
    ∧ at_path ["gateway"; "config"; "listeningPort"] (VMap vals)
      = Some (VFloat64 (intFlag flags "vpn-listening-port"))
    ∧ at_path ["networkConfig"; "mtu"] (VMap vals)
      = Some (VFloat64 (intFlag flags "mtu")).
Proof.
  intros Hargs.
  destruct (Validate_inl _ _ _ Hargs)
    as (_ & Herr & _ & -> & _ & -> & -> & _ & _).
  revert Herr. unfold parseCommonValues.
  destruct (negb _ && negb _); simpl.
  - destruct (cloneRepo _ _) as [dir|e]; [|done].
    destruct (PercentageSet _) as [pct|e]; [|done]. intros _. simpl.
    eexists _, pct. split; [done|]. split; [done|]. split.
    + simpl. by repeat case_bool_decide.
    + by repeat split.
  - destruct (PercentageSet _) as [pct|e]; [|done]. intros _. simpl.
    eexists _, pct. split; [done|]. split; [done|]. split.
    + simpl. by repeat case_bool_decide.
    + by repeat split.
Qed.

End Validate.

(** Without the flag [mtu] the error is that of [mtu]. *)
Lemma Validate_flag_error_witness :
  ValidateCommonArguments exampleIsValid "liqo/liqo" exampleCloneRepo
    examplePercentageSet "kubeadm" shortFlags
  = (inr (ErrNotDefined "mtu"), []).
Proof.
  apply (proj1 (Validate_flag_error exampleIsValid "liqo/liqo"
                  exampleCloneRepo examplePercentageSet "kubeadm" shortFlags)).
  vm_compute. reflexivity.
Defined.

(** With the default flags, an empty version, nothing is cloned. *)
Lemma Validate_without_download_witness :
  (ValidateCommonArguments exampleIsValid "liqo/liqo" exampleCloneRepo
     examplePercentageSet "kubeadm" exampleFlags).2 = [].
Proof.
  refine (proj1 (Validate_without_download exampleIsValid "liqo/liqo"
                   exampleCloneRepo examplePercentageSet "kubeadm"
                   exampleFlags _)).
  right. vm_compute. reflexivity.
Defined.

(** With a commit hash as the version the chart comes from the clone. *)
Lemma Validate_download_witness :
  ∃ args,
    (ValidateCommonArguments exampleIsValid "liqo/liqo" exampleCloneRepo
       examplePercentageSet "kubeadm" commitFlags).1 = inl args
    ∧ ChartPath args = "/tmp/liqo/deployments/liqo".
Proof.
  eexists. split; [vm_compute; reflexivity|].
  destruct (Validate_download exampleIsValid "liqo/liqo" exampleCloneRepo
              examplePercentageSet "kubeadm" commitFlags _
              ltac:(vm_compute; reflexivity) ltac:(vm_compute; reflexivity))
    as (_ & _ & _ & dir & Hdir & _ & Hpath & _).
  injection Hdir as <-. exact Hpath.
Defined.

(** The same with a percentage that is refused. *)
Lemma Validate_percentage_after_clone_witness :
  ValidateCommonArguments exampleIsValid "liqo/liqo" exampleCloneRepo
    refusedPercentageSet "kubeadm" commitFlags
  = (inr (ErrExternal "invalid percentage"),
     [CloneRepo (stringFlag commitFlags "repo-url")
        (stringFlag commitFlags "version");
      UpdateText ("Using chart from " ++ "/tmp/liqo")]).
Proof.
  apply (Validate_percentage_after_clone exampleIsValid "liqo/liqo"
           exampleCloneRepo refusedPercentageSet "kubeadm" commitFlags
           "/tmp/liqo" (ErrExternal "invalid percentage")).
  - vm_compute. reflexivity.
  - vm_compute. reflexivity.
  - vm_compute. reflexivity.
  - reflexivity.
  - reflexivity.
Defined.

(** Ten minutes are ten minutes; three hundred years are negative. *)
Lemma Validate_Timeout_witness :
  (∃ args,
     (ValidateCommonArguments exampleIsValid "liqo/liqo" exampleCloneRepo
        examplePercentageSet "kubeadm" exampleFlags).1 = inl args
     ∧ Timeout args = (intFlag exampleFlags "timeout" * 1000000000)%Z)
  ∧ (∃ args,
       (ValidateCommonArguments exampleIsValid "liqo/liqo" exampleCloneRepo
          examplePercentageSet "kubeadm" longFlags).1 = inl args
       ∧ (Timeout args < 0)%Z).
Proof.
  split.
  - eexists. split; [vm_compute; reflexivity|].
    apply (proj1 (Validate_Timeout exampleIsValid "liqo/liqo" exampleCloneRepo
                    examplePercentageSet "kubeadm" exampleFlags _
                    ltac:(vm_compute; reflexivity))).
    vm_compute. split; discriminate.
  - eexists. split; [vm_compute; reflexivity|].
    apply (proj2 (Validate_Timeout exampleIsValid "liqo/liqo" exampleCloneRepo
                    examplePercentageSet "kubeadm" longFlags _
                    ltac:(vm_compute; reflexivity))).
    vm_compute. split; [reflexivity|discriminate].
Defined.

(** The values of the default flags: the official chart, so no tag. *)
Lemma Validate_values_witness :
  ∃ args vals,
    (ValidateCommonArguments exampleIsValid "liqo/liqo" exampleCloneRepo
       examplePercentageSet "kubeadm" exampleFlags).1 = inl args
    ∧ CommonValues args = Some vals
    ∧ entry "tag" vals
      = Some (VString (if bool_decide (ChartPath args = "liqo/liqo")
                       then "" else Version args)).
Proof.
  eexists.
  destruct (Validate_values exampleIsValid "liqo/liqo" exampleCloneRepo
              examplePercentageSet "kubeadm" exampleFlags _
              ltac:(vm_compute; reflexivity))
    as (vals & pct & Hvals & _ & Htag & _).
  exists vals. split; [vm_compute; reflexivity|]. by split.
Defined.

End ProviderTheory.
